(** * forge.observability.metrics

    A shallow embedding of the metric accumulators, the Top/Bottom-K sample
    filter, the state-merge function [reduce_metrics_states] and the per-rank
    [MetricCollector] of [src/forge/observability/metrics.py], followed by the
    properties stated about them.

    Conventions of the embedding.
    - A Python [float] is a binary64 primitive float; Python [int] is [Z].
    - A raising call returns [Raise e]; the object it was mutating is lost with
      it (no property below speaks about an object after an exception).
    - A class is a [Module] holding a record [t] and one function per method;
      [self] is passed and returned explicitly.
    - Calls into logger backends and into the logging module are recorded as a
      trace of [Event]s. *)

From Stdlib Require Import ZArith Lia List Floats String.
From stdpp Require Import base tactics option list gmap strings.

#[local] Set Warnings "-inexact-float".
#[local] Open Scope string_scope.
#[local] Open Scope list_scope.

(** ** Python runtime *)

Inductive exn :=
| TypeError (msg : string)
| ValueError (msg : string)
| KeyError (k : string)
| IndexError (msg : string).

Inductive Res (A : Type) : Type :=
| Ok (a : A)
| Raise (e : exn).
Arguments Ok {A} a.
Arguments Raise {A} e.

#[global] Instance Res_ret : MRet Res := λ A a, Ok a.
#[global] Instance Res_bind : MBind Res :=
  λ A B f m, match m with Ok a => f a | Raise e => Raise e end.
#[global] Instance Res_fmap : FMap Res :=
  λ A B f m, match m with Ok a => Ok (f a) | Raise e => Raise e end.

(** [[f(x) for x in l]] where [f] may raise: stops at the first exception. *)
Fixpoint res_map {A B : Type} (f : A → Res B) (l : list A) : Res (list B) :=
  match l with
  | [] => Ok []
  | x :: l => y ← f x; ys ← res_map f l; Ok (y :: ys)
  end.

(** [l[i]] *)
Definition getitem {A : Type} (l : list A) (i : nat) : Res A :=
  match l !! i with
  | Some x => Ok x
  | None => Raise (IndexError "list index out of range")
  end.

(** Conversion of an [int] operand in mixed [int]/[float] arithmetic
    (round to nearest, ties to even). *)
Definition float_of_int (n : Z) : float :=
  SF2Prim (binary_normalize prec emax n 0 false).

(** The builtin [max(a, b)]: the first argument is kept unless the second is
    strictly greater; [min(a, b)] likewise with strictly smaller. *)
Definition py_max (a b : float) : float := if (a <? b)%float then b else a.
Definition py_min (a b : float) : float := if (b <? a)%float then b else a.

(** NaN is the one float that [<] relates to nothing. *)
Definition not_nan (x : float) : Prop := Prim2SF x ≠ S754_nan.

(** [max(iterable)] and [min(iterable)]. *)
Definition py_max_iter (l : list float) : Res float :=
  match l with
  | [] => Raise (ValueError "max() arg is an empty sequence")
  | x :: l => Ok (fold_left py_max l x)
  end.

Definition py_min_iter (l : list float) : Res float :=
  match l with
  | [] => Raise (ValueError "min() arg is an empty sequence")
  | x :: l => Ok (fold_left py_min l x)
  end.

(** [x ** 0.5] on a float that is not negative. CPython calls the C library's
    [pow], which is within one unit in the last place of the square root; the
    embedding takes the correctly rounded square root. No property below
    looks inside this function. *)
Definition pow_half (x : float) : float := sqrt x.

(** The builtin [sum(iterable)]: a left fold of [+] starting from the [int]
    [0]. On floats this is the summation of CPython up to 3.11; from 3.12 on
    the builtin compensates the rounding error when three or more floats are
    added (one or two items give the same result in every version). The sum of
    no item at all is the [int] [0], read here as [0.0]. *)
Definition py_sum (l : list float) : float := fold_left add l (float_of_int 0).
Definition py_sum_int (l : list Z) : Z := fold_left Z.add l 0%Z.

(** ** Values carried by metrics *)

(** Two floats are the same value when [Leibniz.eqb] says so (unlike [==],
    it tells [+0.0] from [-0.0] and finds NaN equal to itself). *)
#[global] Instance float_eq_dec : EqDecision float.
Proof.
  intros x y. destruct (PrimFloat.Leibniz.eqb x y) eqn:E.
  - left. by apply FloatAxioms.Leibniz.eqb_spec.
  - right. intros H%FloatAxioms.Leibniz.eqb_spec. congruence.
Defined.

(** A sample is a [dict] from field names to numbers or text. *)
Inductive Field :=
| FNum (f : float)
| FText (s : string).

#[global] Instance Field_eq_dec : EqDecision Field.
Proof. solve_decision. Defined.

Abbreviation Sample := (gmap string Field).

(** [Metric.value] is typed [Any]: a number (int, float, or an object with
    [.item()]), a sample dict, a list of samples (the reduced value of a SAMPLE
    metric), or something else. *)
Inductive PyValue :=
| VNum (f : float)
| VDict (d : Sample)
| VList (l : list Sample)
| VOther (repr : string).

(** [float(value.item() if hasattr(value, "item") else value)] *)
Definition to_float (value : PyValue) : Res float :=
  match value with
  | VNum f => Ok f
  | _ => Raise (TypeError "float() argument must be a string or a real number")
  end.

(** ** class Reduce(Enum) *)

Inductive Reduce := MEAN | SUM | MAX | MIN | STD | SAMPLE.

#[global] Instance Reduce_eq_dec : EqDecision Reduce.
Proof. solve_decision. Defined.

(** [r.value] *)
Definition Reduce_value (r : Reduce) : string :=
  match r with
  | MEAN => "mean"
  | SUM => "sum"
  | MAX => "max"
  | MIN => "min"
  | STD => "std"
  | SAMPLE => "sample"
  end.

(** [Reduce(s)] *)
Definition Reduce_of_value (s : string) : Res Reduce :=
  if String.eqb s "mean" then Ok MEAN
  else if String.eqb s "sum" then Ok SUM
  else if String.eqb s "max" then Ok MAX
  else if String.eqb s "min" then Ok MIN
  else if String.eqb s "std" then Ok STD
  else if String.eqb s "sample" then Ok SAMPLE
  else Raise (ValueError (s +:+ " is not a valid Reduce")).

(** ** @dataclass Metric *)

Module Metric.
Record t := mk {
  key : string;
  value : PyValue;
  reduction : Reduce;
  timestamp : float
}.
End Metric.

(** ** heapq (CPython's standard library, [Lib/heapq.py]) *)

Module heapq.
Section heap.
Context {A : Type} (lt : A → A → Res bool).

(** The [while pos > startpos] loop of [_siftdown]; [pos] decreases at every
    iteration, so [pos] iterations are enough. *)
Fixpoint _siftdown_loop (fuel : nat) (heap : list A) (startpos pos : nat)
    (newitem : A) : Res (list A * nat) :=
  match fuel with
  | O => Ok (heap, pos)
  | S fuel =>
    if decide (startpos < pos)%nat then
      let parentpos := ((pos - 1) / 2)%nat in
      parent ← getitem heap parentpos;
      b ← lt newitem parent;
      if (b : bool) then
        _siftdown_loop fuel (<[pos := parent]> heap) startpos parentpos newitem
      else Ok (heap, pos)
    else Ok (heap, pos)
  end.

Definition _siftdown (heap : list A) (startpos pos : nat) : Res (list A) :=
  newitem ← getitem heap pos;
  hp ← _siftdown_loop pos heap startpos pos newitem;
  Ok (<[hp.2 := newitem]> hp.1).

(** The [while childpos < endpos] loop of [_siftup]; [pos] increases at every
    iteration and stays below [endpos]. *)
Fixpoint _siftup_loop (fuel : nat) (heap : list A) (endpos pos : nat)
    : Res (list A * nat) :=
  match fuel with
  | O => Ok (heap, pos)
  | S fuel =>
    let childpos := (2 * pos + 1)%nat in
    if decide (childpos < endpos)%nat then
      let rightpos := (childpos + 1)%nat in
      childpos ← (if decide (rightpos < endpos)%nat then
                    l ← getitem heap childpos;
                    r ← getitem heap rightpos;
                    b ← lt l r;
                    Ok (if (b : bool) then childpos else rightpos)
                  else Ok childpos);
      c ← getitem heap childpos;
      _siftup_loop fuel (<[pos := c]> heap) endpos childpos
    else Ok (heap, pos)
  end.

Definition _siftup (heap : list A) (pos : nat) : Res (list A) :=
  let endpos := length heap in
  let startpos := pos in
  newitem ← getitem heap pos;
  hp ← _siftup_loop endpos heap endpos pos;
  _siftdown (<[hp.2 := newitem]> hp.1) startpos hp.2.

(** [heappush(heap, item)]: returns the heap after the in-place update. *)
Definition heappush (heap : list A) (item : A) : Res (list A) :=
  _siftdown (heap ++ [item]) 0 (length heap).

(** [heappushpop(heap, item)]: the heap after the call and the returned item. *)
Definition heappushpop (heap : list A) (item : A) : Res (list A * A) :=
  match heap with
  | [] => Ok (heap, item)
  | top :: _ =>
    b ← lt top item;
    if (b : bool) then
      heap ← _siftup (<[0%nat := item]> heap) 0;
      Ok (heap, top)
    else Ok (heap, item)
  end.

End heap.
End heapq.

(** ** class TopBottomKFilter *)

Module TopBottomKFilter.

(** A heap entry [(val, idx, sample)]; the bottom heap stores [-val]. *)
Definition entry : Type := Field * nat * Sample.

Record t := mk {
  top_k : Z;
  bottom_k : Z;
  key : string;
  _top_heap : list entry;
  _bottom_heap : list entry;
  _counter : nat
}.

Definition __init__ (top_k bottom_k : Z) (key : string) : t :=
  mk top_k bottom_k key [] [] 0.

(** [a == b] on ranking values. *)
Definition field_eq (a b : Field) : bool :=
  match a, b with
  | FNum x, FNum y => (x =? y)%float
  | FText x, FText y => String.eqb x y
  | _, _ => false
  end.

(** [a < b] on ranking values. *)
Definition field_lt (a b : Field) : Res bool :=
  match a, b with
  | FNum x, FNum y => Ok (x <? y)%float
  | FText x, FText y => Ok (String.ltb x y)
  | _, _ => Raise (TypeError "'<' not supported between instances of 'str' and 'float'")
  end.

(** [-val] *)
Definition field_neg (a : Field) : Res Field :=
  match a with
  | FNum x => Ok (FNum (- x)%float)
  | FText _ => Raise (TypeError "bad operand type for unary -: 'str'")
  end.

(** Tuple comparison [a < b]: the first position where the tuples differ
    decides, and tuples equal at every position are not below one another.
    Sample dicts do not support [<]; two entries of one filter that share
    [idx] are one and the same entry (each append draws a fresh [idx] from the
    counter), whose samples are the same dict. *)
Definition entry_lt (a b : entry) : Res bool :=
  let '(v1, i1, s1) := a in
  let '(v2, i2, s2) := b in
  if negb (field_eq v1 v2) then field_lt v1 v2
  else if negb (i1 =? i2)%nat then Ok (i1 <? i2)%nat
  else if decide (s1 = s2) then Ok false
  else Raise (TypeError "'<' not supported between instances of 'dict' and 'dict'").

Definition filter_append (self : t) (sample : Sample) : Res (t * bool) :=
  let val := default (FNum 0) (sample !! key self) in
  let idx := _counter self in
  top ← (if decide (0 < top_k self)%Z then
           if decide (Z.of_nat (length (_top_heap self)) < top_k self)%Z
           then heapq.heappush entry_lt (_top_heap self) (val, idx, sample)
           else fst <$> heapq.heappushpop entry_lt (_top_heap self) (val, idx, sample)
         else Ok (_top_heap self));
  bottom ← (if decide (0 < bottom_k self)%Z then
              nval ← field_neg val;
              if decide (Z.of_nat (length (_bottom_heap self)) < bottom_k self)%Z
              then heapq.heappush entry_lt (_bottom_heap self) (nval, idx, sample)
              else fst <$> heapq.heappushpop entry_lt (_bottom_heap self) (nval, idx, sample)
            else Ok (_bottom_heap self));
  Ok (mk (top_k self) (bottom_k self) (key self) top bottom (S idx), false).

Definition filter_flush (self : t) (samples : list Sample) : list Sample :=
  let tops := snd <$> _top_heap self in
  let bottoms := snd <$> _bottom_heap self in
  bottoms ++ tops.

Definition reset (self : t) : t :=
  mk (top_k self) (bottom_k self) (key self) [] [] 0.

End TopBottomKFilter.

(** ** Accumulator states

    The dict returned by [get_state]: a ["reduction_type"] entry and the fields
    of the accumulator class that produced it. *)

Inductive AccState :=
| MeanState (reduction_type : string) (sum : float) (count : Z)
| SumState (reduction_type : string) (total : float)
| MaxState (reduction_type : string) (max_val : float)
| MinState (reduction_type : string) (min_val : float)
| StdState (reduction_type : string) (sum sum_sq : float) (count : Z)
| SampleState (reduction_type : string) (samples : list Sample).

(** [state["reduction_type"]] *)
Definition state_reduction_type (s : AccState) : string :=
  match s with
  | MeanState r _ _ | SumState r _ | MaxState r _ | MinState r _
  | StdState r _ _ _ | SampleState r _ => r
  end.

(** [s["sum"]], [s["count"]], ...: [KeyError] when the dict has no such entry. *)
Definition state_sum (s : AccState) : Res float :=
  match s with
  | MeanState _ x _ | StdState _ x _ _ => Ok x
  | _ => Raise (KeyError "sum")
  end.

Definition state_count (s : AccState) : Res Z :=
  match s with
  | MeanState _ _ n | StdState _ _ _ n => Ok n
  | _ => Raise (KeyError "count")
  end.

Definition state_sum_sq (s : AccState) : Res float :=
  match s with
  | StdState _ _ x _ => Ok x
  | _ => Raise (KeyError "sum_sq")
  end.

Definition state_total (s : AccState) : Res float :=
  match s with
  | SumState _ x => Ok x
  | _ => Raise (KeyError "total")
  end.

Definition state_max_val (s : AccState) : Res float :=
  match s with
  | MaxState _ x => Ok x
  | _ => Raise (KeyError "max_val")
  end.

Definition state_min_val (s : AccState) : Res float :=
  match s with
  | MinState _ x => Ok x
  | _ => Raise (KeyError "min_val")
  end.

(** [s.get("samples", [])] *)
Definition state_samples (s : AccState) : list Sample :=
  match s with
  | SampleState _ l => l
  | _ => []
  end.

(** ** Accumulators *)

Module MeanAccumulator.
Record t := mk { reduction_type : Reduce; sum : float; count : Z }.

Definition __init__ (reduction : Reduce) : t := mk reduction 0 0.

Definition append (self : t) (value : PyValue) : Res t :=
  v ← to_float value;
  Ok (mk (reduction_type self) (sum self + v) (count self + 1)).

Definition get_value (self : t) : float :=
  if decide (0 < count self)%Z
  then (sum self / float_of_int (count self))%float
  else 0%float.

Definition get_state (self : t) : AccState :=
  MeanState (Reduce_value (reduction_type self)) (sum self) (count self).

Definition get_reduced_value_from_states (states : list AccState) : Res float :=
  sums ← res_map state_sum states;
  let total_sum := py_sum sums in
  counts ← res_map state_count states;
  let total_count := py_sum_int counts in
  Ok (if decide (0 < total_count)%Z
      then (total_sum / float_of_int total_count)%float
      else 0%float).

Definition reset (self : t) : t := mk (reduction_type self) 0 0.
End MeanAccumulator.

Module SumAccumulator.
Record t := mk { reduction_type : Reduce; total : float }.

Definition __init__ (reduction : Reduce) : t := mk reduction 0.

Definition append (self : t) (value : PyValue) : Res t :=
  v ← to_float value;
  Ok (mk (reduction_type self) (total self + v)).

Definition get_value (self : t) : float := total self.

Definition get_state (self : t) : AccState :=
  SumState (Reduce_value (reduction_type self)) (total self).

Definition get_reduced_value_from_states (states : list AccState) : Res float :=
  totals ← res_map state_total states;
  Ok (py_sum totals).

Definition reset (self : t) : t := mk (reduction_type self) 0.
End SumAccumulator.

Module MaxAccumulator.
Record t := mk { reduction_type : Reduce; max_val : float }.

Definition __init__ (reduction : Reduce) : t := mk reduction neg_infinity.

Definition append (self : t) (value : PyValue) : Res t :=
  v ← to_float value;
  Ok (mk (reduction_type self) (py_max (max_val self) v)).

Definition get_value (self : t) : float := max_val self.

Definition get_state (self : t) : AccState :=
  MaxState (Reduce_value (reduction_type self)) (max_val self).

Definition get_reduced_value_from_states (states : list AccState) : Res float :=
  vals ← res_map state_max_val states;
  py_max_iter vals.

Definition reset (self : t) : t := mk (reduction_type self) neg_infinity.
End MaxAccumulator.

Module MinAccumulator.
Record t := mk { reduction_type : Reduce; min_val : float }.

Definition __init__ (reduction : Reduce) : t := mk reduction infinity.

Definition append (self : t) (value : PyValue) : Res t :=
  v ← to_float value;
  Ok (mk (reduction_type self) (py_min (min_val self) v)).

Definition get_value (self : t) : float := min_val self.

Definition get_state (self : t) : AccState :=
  MinState (Reduce_value (reduction_type self)) (min_val self).

Definition get_reduced_value_from_states (states : list AccState) : Res float :=
  vals ← res_map state_min_val states;
  py_min_iter vals.

Definition reset (self : t) : t := mk (reduction_type self) infinity.
End MinAccumulator.

Module StdAccumulator.
Record t := mk { reduction_type : Reduce; sum : float; sum_sq : float; count : Z }.

Definition __init__ (reduction : Reduce) : t := mk reduction 0 0 0.

Definition append (self : t) (value : PyValue) : Res t :=
  v ← to_float value;
  Ok (mk (reduction_type self) (sum self + v) (sum_sq self + v * v) (count self + 1)).

(** The body shared by [get_value] and [get_reduced_value_from_states]. *)
Definition std_of (sum sum_sq : float) (count : Z) : float :=
  if decide (count = 0)%Z then 0%float
  else if decide (count = 1)%Z then 0%float
  else
    let mean := (sum / float_of_int count)%float in
    let variance := (sum_sq / float_of_int count - mean * mean)%float in
    pow_half (py_max 0 variance).

Definition get_value (self : t) : float :=
  std_of (sum self) (sum_sq self) (count self).

Definition get_state (self : t) : AccState :=
  StdState (Reduce_value (reduction_type self)) (sum self) (sum_sq self) (count self).

Definition get_reduced_value_from_states (states : list AccState) : Res float :=
  sums ← res_map state_sum states;
  let total_sum := py_sum sums in
  sum_sqs ← res_map state_sum_sq states;
  let total_sum_sq := py_sum sum_sqs in
  counts ← res_map state_count states;
  let total_count := py_sum_int counts in
  Ok (std_of total_sum total_sum_sq total_count).

Definition reset (self : t) : t := mk (reduction_type self) 0 0 0.
End StdAccumulator.

Module SampleAccumulator.
Record t := mk {
  reduction_type : Reduce;
  samples : list Sample;
  filter : TopBottomKFilter.t
}.

Definition __init__ (reduction : Reduce) : t :=
  mk reduction [] (TopBottomKFilter.__init__ 1 1 "reward").

Definition append (self : t) (value : PyValue) : Res t :=
  match value with
  | VDict d =>
    fb ← TopBottomKFilter.filter_append (filter self) d;
    Ok (mk (reduction_type self)
           (if (fb.2 : bool) then samples self ++ [d] else samples self)
           fb.1)
  | _ => Raise (ValueError "Expected dict")
  end.

Definition get_value (self : t) : list Sample :=
  TopBottomKFilter.filter_flush (filter self) (samples self).

Definition get_state (self : t) : AccState :=
  SampleState (Reduce_value (reduction_type self)) (get_value self).

Definition get_reduced_value_from_states (states : list AccState) : list Sample :=
  fold_left (λ merged s, merged ++ state_samples s) states [].

Definition reset (self : t) : t :=
  mk (reduction_type self) [] (TopBottomKFilter.reset (filter self)).
End SampleAccumulator.

(** ** class MetricAccumulator(ABC): the six implementations *)

Module MetricAccumulator.
Inductive t :=
| Mean (a : MeanAccumulator.t)
| Sum (a : SumAccumulator.t)
| Max (a : MaxAccumulator.t)
| Min (a : MinAccumulator.t)
| Std (a : StdAccumulator.t)
| Sample (a : SampleAccumulator.t).

Definition append (self : t) (value : PyValue) : Res t :=
  match self with
  | Mean a => Mean <$> MeanAccumulator.append a value
  | Sum a => Sum <$> SumAccumulator.append a value
  | Max a => Max <$> MaxAccumulator.append a value
  | Min a => Min <$> MinAccumulator.append a value
  | Std a => Std <$> StdAccumulator.append a value
  | Sample a => Sample <$> SampleAccumulator.append a value
  end.

Definition get_value (self : t) : PyValue :=
  match self with
  | Mean a => VNum (MeanAccumulator.get_value a)
  | Sum a => VNum (SumAccumulator.get_value a)
  | Max a => VNum (MaxAccumulator.get_value a)
  | Min a => VNum (MinAccumulator.get_value a)
  | Std a => VNum (StdAccumulator.get_value a)
  | Sample a => VList (SampleAccumulator.get_value a)
  end.

Definition get_state (self : t) : AccState :=
  match self with
  | Mean a => MeanAccumulator.get_state a
  | Sum a => SumAccumulator.get_state a
  | Max a => MaxAccumulator.get_state a
  | Min a => MinAccumulator.get_state a
  | Std a => StdAccumulator.get_state a
  | Sample a => SampleAccumulator.get_state a
  end.

Definition reset (self : t) : t :=
  match self with
  | Mean a => Mean (MeanAccumulator.reset a)
  | Sum a => Sum (SumAccumulator.reset a)
  | Max a => Max (MaxAccumulator.reset a)
  | Min a => Min (MinAccumulator.reset a)
  | Std a => Std (StdAccumulator.reset a)
  | Sample a => Sample (SampleAccumulator.reset a)
  end.
End MetricAccumulator.

(** [Reduce.accumulator_class]: the class bound to a reduction kind, given here
    by its constructor [cls(reduction)] and by its class method
    [cls.get_reduced_value_from_states(states)]. *)
Definition accumulator_class (self : Reduce) (reduction : Reduce) : MetricAccumulator.t :=
  match self with
  | MEAN => MetricAccumulator.Mean (MeanAccumulator.__init__ reduction)
  | SUM => MetricAccumulator.Sum (SumAccumulator.__init__ reduction)
  | MAX => MetricAccumulator.Max (MaxAccumulator.__init__ reduction)
  | MIN => MetricAccumulator.Min (MinAccumulator.__init__ reduction)
  | STD => MetricAccumulator.Std (StdAccumulator.__init__ reduction)
  | SAMPLE => MetricAccumulator.Sample (SampleAccumulator.__init__ reduction)
  end.

Definition get_reduced_value_from_states (cls : Reduce) (states : list AccState)
    : Res PyValue :=
  match cls with
  | MEAN => VNum <$> MeanAccumulator.get_reduced_value_from_states states
  | SUM => VNum <$> SumAccumulator.get_reduced_value_from_states states
  | MAX => VNum <$> MaxAccumulator.get_reduced_value_from_states states
  | MIN => VNum <$> MinAccumulator.get_reduced_value_from_states states
  | STD => VNum <$> StdAccumulator.get_reduced_value_from_states states
  | SAMPLE => Ok (VList (SampleAccumulator.get_reduced_value_from_states states))
  end.

(** The class of an accumulator object, named by the kind it is bound to. *)
Definition class_of (acc : MetricAccumulator.t) : Reduce :=
  match acc with
  | MetricAccumulator.Mean _ => MEAN
  | MetricAccumulator.Sum _ => SUM
  | MetricAccumulator.Max _ => MAX
  | MetricAccumulator.Min _ => MIN
  | MetricAccumulator.Std _ => STD
  | MetricAccumulator.Sample _ => SAMPLE
  end.

(** ** reduce_metrics_states *)

(** [[state.get(key) for state in states if key in state]] *)
Definition metric_states_of (key : string) (states : list (gmap string AccState))
    : list AccState :=
  omap (λ state : gmap string AccState, state !! key) states.

(** The message of the [ValueError] raised on a mismatch. *)
Definition mismatch_message (key first_reduction_type other : string) : string :=
  "Mismatched reduction types for key '" +:+ key +:+ "': "
  +:+ first_reduction_type +:+ " vs " +:+ other.

(** The consistency loop: every state is compared with the first one. *)
Fixpoint check_consistency (key first_reduction_type : string)
    (metric_states : list AccState) : Res unit :=
  match metric_states with
  | [] => Ok ()
  | state :: rest =>
    if negb (String.eqb (state_reduction_type state) first_reduction_type)
    then Raise (ValueError (mismatch_message key first_reduction_type
                              (state_reduction_type state)))
    else check_consistency key first_reduction_type rest
  end.

(** The body of [for key in all_keys]; [None] is the [continue] branch. [now]
    is the clock reading that [Metric.__post_init__] stores as timestamp. *)
Definition reduce_key (now : float) (states : list (gmap string AccState))
    (key : string) : Res (option Metric.t) :=
  let metric_states := metric_states_of key states in
  match metric_states with
  | [] => Ok None
  | first :: _ =>
    let first_reduction_type := state_reduction_type first in
    _ ← check_consistency key first_reduction_type metric_states;
    metric_accumulator ← Reduce_of_value first_reduction_type;
    reduced_value ← get_reduced_value_from_states metric_accumulator metric_states;
    reduction ← Reduce_of_value first_reduction_type;
    Ok (Some (Metric.mk key reduced_value reduction now))
  end.

(** The loop over the keys, in the order [keys] in which the set is iterated. *)
Fixpoint reduce_keys (now : float) (states : list (gmap string AccState))
    (keys : list string) : Res (list Metric.t) :=
  match keys with
  | [] => Ok []
  | key :: keys =>
    m ← reduce_key now states key;
    reduced_metrics ← reduce_keys now states keys;
    Ok (match m with Some metric => metric :: reduced_metrics | None => reduced_metrics end)
  end.

(** [set(k for state in states for k in state)] *)
Definition all_keys (states : list (gmap string AccState)) : gset string :=
  ⋃ (dom <$> states).

(** CPython iterates a set of strings in an order that depends on the hashes;
    the embedding iterates it in the order of [elements]. Statements that
    depend on the order are made about [reduce_keys] for every order. *)
Definition reduce_metrics_states (now : float) (states : list (gmap string AccState))
    : Res (list Metric.t) :=
  match states with
  | [] => Ok []
  | _ => reduce_keys now states (elements (all_keys states))
  end.

(** ** Logger backends and the effects of the collector *)

Inductive LoggingMode := GLOBAL_REDUCE | PER_RANK_REDUCE | PER_RANK_NO_REDUCE.

#[global] Instance LoggingMode_eq_dec : EqDecision LoggingMode.
Proof. solve_decision. Defined.

(** [LoggingMode(s)] *)
Definition LoggingMode_of_value (s : string) : Res LoggingMode :=
  if String.eqb s "global_reduce" then Ok GLOBAL_REDUCE
  else if String.eqb s "per_rank_reduce" then Ok PER_RANK_REDUCE
  else if String.eqb s "per_rank_no_reduce" then Ok PER_RANK_NO_REDUCE
  else Raise (ValueError (s +:+ " is not a valid LoggingMode")).

(** A backend object, named by the configuration entry it was built from. What a
    backend does with a call is its own business; the collector's calls are
    recorded in order. *)
Abbreviation LoggerBackend := string.

(** [get_logger_backend_class(cls_name)(backend_config)] *)
Definition get_logger_backend_class (cls_name : string) : Res LoggerBackend :=
  if String.eqb cls_name "console" then Ok cls_name
  else if String.eqb cls_name "wandb" then Ok cls_name
  else Raise (ValueError ("Unknown logger backend type: " +:+ cls_name)).

(** [log_once_warning] is the call [log_once(logger, level=logging.WARNING,
    msg=...)] of [forge.util.logging]; [logger_debug] is [logger.debug(...)].
    Their messages are shortened here (the originals embed the actor name and
    the step). [create_task_log_samples] is
    [asyncio.create_task(backend.log_samples({table: rows}, step))]. *)
Inductive Event :=
| log_once_warning (msg : string)
| logger_debug (msg : string)
| backend_init (backend : LoggerBackend) (role : string)
| log_stream (backend : LoggerBackend) (metric : Metric.t) (global_step : Z)
| create_task_log_samples (backend : LoggerBackend) (table : string)
    (rows : list PyValue) (step : Z)
| log_batch (backend : LoggerBackend) (metrics : list Metric.t) (global_step : Z)
| log_samples (backend : LoggerBackend) (samples : gmap string PyValue) (step : Z)
| finish (backend : LoggerBackend).

(** A computation with effects: the calls it made, then its result. *)
Record Eff (A : Type) : Type := mkEff { trace : list Event; outcome : Res A }.
Arguments mkEff {A} trace outcome.
Arguments trace {A} e.
Arguments outcome {A} e.

#[global] Instance Eff_ret : MRet Eff := λ A a, mkEff [] (Ok a).
#[global] Instance Eff_bind : MBind Eff :=
  λ A B f m,
    match outcome m with
    | Ok a => mkEff (trace m ++ trace (f a)) (outcome (f a))
    | Raise e => mkEff (trace m) (Raise e)
    end.

Definition emit (ev : Event) : Eff unit := mkEff [ev] (Ok ()).
Definition lift {A : Type} (r : Res A) : Eff A := mkEff [] r.

(** [for x in l: body(x)] *)
Fixpoint for_each {A : Type} (body : A → Eff unit) (l : list A) : Eff unit :=
  match l with
  | [] => mret ()
  | x :: l => _ ← body x; for_each body l
  end.

(** What [push] receives: a [Metric] or any other object. *)
Inductive PyObject :=
| IsMetric (m : Metric.t)
| NotMetric (repr : string).

(** ** class MetricCollector *)

Module MetricCollector.
Record t := mk {
  accumulators : gmap string MetricAccumulator.t;
  rank : Z;
  per_rank_reduce_backends : list LoggerBackend;
  per_rank_no_reduce_backends : list LoggerBackend;
  global_step : Z;
  _is_initialized : bool
}.

(** The instance [MetricCollector()] creates for a rank seen for the first
    time. *)
Definition __init__ (rank : Z) : t := mk ∅ rank [] [] 0 false.

(** The loop of [init_backends] over [config.items()]; an entry is a backend
    name and the ["logging_mode"] of its configuration. The primary metadata
    and the process name only travel to [backend.init], recorded as
    [backend_init]. *)
Fixpoint init_backends_loop (config : list (string * string))
    (reduce no_reduce : list LoggerBackend)
    : Eff (list LoggerBackend * list LoggerBackend) :=
  match config with
  | [] => mret (reduce, no_reduce)
  | (backend_name, logging_mode) :: config =>
    mode ← lift (LoggingMode_of_value logging_mode);
    if decide (mode = GLOBAL_REDUCE) then init_backends_loop config reduce no_reduce
    else
      backend ← lift (get_logger_backend_class backend_name);
      _ ← emit (backend_init backend "local");
      if decide (mode = PER_RANK_NO_REDUCE)
      then init_backends_loop config reduce (no_reduce ++ [backend])
      else init_backends_loop config (reduce ++ [backend]) no_reduce
  end.

Definition init_backends (self : t) (config : list (string * string))
    (global_step : Z) : Eff t :=
  if _is_initialized self then
    _ ← emit (logger_debug "MetricCollector already initialized");
    mret self
  else
    backends ← init_backends_loop config [] [];
    mret (mk (accumulators self) (rank self) backends.1 backends.2 global_step true).

Definition push_warning : string :=
  "Skipping metric collection. Metric logging backends (e.g. wandb) were not initialized.".

Definition push (self : t) (metric : PyObject) : Eff t :=
  if negb (_is_initialized self) then
    _ ← emit (log_once_warning push_warning);
    mret self
  else
    match metric with
    | NotMetric repr => lift (Raise (TypeError ("Expected Metric object, got " +:+ repr)))
    | IsMetric metric =>
      _ ← for_each (λ backend,
             if decide (Metric.reduction metric = SAMPLE) then
               emit (create_task_log_samples backend (Metric.key metric)
                       [Metric.value metric] (global_step self))
             else emit (log_stream backend metric (global_step self)))
           (per_rank_no_reduce_backends self);
      let key := Metric.key metric in
      let acc :=
        match accumulators self !! key with
        | Some acc => acc
        | None => accumulator_class (Metric.reduction metric) (Metric.reduction metric)
        end in
      acc ← lift (MetricAccumulator.append acc (Metric.value metric));
      mret (mk (<[key := acc]> (accumulators self)) (rank self)
               (per_rank_reduce_backends self) (per_rank_no_reduce_backends self)
               (global_step self) (_is_initialized self))
    end.

(** The calls [push] makes to the stream-immediately backends. *)
Definition stream_events (self : t) (metric : Metric.t) : list Event :=
  (λ backend,
     if decide (Metric.reduction metric = SAMPLE)
     then create_task_log_samples backend (Metric.key metric) [Metric.value metric]
            (global_step self)
     else log_stream backend metric (global_step self))
  <$> per_rank_no_reduce_backends self.

Definition flush_warning : string :=
  "Cannot flush collected metrics. MetricCollector.flush() called before init_backends().".

(** [flush] returns the state dict; the collector after the call comes with
    it. [not self.accumulators] holds when the dict has no entry. *)
Definition flush (now : float) (self : t) (global_step : Z) (return_state : bool)
    : Eff (gmap string AccState * t) :=
  if negb (_is_initialized self) then
    _ ← emit (log_once_warning flush_warning);
    mret (∅, self)
  else if decide (size (accumulators self) = 0%nat) then
    _ ← emit (logger_debug "No metrics to flush");
    mret (∅, self)
  else
    let states := MetricAccumulator.get_state <$> accumulators self in
    let accumulators := MetricAccumulator.reset <$> accumulators self in
    _ ← (match per_rank_reduce_backends self with
         | [] => mret ()
         | _ =>
           reduced_metrics ← lift (reduce_metrics_states now [states]);
           let scalar_metrics :=
             List.filter (λ m, negb (bool_decide (Metric.reduction m = SAMPLE)))
                         reduced_metrics in
           let sample_metrics : gmap string PyValue :=
             list_to_map ((λ m, (Metric.key m, Metric.value m)) <$>
               List.filter (λ m, bool_decide (Metric.reduction m = SAMPLE))
                           reduced_metrics) in
           for_each (λ backend,
               _ ← (match scalar_metrics with
                    | [] => mret ()
                    | _ => emit (log_batch backend scalar_metrics global_step)
                    end);
               if decide (size sample_metrics = 0%nat) then mret ()
               else emit (log_samples backend sample_metrics global_step))
             (per_rank_reduce_backends self)
         end);
    mret (if return_state then states else ∅,
          mk accumulators (rank self) (per_rank_reduce_backends self)
             (per_rank_no_reduce_backends self) (global_step + 1) (_is_initialized self)).

(** The calls [flush] makes to one accumulate-then-flush backend. *)
Definition flush_events (reduced_metrics : list Metric.t) (global_step : Z)
    (backend : LoggerBackend) : list Event :=
  let scalar_metrics :=
    List.filter (λ m, negb (bool_decide (Metric.reduction m = SAMPLE))) reduced_metrics in
  let sample_metrics : gmap string PyValue :=
    list_to_map ((λ m, (Metric.key m, Metric.value m)) <$>
      List.filter (λ m, bool_decide (Metric.reduction m = SAMPLE)) reduced_metrics) in
  match scalar_metrics with
  | [] => []
  | _ => [log_batch backend scalar_metrics global_step]
  end ++
  (if decide (size sample_metrics = 0%nat) then []
   else [log_samples backend sample_metrics global_step]).

Definition shutdown (self : t) : Eff unit :=
  if negb (_is_initialized self) then
    emit (logger_debug "Collector not initialized. Skipping shutdown")
  else
    for_each (λ backend, emit (finish backend))
      (per_rank_reduce_backends self ++ per_rank_no_reduce_backends self).

End MetricCollector.

(** ** Call sequences

    The objects the properties below quantify over are those a program can
    build: an accumulator after some [append] and [reset] calls, a filter after
    some [filter_append] calls, a collector after some [push] and [flush]
    calls. *)

Inductive AccCall :=
| Append (value : PyValue)
| Reset.

Definition acc_call (acc : MetricAccumulator.t) (c : AccCall) : Res MetricAccumulator.t :=
  match c with
  | Append value => MetricAccumulator.append acc value
  | Reset => Ok (MetricAccumulator.reset acc)
  end.

Fixpoint acc_calls (acc : MetricAccumulator.t) (cs : list AccCall)
    : Res MetricAccumulator.t :=
  match cs with
  | [] => Ok acc
  | c :: cs => acc ← acc_call acc c; acc_calls acc cs
  end.

(** A fresh accumulator of class [cls] fed the numbers [values] in order. *)
Definition accumulate (cls : Reduce) (values : list float) : Res MetricAccumulator.t :=
  acc_calls (accumulator_class cls cls) (Append ∘ VNum <$> values).

Fixpoint filter_append_all (self : TopBottomKFilter.t) (samples : list Sample)
    : Res TopBottomKFilter.t :=
  match samples with
  | [] => Ok self
  | sample :: samples =>
    fb ← TopBottomKFilter.filter_append self sample;
    filter_append_all fb.1 samples
  end.

Inductive CollectorCall :=
| Push (metric : PyObject)
| Flush (now : float) (global_step : Z) (return_state : bool).

Definition collector_call (self : MetricCollector.t) (c : CollectorCall)
    : Eff MetricCollector.t :=
  match c with
  | Push metric => MetricCollector.push self metric
  | Flush now global_step return_state =>
    r ← MetricCollector.flush now self global_step return_state; mret r.2
  end.

Fixpoint collector_calls (self : MetricCollector.t) (cs : list CollectorCall)
    : Eff MetricCollector.t :=
  match cs with
  | [] => mret self
  | c :: cs => self ← collector_call self c; collector_calls self cs
  end.

(** An accumulator holds no data when it is as [reset] leaves it. *)
Definition holds_no_data (acc : MetricAccumulator.t) : Prop :=
  MetricAccumulator.reset acc = acc.

(** The dict shape of a state names the class that produced it; a state is
    well formed when its ["reduction_type"] entry is the value of that class's
    kind, as in every state [get_state] builds for an accumulator made by
    [accumulator_class]. *)
Definition state_class (s : AccState) : Reduce :=
  match s with
  | MeanState _ _ _ => MEAN
  | SumState _ _ => SUM
  | MaxState _ _ => MAX
  | MinState _ _ => MIN
  | StdState _ _ _ _ => STD
  | SampleState _ _ => SAMPLE
  end.

Definition well_formed (s : AccState) : Prop :=
  state_reduction_type s = Reduce_value (state_class s).

(** The sample [{"reward": v}]. *)
Definition reward_sample (v : float) : Sample := {[ "reward" := FNum v ]}.

(** The running sums of an accumulator start at [+0.0] and only change by
    additions; the invariant that none of them is [-0.0]. *)
Definition sums_not_neg_zero (acc : MetricAccumulator.t) : Prop :=
  match acc with
  | MetricAccumulator.Mean a => MeanAccumulator.sum a ≠ neg_zero
  | MetricAccumulator.Sum a => SumAccumulator.total a ≠ neg_zero
  | MetricAccumulator.Std a =>
    StdAccumulator.sum a ≠ neg_zero ∧ StdAccumulator.sum_sq a ≠ neg_zero
  | _ => True
  end.

(** A sample whose ranking field, when present, is a number. *)
Definition numeric_rank (key : string) (sample : Sample) : Prop :=
  ∃ v, default (FNum 0) (sample !! key) = FNum v.

(** The entries [filter_append] builds for the samples of a list: the sample
    at position [i] enters the top heap as [(val, i, sample)] and the bottom
    heap as [(-val, i, sample)]. *)
Definition top_entry_of (key : string) (samples : list Sample)
    (e : TopBottomKFilter.entry) : Prop :=
  ∃ i sample v, samples !! i = Some sample ∧
    default (FNum 0) (sample !! key) = FNum v ∧ e = (FNum v, i, sample).

Definition bottom_entry_of (key : string) (samples : list Sample)
    (e : TopBottomKFilter.entry) : Prop :=
  ∃ i sample v, samples !! i = Some sample ∧
    default (FNum 0) (sample !! key) = FNum v ∧ e = (FNum (- v)%float, i, sample).

(** Each heap of a filter within its bound. *)
Definition within_bounds (f : TopBottomKFilter.t) : Prop :=
  (Z.of_nat (length (TopBottomKFilter._top_heap f)) ≤ Z.max 0 (TopBottomKFilter.top_k f))%Z ∧
  (Z.of_nat (length (TopBottomKFilter._bottom_heap f)) ≤ Z.max 0 (TopBottomKFilter.bottom_k f))%Z.

(** The filter of a sample accumulator keeps the bounds it was built with. *)
Definition sample_filter_inv (acc : MetricAccumulator.t) : Prop :=
  match acc with
  | MetricAccumulator.Sample a =>
    within_bounds (SampleAccumulator.filter a) ∧
    TopBottomKFilter.top_k (SampleAccumulator.filter a) = 1%Z ∧
    TopBottomKFilter.bottom_k (SampleAccumulator.filter a) = 1%Z
  | _ => False
  end.

(** The filter [TopBottomKFilter(top_k=2, bottom_k=1)] fed the samples
    [{"reward": v}] for [v] in [values]: whether the appends return with the
    sample of reward 1 in the bottom heap and those of rewards 7 and 9, in
    this order, in the top heap. *)
Definition reward_check (values : list float) : bool :=
  match filter_append_all (TopBottomKFilter.__init__ 2 1 "reward")
                          (reward_sample <$> values) with
  | Ok f =>
    bool_decide (snd <$> TopBottomKFilter._bottom_heap f = [reward_sample 1]) &&
    bool_decide (snd <$> TopBottomKFilter._top_heap f = [reward_sample 7; reward_sample 9])
  | Raise _ => false
  end.
(** * Definitions for the further properties *)

(** The heap invariant of [heapq] for a boolean order [ltb]: no item is below
    its parent, the item at index [(i - 1) / 2]. *)
Definition heap_ordered {A : Type} (ltb : A → A → bool) (heap : list A) : Prop :=
  ∀ i x p, (0 < i)%nat → heap !! i = Some x → heap !! ((i - 1) / 2)%nat = Some p →
    ltb x p = false.

(** What holds of the list while [_siftdown] carries [newitem] up from [pos]:
    the list is ordered except at [pos], and [newitem] or the parent of [pos]
    can be written at [pos] without breaking the order below it. *)
Definition down_inv {A : Type} (ltb : A → A → bool) (heap : list A) (pos : nat) (newitem : A) : Prop :=
  (∀ i x p, (0 < i)%nat → i ≠ pos → heap !! i = Some x →
     heap !! ((i - 1) / 2)%nat = Some p → ltb x p = false) ∧
  (∀ c x, (0 < c)%nat → ((c - 1) / 2)%nat = pos → heap !! c = Some x →
     ltb x newitem = false) ∧
  (∀ c x g, (0 < c)%nat → ((c - 1) / 2)%nat = pos → (0 < pos)%nat → heap !! c = Some x →
     heap !! ((pos - 1) / 2)%nat = Some g → ltb x g = false).

(** What holds of the list while [_siftup] moves the hole at [pos] down: the
    list is ordered except around [pos], and either child of [pos] can be
    written at [pos] without breaking the order above it. *)
Definition up_inv {A : Type} (ltb : A → A → bool) (heap : list A) (pos : nat) : Prop :=
  (∀ i x p, (0 < i)%nat → i ≠ pos → ((i - 1) / 2)%nat ≠ pos → heap !! i = Some x →
     heap !! ((i - 1) / 2)%nat = Some p → ltb x p = false) ∧
  (∀ c x g, (0 < c)%nat → ((c - 1) / 2)%nat = pos → (0 < pos)%nat → heap !! c = Some x →
     heap !! ((pos - 1) / 2)%nat = Some g → ltb x g = false).

(** [a < b] on heap entries as a boolean, [false] where the comparison
    raises. *)
Definition entry_ltb (a b : TopBottomKFilter.entry) : bool :=
  match TopBottomKFilter.entry_lt a b with
  | Ok b => b
  | Raise _ => false
  end.

(** One side of the filter after the items [seen] were offered to it with
    bound [k]: the heap and the items it dropped are the items seen, the heap
    is full or holds them all, and no item of the heap is below a dropped
    one. *)
Definition keeps_best {A : Type} (ltb : A → A → bool) (k : nat)
    (seen heap dropped : list A) : Prop :=
  heap ++ dropped ≡ₚ seen ∧
  length heap = min k (length seen) ∧
  Forall (λ d, Forall (λ h, ltb h d = false) heap) dropped.

(** A sample paired with its ranking value [sample.get(key, 0.0)], a number
    that is not NaN. *)
Definition ranked_by (key : string) (r : float * Sample) : Prop :=
  default (FNum 0) (r.2 !! key) = FNum r.1 ∧ not_nan r.1.

(** The entries a new filter builds for a list of ranked samples: the sample
    at position [i] is offered to the top heap as [(val, i, sample)] and to
    the bottom heap as [(-val, i, sample)]. *)
Definition top_entries (ranked : list (float * Sample)) : list TopBottomKFilter.entry :=
  imap (λ i r, (FNum r.1, i, r.2)) ranked.

Definition bottom_entries (ranked : list (float * Sample)) : list TopBottomKFilter.entry :=
  imap (λ i r, (FNum (- r.1)%float, i, r.2)) ranked.

(** Entries ranked by numbers, no two of them with the same [idx]. *)
Definition numbered (l : list TopBottomKFilter.entry) : Prop :=
  (∀ e, e ∈ l → ∃ v, e.1.1 = FNum v ∧ not_nan v) ∧
  (∀ e e', e ∈ l → e' ∈ l → e.1.2 = e'.1.2 → e = e').

(** The invariant of one side of a filter with bound [k] after the entries
    [seen]. *)
Definition side_inv (k : Z) (seen heap : list TopBottomKFilter.entry) : Prop :=
  heap_ordered entry_ltb heap ∧
  ∃ dropped, keeps_best entry_ltb (Z.to_nat k) seen heap dropped.

(** The entry the top heap is offered for the sample appended as number [idx],
    whatever its ranking value is, and the trace an entry of either heap
    keeps of the append that made it. *)
Definition top_entry (key : string) (idx : nat) (sample : Sample) : TopBottomKFilter.entry :=
  (default (FNum 0) (sample !! key), idx, sample).

Definition entry_origin (e : TopBottomKFilter.entry) : nat * Sample := (e.1.2, e.2).

(** The running sum of squares of [StdAccumulator.append]. *)
Definition add_square (q v : float) : float := (q + v * v)%float.

(** An accumulator as [push] builds and feeds it: its [reduction_type] is the
    kind its class is bound to, and its running sums are not [-0.0]. *)
Definition acc_inv (acc : MetricAccumulator.t) : Prop :=
  well_formed (MetricAccumulator.get_state acc) ∧ sums_not_neg_zero acc.

Definition collector_inv (self : MetricCollector.t) : Prop :=
  map_Forall (λ _ acc, acc_inv acc) (MetricCollector.accumulators self).

(** The metric that reduces the one accumulator [acc] kept under [key]:
    [Metric(key, acc.get_value(), reduction)] stamped [now]. *)
Definition local_metric (now : float) (key : string) (acc : MetricAccumulator.t)
    : Metric.t :=
  Metric.mk key (MetricAccumulator.get_value acc) (class_of acc) now.

(** The backends [init_backends] builds from a configuration: those of the
    entries whose ["logging_mode"] is [mode], and those of all the entries
    that are not reduced globally, in the order of the configuration. *)
Definition backends_of_mode (mode : string) (config : list (string * string))
    : list LoggerBackend :=
  (filter (λ e, e.2 = mode) config).*1.

Definition local_backends (config : list (string * string)) : list LoggerBackend :=
  (filter (λ e, e.2 ≠ "global_reduce") config).*1.

(** ** The per-rank singleton, [record_metric] and [record_episode_sample] *)

From Stdlib Require Import Ascii.
From stdpp Require Import pretty.

(** The class attribute [MetricCollector._instances]: a dict from ranks to
    instances. An instance carries [_singleton_rank] from [__new__] and gets
    the other attributes from the first run of [__init__]; [attributes] is
    [None] in between, when [hasattr(self, "_is_initialized")] is false.
    [rank] is what [current_rank().rank] reads at the call. An instance is
    stored under one key only, so the entry of the dict stands for the
    object, and a method that changes the object changes the entry. *)
Module Singleton.

Record Instance := mkInstance {
  _singleton_rank : Z;
  attributes : option MetricCollector.t
}.

(** [__new__] returns the instance stored for [rank]. *)
Definition __new__ (rank : Z) (_instances : gmap Z Instance)
    : Res (gmap Z Instance * Instance) :=
  match _instances !! rank with
  | None =>
    let inst := mkInstance rank None in
    Ok (<[rank := inst]> _instances, inst)
  | Some inst =>
    if decide (_singleton_rank inst ≠ rank)
    then Raise (ValueError ("Singleton expected rank " +:+ pretty (_singleton_rank inst)
                            +:+ ", but saw " +:+ pretty rank))
    else Ok (_instances, inst)
  end.

(** The instance [self] once a method has left it with the attributes
    [collector]. *)
Definition set_attributes (collector : MetricCollector.t) (self : Instance) : Instance :=
  mkInstance (_singleton_rank self) (Some collector).

(** The attributes of [self] after [__init__]. *)
Definition __init__ (rank : Z) (self : Instance) : MetricCollector.t :=
  match attributes self with
  | Some collector => collector
  | None => MetricCollector.__init__ rank
  end.

(** [MetricCollector()]: the dict after the call and the attributes of the
    instance returned, which is the one stored for [rank]. *)
Definition __call__ (rank : Z) (_instances : gmap Z Instance)
    : Res (gmap Z Instance * MetricCollector.t) :=
  ii ← __new__ rank _instances;
  let collector := __init__ rank ii.2 in
  Ok (<[rank := set_attributes collector ii.2]> ii.1, collector).

End Singleton.

(** [s.lower()] on the bytes of [s]: the letters [A] to [Z] are lowered and
    every other byte is kept. On text outside ASCII Python's [lower] does
    more, but no character outside ASCII is lowered to one of the letters of
    ["true"], so the test below reads the same. *)
Definition ascii_lower (c : ascii) : ascii :=
  let n := nat_of_ascii c in
  if (65 <=? n)%nat && (n <=? 90)%nat then ascii_of_nat (n + 32) else c.

Fixpoint lower (s : string) : string :=
  match s with
  | EmptyString => EmptyString
  | String c s => String (ascii_lower c) (lower s)
  end.

(** [record_metric(key, value, reduction)]. [FORGE_DISABLE_METRICS] is the
    value of the environment variable, if it is set; [now] is the clock
    reading stored by [Metric.__post_init__]. Returns [_instances] after the
    call. *)
Definition record_metric (FORGE_DISABLE_METRICS : option string) (rank : Z) (now : float)
    (_instances : gmap Z Singleton.Instance)
    (key : string) (value : PyValue) (reduction : Reduce)
    : Eff (gmap Z Singleton.Instance) :=
  if String.eqb (lower (default "false" FORGE_DISABLE_METRICS)) "true" then mret _instances
  else
    let metric := Metric.mk key value reduction now in
    ic ← lift (Singleton.__call__ rank _instances);
    collector ← MetricCollector.push ic.2 (IsMetric metric);
    mret (alter (Singleton.set_attributes collector) rank ic.1).

(** The attributes of an episode that [record_episode_sample] reads, each a
    number or a text; [target] is [str(episode.target)]. *)
Module Episode.
Record t := mk {
  episode_id : Field;
  policy_version : Field;
  request : Field;
  response : Field;
  target : string;
  reward_breakdown : option Sample;
  advantage : Field;
  request_len : Field;
  response_len : Field;
  pad_id : Field
}.
End Episode.

(** [{**d, **other}]: the entries of [other] replace those of [d]. *)
Definition dict_update (d other : Sample) : Sample := other ∪ d.

(** The dict display of [record_episode_sample], entry after entry. *)
Definition episode_sample (episode : Episode.t) : Sample :=
  let sample : Sample := ∅ in
  let sample := <["episode_id" := Episode.episode_id episode]> sample in
  let sample := <["policy_version" := Episode.policy_version episode]> sample in
  let sample := <["prompt" := Episode.request episode]> sample in
  let sample := <["response" := Episode.response episode]> sample in
  let sample := <["target" := FText (Episode.target episode)]> sample in
  let sample := dict_update sample (default ∅ (Episode.reward_breakdown episode)) in
  let sample := <["advantage" := Episode.advantage episode]> sample in
  let sample := <["request_len" := Episode.request_len episode]> sample in
  let sample := <["response_len" := Episode.response_len episode]> sample in
  let sample := <["pad_id" := Episode.pad_id episode]> sample in
  sample.

Definition record_episode_sample (FORGE_DISABLE_METRICS : option string) (rank : Z)
    (now : float) (_instances : gmap Z Singleton.Instance)
    (table_name : string) (episode : Episode.t)
    : Eff (gmap Z Singleton.Instance) :=
  let sample := episode_sample episode in
  record_metric FORGE_DISABLE_METRICS rank now _instances table_name (VDict sample) SAMPLE.

(** A value that reads ["true"] whatever the case of its letters. *)
Definition spelled_true (v : string) : Prop :=
  match v with
  | String c1 (String c2 (String c3 (String c4 EmptyString))) =>
    (c1 = "t" ∨ c1 = "T")%char ∧ (c2 = "r" ∨ c2 = "R")%char ∧
    (c3 = "u" ∨ c3 = "U")%char ∧ (c4 = "e" ∨ c4 = "E")%char
  | _ => False
  end.

(** The invariant of [_instances]: an instance is stored under its own
    [_singleton_rank], and [__init__] has run on it. *)
Definition registry_inv (_instances : gmap Z Singleton.Instance) : Prop :=
  ∀ rank inst, _instances !! rank = Some inst →
    Singleton._singleton_rank inst = rank ∧ is_Some (Singleton.attributes inst).

(** The collector a call of [MetricCollector()] returns for [rank]: the one
    stored, or a new one. *)
Definition collector_of (_instances : gmap Z Singleton.Instance) (rank : Z)
    : MetricCollector.t :=
  default (MetricCollector.__init__ rank) (_instances !! rank ≫= Singleton.attributes).

(** ** class WandbBackend

    The constructor, [init] with its four ways to start a run,
    [get_metadata_for_secondary_ranks], [log_batch] and [log_stream]. The
    tables of [log_samples], which [finish] converts, are not part of the
    embedding. *)

(** A value of a backend configuration: a text or a boolean. *)
Inductive ConfigValue :=
| CText (s : string)
| CBool (b : bool).

(** The truth value of a configuration value in an [if]. *)
Definition truthy (v : ConfigValue) : bool :=
  match v with
  | CText s => negb (String.eqb s "")
  | CBool b => b
  end.

(** [LoggingMode(v)] *)
Definition LoggingMode_of_config (v : ConfigValue) : Res LoggingMode :=
  match v with
  | CText s => LoggingMode_of_value s
  | CBool b =>
    Raise (ValueError ((if b then "True" else "False") +:+ " is not a valid LoggingMode"))
  end.

(** The run object [wandb.init] returns, known by its [id]; a run object is
    true in an [if]. *)
Module WandbRun.
Record t := mk { id : string }.
End WandbRun.

(** [wandb.Settings(mode=..., x_primary=..., x_label=...)] *)
Module Settings.
Record t := mk { mode : string; x_primary : bool; x_label : option string }.
End Settings.

(** A value of the dict handed to [run.log]. *)
Inductive LogValue :=
| LInt (n : Z)
| LFloat (f : float)
| LValue (v : PyValue).

(** The calls a backend makes: into wandb, and to the logger of the module
    (with the values its message is built from). *)
Inductive WandbCall :=
| wandb_init (id : option string) (project group : ConfigValue) (name : option string)
    (settings : option Settings.t)
| clear_service_in_env
| run_log (run : WandbRun.t) (data : gmap string LogValue)
| warning_skipped_init (role : string)
| debug_no_run (name : option string)
| info_logged (metrics : nat) (global_step : Z).

(** The calls made, then the result. *)
Record WandbEff (A : Type) : Type := mkWandbEff { calls : list WandbCall; returned : Res A }.
Arguments mkWandbEff {A} calls returned.
Arguments calls {A} w.
Arguments returned {A} w.

Module WandbBackend.

Record t := mk {
  project : ConfigValue;
  group : ConfigValue;
  name : option string;
  run : option WandbRun.t;
  logging_mode : LoggingMode;
  per_rank_share_run : ConfigValue
}.

Definition __init__ (logger_backend_config : gmap string ConfigValue) : Res t :=
  match logger_backend_config !! "project" with
  | None => Raise (KeyError "project")
  | Some project =>
    let group := default (CText "experiment_group") (logger_backend_config !! "group") in
    match logger_backend_config !! "logging_mode" with
    | None => Raise (KeyError "logging_mode")
    | Some mode =>
      logging_mode ← LoggingMode_of_config mode;
      Ok (mk project group None None logging_mode
             (default (CBool false) (logger_backend_config !! "per_rank_share_run")))
    end
  end.

(** [self] after [self.run = run]. *)
Definition set_run (self : t) (new_run : WandbRun.t) : t :=
  mk (project self) (group self) (name self) (Some new_run) (logging_mode self)
     (per_rank_share_run self).

(** In the four functions below [new_run] is the run that [wandb.init]
    returns. *)
Definition _init_global (new_run : WandbRun.t) (self : t) : WandbEff t :=
  mkWandbEff [wandb_init None (project self) (group self) None None]
             (Ok (set_run self new_run)).

Definition _init_per_rank (new_run : WandbRun.t) (self : t) : WandbEff t :=
  mkWandbEff [wandb_init None (project self) (group self) (name self) None]
             (Ok (set_run self new_run)).

Definition _init_shared_global (new_run : WandbRun.t) (self : t) : WandbEff t :=
  let settings := Settings.mk "shared" true (Some "controller_primary") in
  mkWandbEff [wandb_init None (project self) (group self) None (Some settings)]
             (Ok (set_run self new_run)).

Definition _init_shared_local (new_run : WandbRun.t) (self : t)
    (primary_metadata : gmap string string) : WandbEff t :=
  match primary_metadata !! "shared_run_id" with
  | None =>
    mkWandbEff []
      (Raise (ValueError ("Shared ID required but not provided for "
                          +:+ default "None" (name self) +:+ " backend init")))
  | Some shared_id =>
    let settings := Settings.mk "shared" false (name self) in
    mkWandbEff [clear_service_in_env;
                wandb_init (Some shared_id) (project self) (group self) None (Some settings)]
               (Ok (set_run self new_run))
  end.

(** [init(role, primary_logger_metadata, process_name)]; [actor_name] is what
    [get_actor_name_with_rank(process_name)] returns. *)
Definition init (new_run : WandbRun.t) (actor_name : string) (self : t) (role : string)
    (primary_logger_metadata : option (gmap string string)) : WandbEff t :=
  let primary_logger_metadata := default ∅ primary_logger_metadata in
  if negb (bool_decide (role ∈ ["global"; "local"])) then
    mkWandbEff []
      (Raise (ValueError ("Invalid role " +:+ role
                          +:+ " for WandbBackend init. Must be 'global' or 'local'.")))
  else
    let self := mk (project self) (group self)
                   (Some (if String.eqb role "local" then actor_name else "Controller"))
                   (run self) (logging_mode self) (per_rank_share_run self) in
    if decide (logging_mode self = GLOBAL_REDUCE) then
      if negb (String.eqb role "global")
      then mkWandbEff [warning_skipped_init role] (Ok self)
      else _init_global new_run self
    else if String.eqb role "global" && truthy (per_rank_share_run self) then
      _init_shared_global new_run self
    else if String.eqb role "local" then
      if truthy (per_rank_share_run self)
      then _init_shared_local new_run self primary_logger_metadata
      else _init_per_rank new_run self
    else mkWandbEff [] (Ok self).

Definition log_batch (self : t) (metrics : list Metric.t) (global_step : Z) : WandbEff unit :=
  match run self with
  | None => mkWandbEff [debug_no_run (name self)] (Ok ())
  | Some run =>
    let log_data : gmap string LogValue := {[ "step" := LInt global_step ]} in
    let log_data :=
      fold_left (λ log_data metric,
                   <[Metric.key metric := LValue (Metric.value metric)]> log_data)
                metrics log_data in
    mkWandbEff [run_log run log_data; info_logged (length metrics) global_step] (Ok ())
  end.

Definition log_stream (self : t) (metric : Metric.t) (global_step : Z) : WandbEff unit :=
  match run self with
  | None => mkWandbEff [] (Ok ())
  | Some run =>
    let log_data : gmap string LogValue := ∅ in
    let log_data := <[Metric.key metric := LValue (Metric.value metric)]> log_data in
    let log_data := <["global_step" := LInt global_step]> log_data in
    let log_data := <["_timestamp" := LFloat (Metric.timestamp metric)]> log_data in
    mkWandbEff [run_log run log_data] (Ok ())
  end.

Definition get_metadata_for_secondary_ranks (self : t) : gmap string string :=
  match run self with
  | Some run =>
    if truthy (per_rank_share_run self) then {[ "shared_run_id" := WandbRun.id run ]} else ∅
  | None => ∅
  end.

End WandbBackend.

(** Whether a call reaches wandb. *)
Definition reaches_wandb (c : WandbCall) : Prop :=
  match c with
  | wandb_init _ _ _ _ _ | clear_service_in_env | run_log _ _ => True
  | _ => False
  end.

(** * Properties *)

(** ** Runs of the embedding

    Values obtained from CPython for the same calls. *)

Example reduce_metrics_states_docstring :
  reduce_metrics_states 0
    [ {[ "loss" := MeanState "mean" 14 5;
         "reward/sample" := SampleState "sample" [ {[ "episode_id" := FNum 1; "reward" := FNum 0.5 ]} ] ]};
      {[ "loss" := MeanState "mean" 16 10;
         "reward/sample" := SampleState "sample" [ {[ "episode_id" := FNum 2; "reward" := FNum 1 ]} ] ]} ]
  = Ok [ Metric.mk "reward/sample"
           (VList [ {[ "episode_id" := FNum 1; "reward" := FNum 0.5 ]};
                    {[ "episode_id" := FNum 2; "reward" := FNum 1 ]} ]) SAMPLE 0;
         Metric.mk "loss" (VNum 2) MEAN 0 ].
Proof. vm_compute. reflexivity. Qed.

Example std_of_1_2_3 :
  MetricAccumulator.get_value <$> accumulate STD [1; 2; 3]%float
  = Ok (VNum 0x1.a20bd700c2c40p-1).
Proof. vm_compute. reflexivity. Qed.

Example mean_of_tenths :
  MetricAccumulator.get_value <$> accumulate MEAN [0.1; 0.2; 0.4; 0.7]%float
  = Ok (VNum 0.35).
Proof. vm_compute. reflexivity. Qed.

Example max_ignores_nan :
  MetricAccumulator.get_value <$> accumulate MAX [2; nan; 1]%float = Ok (VNum 2).
Proof. vm_compute. reflexivity. Qed.

Example filter_3_3 :
  (λ f, TopBottomKFilter.filter_flush f []) <$>
    filter_append_all (TopBottomKFilter.__init__ 3 3 "reward")
      (reward_sample <$> [5; 1; 9; 3; 7; 2; 8; 6; 4]%float)
  = Ok (reward_sample <$> [3; 1; 2; 7; 8; 9]%float).
Proof. vm_compute. reflexivity. Qed.

Example filter_text_rank_raises :
  filter_append_all (TopBottomKFilter.__init__ 1 1 "reward") [ {[ "reward" := FText "high" ]} ]
  = Raise (TypeError "bad operand type for unary -: 'str'").
Proof. vm_compute. reflexivity. Qed.

(** ** Binary64 facts

    Derived from the specification of the primitive operations
    ([FloatAxioms], [SpecFloat]). *)

Section Rounding.
#[local] Open Scope Z_scope.

Lemma digits2_pos_lower (p : positive) :
  2 ^ (Z.pos (digits2_pos p) - 1) <= Z.pos p.
Proof.
  induction p as [p IH|p IH|]; cbn [digits2_pos].
  - rewrite Pos2Z.inj_succ.
    replace (Z.succ (Z.pos (digits2_pos p)) - 1) with (Z.succ (Z.pos (digits2_pos p) - 1)) by lia.
    rewrite Z.pow_succ_r by lia. lia.
  - rewrite Pos2Z.inj_succ.
    replace (Z.succ (Z.pos (digits2_pos p)) - 1) with (Z.succ (Z.pos (digits2_pos p) - 1)) by lia.
    rewrite Z.pow_succ_r by lia. lia.
  - cbn. lia.
Qed.

Lemma shr_1_m (mrs : shr_record) :
  0 <= shr_m mrs -> shr_m (shr_1 mrs) = shr_m mrs / 2.
Proof.
  destruct mrs as [m r s]. cbn [shr_m]. intros Hm.
  destruct m as [|[p|p|]|p]; cbn [shr_1 shr_m]; try lia.
  - reflexivity.
  - apply Z.div_unique with 1; lia.
  - apply Z.div_unique with 0; lia.
  - reflexivity.
Qed.

Lemma iter_pos_shr_1_m (n : positive) (mrs : shr_record) :
  0 <= shr_m mrs ->
  shr_m (SpecFloat.iter_pos shr_1 n mrs) = shr_m mrs / 2 ^ Z.pos n.
Proof.
  revert mrs. induction n as [n IH|n IH|]; intros mrs Hm; cbn [SpecFloat.iter_pos].
  - assert (H1 : 0 <= shr_m (shr_1 mrs)) by (rewrite shr_1_m by done; apply Z.div_pos; lia).
    assert (H2 : 0 <= shr_m (SpecFloat.iter_pos shr_1 n (shr_1 mrs)))
      by (rewrite IH by done; apply Z.div_pos; lia).
    rewrite IH by done. rewrite IH by done. rewrite shr_1_m by done.
    rewrite !Z.div_div by lia.
    f_equal.
    replace (Z.pos n~1) with (1 + Z.pos n + Z.pos n) by lia.
    rewrite !Z.pow_add_r by lia. lia.
  - assert (H2 : 0 <= shr_m (SpecFloat.iter_pos shr_1 n mrs))
      by (rewrite IH by done; apply Z.div_pos; lia).
    rewrite IH by done. rewrite IH by done.
    rewrite !Z.div_div by lia.
    f_equal.
    replace (Z.pos n~0) with (Z.pos n + Z.pos n) by lia.
    rewrite !Z.pow_add_r by lia. lia.
  - rewrite shr_1_m by done. reflexivity.
Qed.

(** Shifting a positive mantissa to its canonical exponent keeps it positive
    when the exponent is at least [emin]: fewer bits are dropped than the
    mantissa has. *)
Lemma shr_fexp_pos (p : positive) (e : Z) (l : location) :
  emin <= e ->
  0 < shr_m (fst (shr_fexp prec emax (Z.pos p) e l)) /\
  emin <= snd (shr_fexp prec emax (Z.pos p) e l).
Proof.
  intros He. unfold shr_fexp, shr, fexp. cbn [Zdigits2].
  assert (Hm : shr_m (shr_record_of_loc (Z.pos p) l) = Z.pos p)
    by (destruct l as [|[]]; reflexivity).
  destruct (Z.max (Z.pos (digits2_pos p) + e - prec) emin - e) as [|n|n] eqn:Hn;
    cbn [fst snd]; rewrite ?Hm; try lia.
  split; [|lia].
  rewrite iter_pos_shr_1_m by lia. rewrite Hm.
  pose proof (digits2_pos_lower p) as Hd.
  assert (Hle : Z.pos n <= Z.pos (digits2_pos p) - 1) by (unfold prec in *; lia).
  assert (2 ^ Z.pos n <= 2 ^ (Z.pos (digits2_pos p) - 1)) by (apply Z.pow_le_mono_r; lia).
  apply Z.div_str_pos. lia.
Qed.

Lemma round_nearest_even_pos (m : Z) (l : location) :
  0 < m -> 0 < round_nearest_even m l.
Proof. destruct l as [|[]]; cbn; try lia. destruct (Z.even m); lia. Qed.

Lemma binary_round_aux_nonzero (sx : bool) (p : positive) (e : Z) (l : location) (s : bool) :
  emin <= e ->
  binary_round_aux prec emax sx (Z.pos p) e l <> S754_zero s.
Proof.
  intros He. unfold binary_round_aux.
  destruct (shr_fexp_pos p e l He) as [H1 H2].
  destruct (shr_fexp prec emax (Z.pos p) e l) as [mrs' e']. cbn [fst snd] in H1, H2.
  pose proof (round_nearest_even_pos _ (loc_of_shr_record mrs') H1) as H3.
  destruct (round_nearest_even (shr_m mrs') (loc_of_shr_record mrs')) as [|q|q]; try lia.
  destruct (shr_fexp_pos q e' loc_Exact H2) as [H4 H5].
  destruct (shr_fexp prec emax (Z.pos q) e' loc_Exact) as [mrs'' e'']. cbn [fst snd] in H4, H5.
  destruct (shr_m mrs''); try lia.
  destruct (_ <=? _); discriminate.
Qed.

(** Rounding a non-zero integer multiple of [2^e], [e >= emin], never gives a
    zero: there is no underflow to zero in an addition. *)
Lemma binary_round_nonzero (sx : bool) (p : positive) (e : Z) (s : bool) :
  emin <= e ->
  binary_round prec emax sx p e <> S754_zero s.
Proof.
  intros He. unfold binary_round, shl_align.
  destruct (fexp prec emax (Z.pos (digits2_pos p) + e) - e) eqn:Hd;
    apply binary_round_aux_nonzero; try done.
  unfold fexp in *. lia.
Qed.

Lemma valid_finite_emin (s : bool) (m : positive) (e : Z) :
  valid_binary (S754_finite s m e) = true -> emin <= e.
Proof.
  cbn [SpecFloat.valid_binary]. unfold bounded, canonical_mantissa, fexp.
  intros [H1 _]%andb_prop. apply Z.eqb_eq in H1. lia.
Qed.

Lemma SFadd_neg_zero (x y : spec_float) :
  valid_binary x = true -> valid_binary y = true ->
  SF64add x y = S754_zero true -> x = S754_zero true.
Proof.
  intros Hx Hy. unfold SF64add, SFadd.
  destruct x as [[]|[]| |sx mx ex], y as [[]|[]| |sy my ey]; try discriminate; try done.
  apply valid_finite_emin in Hx, Hy.
  unfold binary_normalize.
  destruct (_ + _) as [|p|p]; [discriminate| |]; intros H; exfalso; revert H;
    apply binary_round_nonzero; lia.
Qed.

Lemma SFadd_zero_l (y : spec_float) :
  y <> S754_zero true -> SF64add (S754_zero false) y = y.
Proof. destruct y as [[]|[]| |sy my ey]; done. Qed.

End Rounding.

(** A sum is [-0.0] only if its first operand is. *)
Lemma add_neg_zero (x y : float) : (x + y)%float = neg_zero → x = neg_zero.
Proof.
  intros H. apply Prim2SF_inj. change (Prim2SF neg_zero) with (S754_zero true).
  apply (SFadd_neg_zero _ (Prim2SF y)); try apply Prim2SF_valid.
  rewrite <- add_spec, H. reflexivity.
Qed.

(** [0 + x] is [x] itself, except for [x = -0.0] (where it is [+0.0]). *)
Lemma add_zero_l (x : float) : x ≠ neg_zero → (0 + x)%float = x.
Proof.
  intros H. apply Prim2SF_inj. rewrite add_spec.
  change (Prim2SF 0) with (S754_zero false). apply SFadd_zero_l.
  intros E. apply H. apply Prim2SF_inj. by rewrite E.
Qed.

(** The order [<] on floats: transitive, and negatively transitive through a
    number (not through NaN, which is below and above nothing). *)
Ltac cmp_cases :=
  repeat match goal with
  | H : context [Pos.compare_cont Eq ?a ?b] |- _ =>
      change (Pos.compare_cont Eq a b) with (Pos.compare a b) in H
  | |- context [Pos.compare_cont Eq ?a ?b] =>
      change (Pos.compare_cont Eq a b) with (Pos.compare a b)
  end;
  repeat match goal with
  | H : context [Z.compare ?a ?b] |- _ => destruct (Z.compare_spec a b); cbn in H
  | |- context [Z.compare ?a ?b] => destruct (Z.compare_spec a b); cbn
  | H : context [Pos.compare ?a ?b] |- _ => destruct (Pos.compare_spec a b); cbn in H
  | |- context [Pos.compare ?a ?b] => destruct (Pos.compare_spec a b); cbn
  end; try done; try lia.

Lemma SFltb_trans (x y z : spec_float) :
  SFltb x y = true → SFltb y z = true → SFltb x z = true.
Proof.
  unfold SFltb, SFcompare.
  destruct x as [[]|[]| |[] m1 e1], y as [[]|[]| |[] m2 e2], z as [[]|[]| |[] m3 e3];
    try done; cmp_cases.
Qed.

Lemma SFltb_negtrans (x y z : spec_float) :
  y ≠ S754_nan →
  SFltb x y = false → SFltb y z = false → SFltb x z = false.
Proof.
  unfold SFltb, SFcompare.
  destruct x as [[]|[]| |[] m1 e1], y as [[]|[]| |[] m2 e2], z as [[]|[]| |[] m3 e3];
    try done; cmp_cases.
Qed.

Lemma ltb_trans (x y z : float) :
  (x <? y)%float = true → (y <? z)%float = true → (x <? z)%float = true.
Proof. rewrite !ltb_spec. apply SFltb_trans. Qed.

Lemma ltb_negtrans (x y z : float) :
  Prim2SF y ≠ S754_nan →
  (x <? y)%float = false → (y <? z)%float = false → (x <? z)%float = false.
Proof. rewrite !ltb_spec. apply SFltb_negtrans. Qed.



Lemma ltb_nan_r (x y : float) : (x <? y)%float = true → Prim2SF y ≠ S754_nan.
Proof.
  rewrite ltb_spec. intros H E. rewrite E in H.
  by destruct (Prim2SF x) as [[]|[]| |[] m e].
Qed.

Lemma ltb_nan_l (x y : float) : (x <? y)%float = true → Prim2SF x ≠ S754_nan.
Proof. rewrite ltb_spec. intros H E. by rewrite E in H. Qed.

(** ** The builtins [max], [min] and [sum] *)

Lemma not_nan_neg_infinity : not_nan neg_infinity.
Proof. done. Qed.

Lemma not_nan_infinity : not_nan infinity.
Proof. done. Qed.

Lemma py_max_not_nan (a v : float) : not_nan a → not_nan (py_max a v).
Proof.
  unfold py_max. intros Ha. destruct (a <? v)%float eqn:E; [|done].
  by eapply ltb_nan_r.
Qed.

Lemma py_min_not_nan (a v : float) : not_nan a → not_nan (py_min a v).
Proof.
  unfold py_min. intros Ha. destruct (v <? a)%float eqn:E; [|done].
  by eapply ltb_nan_l.
Qed.



Lemma fold_py_max_not_nan (l : list float) (a : float) :
  not_nan a → not_nan (fold_left py_max l a).
Proof. revert a. induction l as [|v l IH]; intros a Ha; [done|]. apply IH, py_max_not_nan, Ha. Qed.

Lemma fold_py_min_not_nan (l : list float) (a : float) :
  not_nan a → not_nan (fold_left py_min l a).
Proof. revert a. induction l as [|v l IH]; intros a Ha; [done|]. apply IH, py_min_not_nan, Ha. Qed.










Lemma float_of_int_0 : float_of_int 0 = 0%float.
Proof. reflexivity. Qed.

(** [sum([x])] is [x] itself unless [x] is [-0.0]. *)
Lemma py_sum_singleton (x : float) : x ≠ neg_zero → py_sum [x] = x.
Proof. intros H. unfold py_sum. cbn [fold_left]. rewrite float_of_int_0. by apply add_zero_l. Qed.

(** ** Accumulators *)

Lemma zero_not_neg_zero : 0%float ≠ neg_zero.
Proof. intros H. apply (f_equal Prim2SF) in H. discriminate H. Qed.

Lemma accumulator_class_class_of (cls reduction : Reduce) :
  class_of (accumulator_class cls reduction) = cls.
Proof. by destruct cls. Qed.

Lemma accumulator_class_sums (cls reduction : Reduce) :
  sums_not_neg_zero (accumulator_class cls reduction).
Proof. destruct cls; cbn; auto using zero_not_neg_zero. Qed.

Lemma to_float_Ok (value : PyValue) (v : float) :
  to_float value = Ok v → value = VNum v.
Proof. destruct value; cbn; congruence. Qed.

Lemma acc_call_class_of (acc acc' : MetricAccumulator.t) (c : AccCall) :
  acc_call acc c = Ok acc' → class_of acc' = class_of acc.
Proof.
  destruct c as [value|]; cbn.
  - destruct acc as [a|a|a|a|a|a]; cbn;
      [unfold MeanAccumulator.append | unfold SumAccumulator.append
      | unfold MaxAccumulator.append | unfold MinAccumulator.append
      | unfold StdAccumulator.append | unfold SampleAccumulator.append ];
      try (destruct (to_float value); cbn; intros [= <-]; done).
    destruct value; cbn; try done.
    destruct (TopBottomKFilter.filter_append _ _); cbn; intros [= <-]; done.
  - intros [= <-]. by destruct acc.
Qed.

Lemma acc_call_sums (acc acc' : MetricAccumulator.t) (c : AccCall) :
  sums_not_neg_zero acc → acc_call acc c = Ok acc' → sums_not_neg_zero acc'.
Proof.
  intros Hinv. destruct c as [value|]; cbn.
  - destruct acc as [a|a|a|a|a|a]; cbn in *;
      [unfold MeanAccumulator.append | unfold SumAccumulator.append
      | unfold MaxAccumulator.append | unfold MinAccumulator.append
      | unfold StdAccumulator.append | unfold SampleAccumulator.append ];
      try (destruct (to_float value); cbn; intros [= <-]; cbn;
           try split; try done; intros E%add_neg_zero; tauto).
    destruct value; cbn; try done.
    destruct (TopBottomKFilter.filter_append _ _); cbn; intros [= <-]; done.
  - intros [= <-]. destruct acc; cbn; auto using zero_not_neg_zero.
Qed.

Lemma acc_calls_inv (acc acc' : MetricAccumulator.t) (cs : list AccCall) :
  sums_not_neg_zero acc → acc_calls acc cs = Ok acc' →
  sums_not_neg_zero acc' ∧ class_of acc' = class_of acc.
Proof.
  revert acc. induction cs as [|c cs IH]; intros acc Hinv; cbn.
  - by intros [= <-].
  - destruct (acc_call acc c) as [acc1|e] eqn:E; cbn; [|done].
    intros H. destruct (IH acc1 (acc_call_sums _ _ _ Hinv E) H) as [H1 H2].
    split; [done|]. rewrite H2. by eapply acc_call_class_of.
Qed.

(** Merging the one state of an accumulator whose sums are not [-0.0] gives
    its own value. *)
Lemma merge_own_state (acc : MetricAccumulator.t) :
  sums_not_neg_zero acc →
  get_reduced_value_from_states (class_of acc) [MetricAccumulator.get_state acc]
  = Ok (MetricAccumulator.get_value acc).
Proof.
  destruct acc as [a|a|a|a|a|a]; cbn -[py_sum]; intros Hinv.
  - unfold MeanAccumulator.get_reduced_value_from_states, MeanAccumulator.get_value.
    cbn -[py_sum]. rewrite py_sum_singleton by done. by rewrite Z.add_0_l.
  - unfold SumAccumulator.get_reduced_value_from_states, SumAccumulator.get_value.
    cbn -[py_sum]. by rewrite py_sum_singleton.
  - done.
  - done.
  - destruct Hinv as [H1 H2].
    unfold StdAccumulator.get_reduced_value_from_states, StdAccumulator.get_value.
    cbn -[py_sum]. rewrite !py_sum_singleton by done. by rewrite Z.add_0_l.
  - done.
Qed.

(** C3. For every accumulator class, and every accumulator of that class
    reached from its constructor by [append] (and [reset]) calls, the class's
    merge applied to the list holding only the accumulator's own state is the
    accumulator's own locally reduced value. *)
Theorem merge_of_one_is_identity (cls reduction : Reduce) (calls : list AccCall)
    (acc : MetricAccumulator.t) :
  acc_calls (accumulator_class cls reduction) calls = Ok acc →
  get_reduced_value_from_states cls [MetricAccumulator.get_state acc]
  = Ok (MetricAccumulator.get_value acc).
Proof.
  intros H.
  destruct (acc_calls_inv _ _ _ (accumulator_class_sums cls reduction) H) as [Hinv Hcls].
  rewrite accumulator_class_class_of in Hcls. rewrite <- Hcls.
  by apply merge_own_state.
Qed.

Lemma merge_of_one_is_identity_witness :
  get_reduced_value_from_states STD
    [MetricAccumulator.get_state (MetricAccumulator.Std (StdAccumulator.mk STD 6 14 3))]
  = Ok (MetricAccumulator.get_value (MetricAccumulator.Std (StdAccumulator.mk STD 6 14 3))).
Proof.
  apply (merge_of_one_is_identity STD STD
           [Append (VNum 1); Append (VNum 2); Append (VNum 3)]).
  vm_compute. reflexivity.
Defined.

(** What [accumulate] builds, class by class. *)
Lemma accumulate_max_from (r : Reduce) (m : float) (values : list float) :
  acc_calls (MetricAccumulator.Max (MaxAccumulator.mk r m)) (Append ∘ VNum <$> values)
  = Ok (MetricAccumulator.Max (MaxAccumulator.mk r (fold_left py_max values m))).
Proof. revert m. induction values as [|v values IH]; intros m; [done|]. cbn. apply IH. Qed.

Lemma accumulate_min_from (r : Reduce) (m : float) (values : list float) :
  acc_calls (MetricAccumulator.Min (MinAccumulator.mk r m)) (Append ∘ VNum <$> values)
  = Ok (MetricAccumulator.Min (MinAccumulator.mk r (fold_left py_min values m))).
Proof. revert m. induction values as [|v values IH]; intros m; [done|]. cbn. apply IH. Qed.

Lemma accumulate_mean_from (r : Reduce) (s : float) (n : Z) (values : list float) :
  acc_calls (MetricAccumulator.Mean (MeanAccumulator.mk r s n)) (Append ∘ VNum <$> values)
  = Ok (MetricAccumulator.Mean
          (MeanAccumulator.mk r (fold_left add values s) (n + Z.of_nat (length values)))).
Proof.
  revert s n. induction values as [|v values IH]; intros s n.
  - cbn. by rewrite Z.add_0_r.
  - cbn [fmap list_fmap acc_calls]. cbn -[Z.of_nat Z.add]. rewrite IH.
    do 3 f_equal. lia.
Qed.














(** ** reduce_metrics_states *)

Lemma String_eqb_false (a b : string) : String.eqb a b = false ↔ a ≠ b.
Proof. destruct (String.eqb_spec a b); split; congruence. Qed.

(** The consistency loop either finds every state equal to the first or
    raises the mismatch error naming one that differs. *)
Lemma check_consistency_cases (key first : string) (ms : list AccState) :
  (check_consistency key first ms = Ok () ∧
   Forall (λ s, state_reduction_type s = first) ms) ∨
  (∃ other, other ≠ first ∧
     check_consistency key first ms = Raise (ValueError (mismatch_message key first other))).
Proof.
  induction ms as [|s ms IH]; cbn; [by left|].
  destruct (String.eqb_spec (state_reduction_type s) first) as [E|E]; cbn.
  - destruct IH as [[-> H]|(other & H1 & ->)]; [left|right; eauto].
    split; [done|]. by constructor.
  - right. eauto.
Qed.

Lemma check_consistency_mismatch (key first : string) (ms : list AccState) (s : AccState) :
  s ∈ ms → state_reduction_type s ≠ first →
  ∃ other, other ≠ first ∧
    check_consistency key first ms = Raise (ValueError (mismatch_message key first other)).
Proof.
  intros Hin Hne.
  destruct (check_consistency_cases key first ms) as [[_ H]|H]; [|done].
  rewrite Forall_forall in H. by destruct Hne; apply H.
Qed.

Lemma metric_states_of_elem (key : string) (states : list (gmap string AccState))
    (s : gmap string AccState) (a : AccState) :
  s ∈ states → s !! key = Some a → a ∈ metric_states_of key states.
Proof. intros H1 H2. apply list_elem_of_omap. eauto. Qed.

(** A key that carries two reduction types makes the loop body raise the
    mismatch error. *)
Lemma reduce_key_mismatch (now : float) (states : list (gmap string AccState))
    (key : string) (s1 s2 : gmap string AccState) (a b : AccState) :
  s1 ∈ states → s2 ∈ states → s1 !! key = Some a → s2 !! key = Some b →
  state_reduction_type a ≠ state_reduction_type b →
  ∃ t1 t2, t1 ≠ t2 ∧
    reduce_key now states key = Raise (ValueError (mismatch_message key t1 t2)).
Proof.
  intros H1 H2 Ha Hb Hne. unfold reduce_key.
  pose proof (metric_states_of_elem _ _ _ _ H1 Ha) as Ia.
  pose proof (metric_states_of_elem _ _ _ _ H2 Hb) as Ib.
  destruct (metric_states_of key states) as [|first ms] eqn:E; [by apply elem_of_nil in Ia|].
  assert (∃ s, s ∈ first :: ms ∧ state_reduction_type s ≠ state_reduction_type first)
    as (s & Hs & Hd).
  { destruct (decide (state_reduction_type a = state_reduction_type first)) as [Ea|Ea].
    - exists b. split; [done|]. congruence.
    - by exists a. }
  destruct (check_consistency_mismatch key _ _ s Hs Hd) as (other & Ho & ->).
  exists (state_reduction_type first), other. split; [congruence|done].
Qed.

Lemma Reduce_of_value_value (r : Reduce) : Reduce_of_value (Reduce_value r) = Ok r.
Proof. by destruct r. Qed.

Lemma Reduce_value_inj (r1 r2 : Reduce) : Reduce_value r1 = Reduce_value r2 → r1 = r2.
Proof. destruct r1, r2; cbn; congruence. Qed.

Lemma res_map_total {A B : Type} (f : A → Res B) (l : list A) :
  Forall (λ x, ∃ y, f x = Ok y) l → ∃ ys, res_map f l = Ok ys ∧ length ys = length l.
Proof.
  induction 1 as [|x l [y Hy] _ (ys & IH & Hl)]; [by exists []|].
  exists (y :: ys). cbn. rewrite Hy, IH. cbn. by rewrite Hl.
Qed.

(** States of one class, at least one of them, always merge. *)
Lemma get_reduced_value_from_states_total (cls : Reduce) (ms : list AccState) :
  ms ≠ [] → Forall (λ s, state_class s = cls) ms →
  ∃ v, get_reduced_value_from_states cls ms = Ok v.
Proof.
  intros Hne Hall.
  assert (∀ (B : Type) (f : AccState → Res B),
            (∀ s, state_class s = cls → ∃ y, f s = Ok y) →
            ∃ ys, res_map f ms = Ok ys ∧ length ys = length ms) as Hmap.
  { intros B f Hf. apply res_map_total. eapply Forall_impl; [exact Hall|]. exact Hf. }
  destruct cls; cbn.
  - unfold MeanAccumulator.get_reduced_value_from_states.
    destruct (Hmap _ state_sum) as (? & -> & _); [by intros [] [=]; eauto|].
    destruct (Hmap _ state_count) as (? & -> & _); [by intros [] [=]; eauto|].
    cbn. eauto.
  - unfold SumAccumulator.get_reduced_value_from_states.
    destruct (Hmap _ state_total) as (? & -> & _); [by intros [] [=]; eauto|].
    cbn. eauto.
  - unfold MaxAccumulator.get_reduced_value_from_states.
    destruct (Hmap _ state_max_val) as (ys & -> & Hl); [by intros [] [=]; eauto|].
    destruct ys; [by destruct ms|]. cbn. eauto.
  - unfold MinAccumulator.get_reduced_value_from_states.
    destruct (Hmap _ state_min_val) as (ys & -> & Hl); [by intros [] [=]; eauto|].
    destruct ys; [by destruct ms|]. cbn. eauto.
  - unfold StdAccumulator.get_reduced_value_from_states.
    destruct (Hmap _ state_sum) as (? & -> & _); [by intros [] [=]; eauto|].
    destruct (Hmap _ state_sum_sq) as (? & -> & _); [by intros [] [=]; eauto|].
    destruct (Hmap _ state_count) as (? & -> & _); [by intros [] [=]; eauto|].
    cbn. eauto.
  - eauto.
Qed.

(** On well-formed states the loop body returns or raises the mismatch
    error, nothing else. *)
Lemma reduce_key_well_formed (now : float) (states : list (gmap string AccState))
    (key : string) :
  (∀ s k st, s ∈ states → s !! k = Some st → well_formed st) →
  (∃ m, reduce_key now states key = Ok m) ∨
  (∃ t1 t2, t1 ≠ t2 ∧
     reduce_key now states key = Raise (ValueError (mismatch_message key t1 t2))).
Proof.
  intros Hwf. unfold reduce_key.
  assert (Forall well_formed (metric_states_of key states)) as Hall.
  { apply Forall_forall. intros st (s & Hs & Hst)%list_elem_of_omap. eauto. }
  destruct (metric_states_of key states) as [|first ms] eqn:E; [left; eauto|].
  destruct (check_consistency_cases key (state_reduction_type first) (first :: ms))
    as [[-> Hsame]|(other & Ho & ->)]; [|right; exists (state_reduction_type first), other; eauto].
  left. cbn.
  assert (state_reduction_type first = Reduce_value (state_class first)) as Hf
    by (by inversion Hall).
  rewrite Hf, Reduce_of_value_value. cbn.
  destruct (get_reduced_value_from_states_total (state_class first) (first :: ms))
    as [v ->]; [done| |cbn; eauto].
  apply Forall_forall. intros s Hs.
  rewrite Forall_forall in Hall, Hsame.
  apply Reduce_value_inj. rewrite <- (Hall s Hs), <- Hf. by apply Hsame.
Qed.

Lemma reduce_keys_mismatch (now : float) (states : list (gmap string AccState))
    (keys : list string) (key : string) (s1 s2 : gmap string AccState) (a b : AccState) :
  s1 ∈ states → s2 ∈ states → s1 !! key = Some a → s2 !! key = Some b →
  state_reduction_type a ≠ state_reduction_type b →
  key ∈ keys →
  (∃ e, reduce_keys now states keys = Raise e) ∧
  ((∀ s k st, s ∈ states → s !! k = Some st → well_formed st) →
   ∃ k t1 t2, t1 ≠ t2 ∧
     reduce_keys now states keys = Raise (ValueError (mismatch_message k t1 t2))).
Proof.
  intros H1 H2 Ha Hb Hne Hin.
  induction keys as [|k keys IH]; [by apply elem_of_nil in Hin|].
  cbn [reduce_keys].
  destruct (decide (k = key)) as [->|Hk].
  - destruct (reduce_key_mismatch now states key s1 s2 a b) as (t1 & t2 & Ht & ->); try done.
    split; [eauto|]. intros _. exists key, t1, t2. eauto.
  - apply elem_of_cons in Hin as [?|Hin]; [congruence|].
    destruct (IH Hin) as [[e He] IHwf]. split.
    + destruct (reduce_key now states k); cbn; [|eauto]. rewrite He. cbn. eauto.
    + intros Hwf. destruct (reduce_key_well_formed now states k Hwf)
        as [[m ->]|(t1 & t2 & Ht & ->)]; cbn.
      * destruct (IHwf Hwf) as (k' & t1 & t2 & Ht & ->). cbn. eauto.
      * eauto.
Qed.

(** C2. Whenever two of the state maps hold, for one key, states that declare
    different reduction types, the state-merge function raises: for every
    order in which the keys are visited, and so for the function itself. It
    returns no result on such an input, and on states as [get_state] builds
    them the exception is the [ValueError] that reports mismatched reduction
    types. *)
Theorem reduce_metrics_states_mismatch (now : float)
    (states : list (gmap string AccState)) (key : string)
    (s1 s2 : gmap string AccState) (a b : AccState) :
  s1 ∈ states → s2 ∈ states → s1 !! key = Some a → s2 !! key = Some b →
  state_reduction_type a ≠ state_reduction_type b →
  (∀ keys, key ∈ keys →
     (∃ e, reduce_keys now states keys = Raise e) ∧
     ((∀ s k st, s ∈ states → s !! k = Some st → well_formed st) →
      ∃ k t1 t2, t1 ≠ t2 ∧
        reduce_keys now states keys = Raise (ValueError (mismatch_message k t1 t2)))) ∧
  (∃ e, reduce_metrics_states now states = Raise e) ∧
  ((∀ s k st, s ∈ states → s !! k = Some st → well_formed st) →
   ∃ k t1 t2, t1 ≠ t2 ∧
     reduce_metrics_states now states = Raise (ValueError (mismatch_message k t1 t2))).
Proof.
  intros H1 H2 Ha Hb Hne.
  assert (∀ keys, key ∈ keys →
     (∃ e, reduce_keys now states keys = Raise e) ∧
     ((∀ s k st, s ∈ states → s !! k = Some st → well_formed st) →
      ∃ k t1 t2, t1 ≠ t2 ∧
        reduce_keys now states keys = Raise (ValueError (mismatch_message k t1 t2))))
    as Hkeys
    by (intros keys Hk; exact (reduce_keys_mismatch now states keys key s1 s2 a b H1 H2 Ha Hb Hne Hk)).
  split; [exact Hkeys|].
  assert (key ∈ elements (all_keys states)) as Hin.
  { apply elem_of_elements, elem_of_union_list. exists (dom s1). split.
    - by apply list_elem_of_fmap_2.
    - apply elem_of_dom. eauto. }
  unfold reduce_metrics_states.
  destruct states as [|s0 states]; [by apply elem_of_nil in H1|].
  apply (Hkeys _ Hin).
Qed.

Lemma reduce_metrics_states_mismatch_witness :
  ∃ e, reduce_metrics_states 0 [{[ "loss" := MeanState "mean" 14 5 ]};
                                {[ "loss" := SumState "sum" 16 ]}] = Raise e.
Proof.
  apply (reduce_metrics_states_mismatch 0
           [{[ "loss" := MeanState "mean" 14 5 ]}; {[ "loss" := SumState "sum" 16 ]}]
           "loss" {[ "loss" := MeanState "mean" 14 5 ]} {[ "loss" := SumState "sum" 16 ]}
           (MeanState "mean" 14 5) (SumState "sum" 16)).
  - apply list_elem_of_here.
  - apply list_elem_of_further, list_elem_of_here.
  - apply lookup_singleton_eq.
  - apply lookup_singleton_eq.
  - discriminate.
Defined.

(** ** heapq *)

Ltac hsimpl := cbn -[Nat.div Nat.mul insert].

Section HeapFacts.
Context {A : Type} (lt : A → A → Res bool).

Lemma getitem_Ok (l : list A) (i : nat) (x : A) : getitem l i = Ok x ↔ l !! i = Some x.
Proof. unfold getitem. destruct (l !! i); split; congruence. Qed.

Lemma getitem_lt (l : list A) (i : nat) : (i < length l)%nat → ∃ x, getitem l i = Ok x.
Proof. intros [x Hx]%lookup_lt_is_Some_2. exists x. by apply getitem_Ok. Qed.

(** Whatever the order does, sifting moves items inside the list: its length
    does not change. *)
Lemma _siftdown_loop_length (fuel : nat) (heap : list A) (startpos pos : nat)
    (newitem : A) (heap' : list A) (pos' : nat) :
  heapq._siftdown_loop lt fuel heap startpos pos newitem = Ok (heap', pos') →
  length heap' = length heap.
Proof.
  revert heap pos. induction fuel as [|fuel IH]; intros heap pos; cbn.
  - by intros [= <- <-].
  - case_decide; [|by intros [= <- <-]].
    destruct (getitem heap _) as [parent|]; cbn; [|done].
    destruct (lt newitem parent) as [[]|]; cbn; [|by intros [= <- <-]|done].
    intros Hr%IH. by rewrite length_insert in Hr.
Qed.

Lemma _siftdown_length (heap : list A) (startpos pos : nat) (heap' : list A) :
  heapq._siftdown lt heap startpos pos = Ok heap' → length heap' = length heap.
Proof.
  unfold heapq._siftdown. destruct (getitem heap pos) as [newitem|]; cbn; [|done].
  destruct (heapq._siftdown_loop _ _ _ _ _ _) as [[h p]|] eqn:E; cbn; [|done].
  intros [= <-]. rewrite length_insert. by eapply _siftdown_loop_length.
Qed.

Lemma _siftup_loop_length (fuel : nat) (heap : list A) (endpos pos : nat)
    (heap' : list A) (pos' : nat) :
  heapq._siftup_loop lt fuel heap endpos pos = Ok (heap', pos') →
  length heap' = length heap.
Proof.
  revert heap pos. induction fuel as [|fuel IH]; intros heap pos; cbn.
  - by intros [= <- <-].
  - case_decide; [|by intros [= <- <-]].
    destruct (if decide _ then _ else _) as [childpos|]; cbn; [|done].
    destruct (getitem heap childpos) as [c|]; cbn; [|done].
    intros Hr%IH. by rewrite length_insert in Hr.
Qed.

Lemma _siftup_length (heap : list A) (pos : nat) (heap' : list A) :
  heapq._siftup lt heap pos = Ok heap' → length heap' = length heap.
Proof.
  unfold heapq._siftup. destruct (getitem heap pos) as [newitem|]; cbn; [|done].
  destruct (heapq._siftup_loop _ _ _ _ _) as [[h p]|] eqn:E; cbn; [|done].
  intros H. apply _siftdown_length in H. rewrite length_insert in H.
  rewrite H. by eapply _siftup_loop_length.
Qed.

Lemma heappush_length (heap : list A) (item : A) (heap' : list A) :
  heapq.heappush lt heap item = Ok heap' → length heap' = S (length heap).
Proof.
  unfold heapq.heappush. intros H. apply _siftdown_length in H.
  rewrite H, length_app. cbn. lia.
Qed.

Lemma heappushpop_length (heap : list A) (item : A) (heap' : list A) (out : A) :
  heapq.heappushpop lt heap item = Ok (heap', out) → length heap' = length heap.
Proof.
  unfold heapq.heappushpop. destruct heap as [|top heap]; [by intros [= <- <-]|].
  destruct (lt top item) as [[]|]; cbn -[insert]; [|by intros [= <- <-]|done].
  destruct (heapq._siftup _ _ _) as [h|] eqn:E; cbn -[insert]; [|done].
  intros [= <- <-]. apply _siftup_length in E. by rewrite length_insert in E.
Qed.

(** Totality: when the order is defined on a class [Q] of items, the heap
    operations return on heaps made of such items, and the heap they leave is
    made of such items. In particular no index leaves the list and the loops
    end within their iteration bounds. *)
Context (Q : A → Prop).
Hypothesis lt_total : ∀ x y, Q x → Q y → ∃ b, lt x y = Ok b.

Lemma getitem_Q (l : list A) (i : nat) :
  Forall Q l → (i < length l)%nat → ∃ x, getitem l i = Ok x ∧ Q x.
Proof.
  intros HQ [x Hx]%lookup_lt_is_Some_2. exists x. split; [by apply getitem_Ok|].
  by eapply Forall_lookup_1.
Qed.

Lemma _siftdown_loop_total (fuel : nat) (heap : list A) (startpos pos : nat) (newitem : A) :
  Forall Q heap → Q newitem → (pos < length heap)%nat →
  ∃ heap' pos',
    heapq._siftdown_loop lt fuel heap startpos pos newitem = Ok (heap', pos') ∧
    Forall Q heap' ∧ length heap' = length heap ∧ (pos' ≤ pos)%nat.
Proof.
  revert heap pos. induction fuel as [|fuel IH]; intros heap pos HQ Hx Hpos;
    hsimpl.
  - eauto 10.
  - case_decide; [|eauto 10].
    assert ((pos - 1) / 2 < pos)%nat as Hpar
      by (pose proof (Nat.Div0.div_le_upper_bound (pos - 1) 2 (pos - 1)); lia).
    destruct (getitem_Q heap ((pos - 1) / 2) HQ ltac:(lia)) as (parent & -> & Hp). hsimpl.
    destruct (lt_total newitem parent Hx Hp) as [[] ->]; hsimpl; [|eauto 10].
    destruct (IH (<[pos:=parent]> heap) ((pos - 1) / 2)%nat) as (h & p & -> & H1 & H2 & H3).
    + by apply Forall_insert.
    + done.
    + rewrite length_insert. lia.
    + exists h, p. rewrite length_insert in H2. repeat split; try done. lia.
Qed.

Lemma _siftdown_total (heap : list A) (startpos pos : nat) :
  Forall Q heap → (pos < length heap)%nat →
  ∃ heap', heapq._siftdown lt heap startpos pos = Ok heap' ∧
           Forall Q heap' ∧ length heap' = length heap.
Proof.
  intros HQ Hpos. unfold heapq._siftdown.
  destruct (getitem_Q heap pos HQ Hpos) as (newitem & -> & Hx). hsimpl.
  destruct (_siftdown_loop_total pos heap startpos pos newitem HQ Hx Hpos)
    as (h & p & -> & H1 & H2 & H3). hsimpl.
  eexists. split; [done|]. split; [by apply Forall_insert|].
  by rewrite length_insert.
Qed.

Lemma _siftup_loop_total (fuel : nat) (heap : list A) (endpos pos : nat) :
  Forall Q heap → (endpos ≤ length heap)%nat → (pos < endpos)%nat →
  ∃ heap' pos',
    heapq._siftup_loop lt fuel heap endpos pos = Ok (heap', pos') ∧
    Forall Q heap' ∧ length heap' = length heap ∧ (pos' < endpos)%nat.
Proof.
  revert heap pos. induction fuel as [|fuel IH]; intros heap pos HQ Hend Hpos;
    hsimpl.
  - eauto 10.
  - case_decide as Hc; [|eauto 10].
    assert (∃ childpos,
      (if decide (2 * pos + 1 + 1 < endpos)%nat
       then l ← getitem heap (2 * pos + 1)%nat;
            r ← getitem heap (2 * pos + 1 + 1)%nat;
            b ← lt l r;
            Ok (if (b : bool) then (2 * pos + 1)%nat else (2 * pos + 1 + 1)%nat)
       else Ok (2 * pos + 1)%nat) = Ok childpos ∧ (childpos < endpos)%nat)
      as (childpos & Hchild & Hlt).
    { case_decide as Hr; [|eauto].
      destruct (getitem_Q heap (2 * pos + 1) HQ ltac:(lia)) as (l & -> & Hl).
      destruct (getitem_Q heap (2 * pos + 1 + 1) HQ ltac:(lia)) as (r & -> & Hrr). hsimpl.
      destruct (lt_total l r Hl Hrr) as [[] ->]; hsimpl; eauto. }
    rewrite Hchild. hsimpl.
    destruct (getitem_Q heap childpos HQ ltac:(lia)) as (c & -> & Hcq). hsimpl.
    destruct (IH (<[pos:=c]> heap) childpos) as (h & p & -> & H1 & H2 & H3).
    + by apply Forall_insert.
    + by rewrite length_insert.
    + done.
    + exists h, p. rewrite length_insert in H2. done.
Qed.

Lemma _siftup_total (heap : list A) (pos : nat) :
  Forall Q heap → (pos < length heap)%nat →
  ∃ heap', heapq._siftup lt heap pos = Ok heap' ∧
           Forall Q heap' ∧ length heap' = length heap.
Proof.
  intros HQ Hpos. unfold heapq._siftup.
  destruct (getitem_Q heap pos HQ Hpos) as (newitem & -> & Hx). hsimpl.
  destruct (_siftup_loop_total (length heap) heap (length heap) pos HQ ltac:(lia) Hpos)
    as (h & p & -> & H1 & H2 & H3). hsimpl.
  destruct (_siftdown_total (<[p:=newitem]> h) pos p) as (h' & -> & H4 & H5).
  - by apply Forall_insert.
  - rewrite length_insert. lia.
  - exists h'. rewrite length_insert in H5. split; [done|]. split; [done|]. congruence.
Qed.

Lemma heappush_total (heap : list A) (item : A) :
  Forall Q heap → Q item →
  ∃ heap', heapq.heappush lt heap item = Ok heap' ∧ Forall Q heap'.
Proof.
  intros HQ Hx. unfold heapq.heappush.
  destruct (_siftdown_total (heap ++ [item]) 0 (length heap)) as (h & -> & H1 & _).
  - apply Forall_app. split; [done|]. by constructor.
  - rewrite length_app. hsimpl. lia.
  - eauto.
Qed.

Lemma heappushpop_total (heap : list A) (item : A) :
  Forall Q heap → Q item →
  ∃ heap' out, heapq.heappushpop lt heap item = Ok (heap', out) ∧ Forall Q heap'.
Proof.
  intros HQ Hx. unfold heapq.heappushpop. destruct heap as [|top heap]; [eauto|].
  inversion HQ as [|? ? Htop Hrest]; subst.
  destruct (lt_total top item Htop Hx) as [[] ->]; hsimpl; [|eauto].
  destruct (_siftup_total (<[0%nat:=item]> (top :: heap)) 0) as (h & -> & H1 & _).
  - by apply Forall_insert.
  - rewrite length_insert. cbn. lia.
  - hsimpl. eauto.
Qed.

End HeapFacts.

(** The iteration bounds are never what stops a loop: more fuel gives the same
    result. *)
Lemma _siftdown_loop_fuel {A : Type} (lt : A → A → Res bool) (fuel fuel' : nat)
    (heap : list A) (startpos pos : nat) (newitem : A) :
  (pos ≤ fuel)%nat → (pos ≤ fuel')%nat →
  heapq._siftdown_loop lt fuel heap startpos pos newitem
  = heapq._siftdown_loop lt fuel' heap startpos pos newitem.
Proof.
  revert fuel' heap pos. induction fuel as [|fuel IH]; intros fuel' heap pos H1 H2.
  - destruct fuel'; [done|]. hsimpl. case_decide; [lia|done].
  - destruct fuel' as [|fuel']; hsimpl; case_decide; try done; try lia.
    destruct (getitem heap _) as [parent|]; hsimpl; [|done].
    destruct (lt newitem parent) as [[]|]; hsimpl; try done.
    assert ((pos - 1) / 2 ≤ pos - 1)%nat
      by (apply Nat.Div0.div_le_upper_bound; lia).
    apply IH; lia.
Qed.

Lemma _siftup_loop_fuel {A : Type} (lt : A → A → Res bool) (fuel fuel' : nat)
    (heap : list A) (endpos pos : nat) :
  (endpos - pos ≤ fuel)%nat → (endpos - pos ≤ fuel')%nat →
  heapq._siftup_loop lt fuel heap endpos pos
  = heapq._siftup_loop lt fuel' heap endpos pos.
Proof.
  revert fuel' heap pos. induction fuel as [|fuel IH]; intros fuel' heap pos H1 H2.
  - destruct fuel'; [done|]. hsimpl. case_decide; [lia|done].
  - destruct fuel' as [|fuel']; hsimpl; case_decide; try done; try lia.
    destruct (if decide _ then _ else _) as [childpos|] eqn:E; hsimpl; [|done].
    destruct (getitem heap childpos) as [c|]; hsimpl; [|done].
    assert (2 * pos + 1 ≤ childpos)%nat.
    { case_decide; [|by injection E as <-].
      destruct (getitem heap (2 * pos + 1)); cbn -[Nat.div Nat.mul insert] in E; [|done].
      destruct (getitem heap (2 * pos + 1 + 1)); cbn -[Nat.div Nat.mul insert] in E; [|done].
      destruct (lt _ _) as [[]|]; cbn -[Nat.div Nat.mul insert] in E; [| |done]; injection E as <-; lia. }
    apply IH; lia.
Qed.

(** ** TopBottomKFilter *)

Section FilterFacts.
Import TopBottomKFilter.

(** One side of [filter_append]: push while below the bound, push-then-pop
    at the bound. *)
Lemma keep_side_length (k : Z) (heap heap' : list entry) (item : entry) :
  (0 < k)%Z → (Z.of_nat (length heap) ≤ k)%Z →
  (if decide (Z.of_nat (length heap) < k)%Z
   then heapq.heappush entry_lt heap item
   else fst <$> heapq.heappushpop entry_lt heap item) = Ok heap' →
  (Z.of_nat (length heap') ≤ k)%Z.
Proof.
  intros Hk Hlen. case_decide as Hlt.
  - intros E%heappush_length. lia.
  - destruct (heapq.heappushpop _ _ _) as [[h out]|] eqn:E; cbn; [|done].
    intros [= <-]. apply heappushpop_length in E. lia.
Qed.

Lemma top_side_bound (k : Z) (heap heap' : list entry) (item : entry) :
  (if decide (0 < k)%Z then
     if decide (Z.of_nat (length heap) < k)%Z
     then heapq.heappush entry_lt heap item
     else fst <$> heapq.heappushpop entry_lt heap item
   else Ok heap) = Ok heap' →
  (Z.of_nat (length heap) ≤ Z.max 0 k)%Z → (Z.of_nat (length heap') ≤ Z.max 0 k)%Z.
Proof.
  destruct (decide (0 < k)%Z) as [Hk|Hk].
  - intros E Hlen. apply keep_side_length in E; lia.
  - by intros [= <-].
Qed.

Lemma bottom_side_bound (k : Z) (heap heap' : list entry) (val : Field) (idx : nat)
    (sample : Sample) :
  (if decide (0 < k)%Z then
     nval ← field_neg val;
     if decide (Z.of_nat (length heap) < k)%Z
     then heapq.heappush entry_lt heap (nval, idx, sample)
     else fst <$> heapq.heappushpop entry_lt heap (nval, idx, sample)
   else Ok heap) = Ok heap' →
  (Z.of_nat (length heap) ≤ Z.max 0 k)%Z → (Z.of_nat (length heap') ≤ Z.max 0 k)%Z.
Proof.
  destruct (decide (0 < k)%Z) as [Hk|Hk].
  - destruct (field_neg val) as [nval|]; cbn; [|done].
    intros E Hlen. apply keep_side_length in E; lia.
  - by intros [= <-].
Qed.

Lemma filter_append_shape (self self' : t) (sample : Sample) (b : bool) :
  filter_append self sample = Ok (self', b) →
  b = false ∧ top_k self' = top_k self ∧ bottom_k self' = bottom_k self ∧
  key self' = key self ∧ _counter self' = S (_counter self) ∧
  (within_bounds self → within_bounds self').
Proof.
  unfold filter_append.
  destruct (if decide (0 < top_k self)%Z then _ else _) as [top|] eqn:Et; cbn; [|done].
  destruct (if decide (0 < bottom_k self)%Z then _ else _) as [bottom|] eqn:Eb; cbn; [|done].
  intros [= <- <-]. cbn. split_and!; try done.
  intros [Ht Hb]. split; cbn.
  - by eapply top_side_bound.
  - by eapply bottom_side_bound.
Qed.

Lemma filter_append_all_shape (self self' : t) (samples : list Sample) :
  filter_append_all self samples = Ok self' →
  top_k self' = top_k self ∧ bottom_k self' = bottom_k self ∧ key self' = key self ∧
  _counter self' = (_counter self + length samples)%nat ∧
  (within_bounds self → within_bounds self').
Proof.
  revert self. induction samples as [|s samples IH]; intros self; cbn.
  - intros [= <-]. split_and!; try done; cbn; lia.
  - destruct (filter_append self s) as [[f b]|] eqn:E; cbn; [|done].
    apply filter_append_shape in E as (_ & E1 & E2 & E3 & E4 & E5).
    intros (H1 & H2 & H3 & H4 & H5)%IH.
    split_and!; try congruence; [cbn; lia|tauto].
Qed.

Lemma within_bounds_init (top_k bottom_k : Z) (key : string) :
  within_bounds (__init__ top_k bottom_k key).
Proof. unfold within_bounds. cbn. lia. Qed.

Lemma within_bounds_reset (self : t) : within_bounds (reset self).
Proof. unfold within_bounds. cbn. lia. Qed.

(** The order on the entries built for one list of numerically ranked samples
    is defined everywhere. *)
Lemma entry_lt_top_total (key : string) (samples : list Sample) (x y : entry) :
  top_entry_of key samples x → top_entry_of key samples y → ∃ b, entry_lt x y = Ok b.
Proof.
  intros (i & s & v & Hi & Hv & ->) (j & s' & v' & Hj & Hv' & ->). cbn.
  destruct (v =? v')%float; cbn; [|eauto].
  destruct (Nat.eqb_spec i j) as [->|]; cbn; [|eauto].
  rewrite decide_True by congruence. eauto.
Qed.

Lemma entry_lt_bottom_total (key : string) (samples : list Sample) (x y : entry) :
  bottom_entry_of key samples x → bottom_entry_of key samples y →
  ∃ b, entry_lt x y = Ok b.
Proof.
  intros (i & s & v & Hi & Hv & ->) (j & s' & v' & Hj & Hv' & ->). cbn.
  destruct (- v =? - v')%float; cbn; [|eauto].
  destruct (Nat.eqb_spec i j) as [->|]; cbn; [|eauto].
  rewrite decide_True by congruence. eauto.
Qed.

Lemma keep_side_total (Q : entry → Prop) (k : Z) (heap : list entry) (item : entry) :
  (∀ x y, Q x → Q y → ∃ b, entry_lt x y = Ok b) →
  Forall Q heap → Q item →
  ∃ heap',
    (if decide (Z.of_nat (length heap) < k)%Z
     then heapq.heappush entry_lt heap item
     else fst <$> heapq.heappushpop entry_lt heap item) = Ok heap' ∧ Forall Q heap'.
Proof.
  intros Hlt HQ Hx. case_decide.
  - by apply (heappush_total entry_lt Q).
  - destruct (heappushpop_total entry_lt Q Hlt heap item HQ Hx) as (h & out & -> & Hh).
    cbn. eauto.
Qed.

(** [filter_append] returns on a numerically ranked sample. *)
Lemma filter_append_total (samples : list Sample) (self : t) (sample : Sample) :
  samples !! _counter self = Some sample →
  numeric_rank (key self) sample →
  Forall (top_entry_of (key self) samples) (_top_heap self) →
  Forall (bottom_entry_of (key self) samples) (_bottom_heap self) →
  ∃ self', filter_append self sample = Ok (self', false) ∧
    Forall (top_entry_of (key self) samples) (_top_heap self') ∧
    Forall (bottom_entry_of (key self) samples) (_bottom_heap self').
Proof.
  intros Hi [v Hv] Ht Hb. unfold filter_append. rewrite Hv.
  assert (∃ top,
    (if decide (0 < top_k self)%Z then
       if decide (Z.of_nat (length (_top_heap self)) < top_k self)%Z
       then heapq.heappush entry_lt (_top_heap self) (FNum v, _counter self, sample)
       else fst <$> heapq.heappushpop entry_lt (_top_heap self) (FNum v, _counter self, sample)
     else Ok (_top_heap self)) = Ok top ∧ Forall (top_entry_of (key self) samples) top)
    as (top & -> & Htop).
  { case_decide; [|eauto].
    apply keep_side_total; [apply entry_lt_top_total|done|].
    by exists (_counter self), sample, v. }
  assert (∃ bottom,
    (if decide (0 < bottom_k self)%Z then
       nval ← field_neg (FNum v);
       if decide (Z.of_nat (length (_bottom_heap self)) < bottom_k self)%Z
       then heapq.heappush entry_lt (_bottom_heap self) (nval, _counter self, sample)
       else fst <$> heapq.heappushpop entry_lt (_bottom_heap self) (nval, _counter self, sample)
     else Ok (_bottom_heap self)) = Ok bottom ∧
    Forall (bottom_entry_of (key self) samples) bottom)
    as (bottom & -> & Hbottom).
  { case_decide; [|eauto]. cbn [field_neg mbind Res_bind].
    apply keep_side_total; [apply entry_lt_bottom_total|done|].
    by exists (_counter self), sample, v. }
  cbn. eauto.
Qed.

Lemma filter_append_all_total (pre post : list Sample) (self : t) :
  _counter self = length pre →
  Forall (numeric_rank (key self)) post →
  Forall (top_entry_of (key self) (pre ++ post)) (_top_heap self) →
  Forall (bottom_entry_of (key self) (pre ++ post)) (_bottom_heap self) →
  ∃ self', filter_append_all self post = Ok self'.
Proof.
  revert pre self. induction post as [|s post IH]; intros pre self Hc Hnum Ht Hb; cbn; [eauto|].
  inversion Hnum as [|? ? Hs Hpost]; subst.
  destruct (filter_append_total (pre ++ s :: post) self s) as (f & E & Ht' & Hb'); try done.
  { rewrite Hc. by rewrite list_lookup_middle. }
  rewrite E. cbn.
  pose proof (filter_append_shape _ _ _ _ E) as (_ & _ & _ & Hk & Hc' & _).
  apply (IH (pre ++ [s])).
  - rewrite Hc', Hc, length_app. cbn. lia.
  - by rewrite Hk.
  - rewrite Hk, <- app_assoc. done.
  - rewrite Hk, <- app_assoc. done.
Qed.

(** C7. For every configuration of the filter and every sequence of
    [filter_append] calls on a new filter: the calls return when the ranking
    fields are numbers; whenever they return, the top heap holds at most
    [top_k] entries and the bottom heap at most [bottom_k], and a side whose
    bound is zero or negative holds nothing (every prefix of a sequence is a
    sequence, so this holds after each call); a call changes nothing but the
    two heaps and the counter, and returns [False], so that
    [SampleAccumulator.append] leaves its [samples] list as it was. *)
Theorem filter_append_bounds (top_k bottom_k : Z) (key : string) (samples : list Sample) :
  (Forall (numeric_rank key) samples →
   ∃ f, filter_append_all (__init__ top_k bottom_k key) samples = Ok f) ∧
  (∀ f, filter_append_all (__init__ top_k bottom_k key) samples = Ok f →
     (Z.of_nat (length (_top_heap f)) ≤ Z.max 0 top_k)%Z ∧
     (Z.of_nat (length (_bottom_heap f)) ≤ Z.max 0 bottom_k)%Z ∧
     ((top_k ≤ 0)%Z → _top_heap f = []) ∧
     ((bottom_k ≤ 0)%Z → _bottom_heap f = [])) ∧
  (∀ g sample g' b, filter_append g sample = Ok (g', b) →
     b = false ∧ TopBottomKFilter.top_k g' = TopBottomKFilter.top_k g ∧
     TopBottomKFilter.bottom_k g' = TopBottomKFilter.bottom_k g ∧
     TopBottomKFilter.key g' = TopBottomKFilter.key g) ∧
  (∀ acc value acc', SampleAccumulator.append acc value = Ok acc' →
     SampleAccumulator.samples acc' = SampleAccumulator.samples acc).
Proof.
  split; [|split; [|split]].
  - intros Hnum. by apply (filter_append_all_total [] samples).
  - intros f (H1 & H2 & _ & _ & Hb)%filter_append_all_shape.
    destruct (Hb (within_bounds_init _ _ _)) as [Ht Hbo]. cbn in H1, H2.
    rewrite H1 in Ht. rewrite H2 in Hbo. repeat split; try done.
    + intros Hk. apply nil_length_inv. lia.
    + intros Hk. apply nil_length_inv. lia.
  - intros g s g' b (? & ? & ? & ? & _)%filter_append_shape. done.
  - intros acc value acc'. unfold SampleAccumulator.append.
    destruct value; try done.
    destruct (filter_append _ _) as [[f b]|] eqn:E; cbn; [|done].
    apply filter_append_shape in E as [-> _]. by intros [= <-].
Qed.

End FilterFacts.

(** ** SampleAccumulator *)

Lemma acc_call_sample_filter_inv (acc acc' : MetricAccumulator.t) (c : AccCall) :
  sample_filter_inv acc → acc_call acc c = Ok acc' → sample_filter_inv acc'.
Proof.
  destruct acc as [| | | | |a]; try done. intros (Hb & Ht & Hbo).
  destruct c as [value|]; cbn.
  - unfold SampleAccumulator.append. destruct value; try done.
    destruct (TopBottomKFilter.filter_append _ _) as [[f b]|] eqn:E; cbn; [|done].
    apply filter_append_shape in E as (_ & E1 & E2 & _ & _ & E3).
    intros [= <-]. cbn. split_and!; [tauto|congruence|congruence].
  - intros [= <-]. cbn. split_and!; [apply within_bounds_reset|done|done].
Qed.

Lemma acc_calls_sample_filter_inv (acc acc' : MetricAccumulator.t) (cs : list AccCall) :
  sample_filter_inv acc → acc_calls acc cs = Ok acc' → sample_filter_inv acc'.
Proof.
  revert acc. induction cs as [|c cs IH]; intros acc Hinv; cbn; [by intros [= <-]|].
  destruct (acc_call acc c) as [acc1|] eqn:E; cbn; [|done].
  apply IH. by eapply acc_call_sample_filter_inv.
Qed.

Lemma sample_filter_inv_length (a : SampleAccumulator.t) :
  sample_filter_inv (MetricAccumulator.Sample a) →
  (length (SampleAccumulator.get_value a) ≤ 2)%nat.
Proof.
  intros (Hwb & Hk & Hk'). destruct Hwb as [Ht Hb].
  unfold SampleAccumulator.get_value, TopBottomKFilter.filter_flush.
  rewrite length_app, !length_fmap. rewrite Hk in Ht. rewrite Hk' in Hb.
  unfold TopBottomKFilter.entry in *. lia.
Qed.

(** Appending sample dicts to a sample accumulator is appending them to its
    filter. *)
Lemma acc_calls_append_samples (r : Reduce) (l : list Sample) (f : TopBottomKFilter.t)
    (samples : list Sample) :
  acc_calls (MetricAccumulator.Sample (SampleAccumulator.mk r l f))
            (Append ∘ VDict <$> samples)
  = f' ← filter_append_all f samples;
    Ok (MetricAccumulator.Sample (SampleAccumulator.mk r l f')).
Proof.
  revert f. induction samples as [|s samples IH]; intros f; [done|].
  cbn [fmap list_fmap acc_calls filter_append_all]. cbn.
  unfold SampleAccumulator.append. cbn.
  destruct (TopBottomKFilter.filter_append f s) as [[f1 b]|] eqn:E; cbn; [|done].
  apply filter_append_shape in E as [-> _]. cbn. apply IH.
Qed.

(** C10. A sample accumulator is built with the filter
    [TopBottomKFilter(top_k=1, bottom_k=1, key="reward")]; a sample without a
    ["reward"] field enters the heaps ranked [0.0]; appending samples with
    numeric rewards returns; and after any sequence of [append] and [reset]
    calls [get_value()] and the ["samples"] entry of [get_state()] hold at most
    two samples. *)
Theorem sample_accumulator_keeps_two (reduction : Reduce) :
  SampleAccumulator.filter (SampleAccumulator.__init__ reduction)
  = TopBottomKFilter.__init__ 1 1 "reward" ∧
  (∀ sample : Sample, sample !! "reward" = None →
     ∃ a, SampleAccumulator.append (SampleAccumulator.__init__ reduction) (VDict sample) = Ok a ∧
          TopBottomKFilter._top_heap (SampleAccumulator.filter a) = [(FNum 0, 0%nat, sample)] ∧
          TopBottomKFilter._bottom_heap (SampleAccumulator.filter a)
          = [(FNum (- 0), 0%nat, sample)]) ∧
  (∀ samples : list Sample, Forall (numeric_rank "reward") samples →
     ∃ acc, acc_calls (accumulator_class SAMPLE reduction) (Append ∘ VDict <$> samples) = Ok acc) ∧
  (∀ calls acc, acc_calls (accumulator_class SAMPLE reduction) calls = Ok acc →
     ∃ a, acc = MetricAccumulator.Sample a ∧
          (length (SampleAccumulator.get_value a) ≤ 2)%nat ∧
          (length (state_samples (SampleAccumulator.get_state a)) ≤ 2)%nat).
Proof.
  split_and!.
  - done.
  - intros sample Hs. eexists. unfold SampleAccumulator.append, TopBottomKFilter.filter_append.
    cbn -[lookup]. rewrite Hs. cbn. done.
  - intros samples Hnum. unfold accumulator_class, SampleAccumulator.__init__.
    rewrite acc_calls_append_samples.
    destruct (filter_append_all_total [] samples (TopBottomKFilter.__init__ 1 1 "reward"))
      as [f ->]; try done. cbn. eauto.
  - intros calls acc H.
    assert (sample_filter_inv acc) as Hinv.
    { eapply acc_calls_sample_filter_inv; [|exact H]. cbn.
      split_and!; [apply within_bounds_init|done|done]. }
    destruct acc as [| | | | |a]; try done.
    exists a. split; [done|]. split; by apply sample_filter_inv_length.
Qed.

(** ** MetricCollector *)

Section CollectorFacts.
Import MetricCollector.

Lemma for_each_emits {A : Type} (body : A → Eff unit) (g : A → list Event) (l : list A) :
  (∀ x, body x = mkEff (g x) (Ok ())) →
  for_each body l = mkEff (l ≫= g) (Ok ()).
Proof.
  intros H. induction l as [|x l IH]; [done|].
  cbn [for_each]. rewrite H, IH. reflexivity.
Qed.

Lemma bind_singleton {A B : Type} (g : A → B) (l : list A) :
  l ≫= (λ x, [g x]) = g <$> l.
Proof. induction l as [|x l IH]; [done|]. cbn. by rewrite <- IH. Qed.

Lemma Eff_bind_Ok {A B : Type} (tr : list Event) (a : A) (f : A → Eff B) :
  mkEff tr (Ok a) ≫= f = mkEff (tr ++ trace (f a)) (outcome (f a)).
Proof. reflexivity. Qed.

Lemma push_initialized (self : t) (metric : Metric.t) :
  _is_initialized self = true →
  push self (IsMetric metric)
  = mkEff (stream_events self metric)
      (acc ← MetricAccumulator.append
               (default (accumulator_class (Metric.reduction metric) (Metric.reduction metric))
                        (accumulators self !! Metric.key metric))
               (Metric.value metric);
       Ok (mk (<[Metric.key metric := acc]> (accumulators self)) (rank self)
              (per_rank_reduce_backends self) (per_rank_no_reduce_backends self)
              (global_step self) true)).
Proof.
  intros Hinit. unfold push. rewrite Hinit. cbn [negb].
  rewrite (for_each_emits _ (λ backend, [if decide (Metric.reduction metric = SAMPLE)
     then create_task_log_samples backend (Metric.key metric) [Metric.value metric]
            (global_step self)
     else log_stream backend metric (global_step self)])).
  2:{ intros backend. by case_decide. }
  rewrite Eff_bind_Ok.
  rewrite bind_singleton. fold (MetricCollector.stream_events self metric).
  destruct (accumulators self !! Metric.key metric) as [acc0|]; cbn [default];
    (destruct (MetricAccumulator.append _ _) as [acc|e]; cbn;
       [by rewrite app_nil_r | by rewrite app_nil_r]).
Qed.

Lemma flush_initialized (now : float) (self : t) (gs : Z) (return_state : bool) :
  _is_initialized self = true → size (accumulators self) ≠ 0%nat →
  flush now self gs return_state
  = let states := MetricAccumulator.get_state <$> accumulators self in
    let result :=
      (if return_state then states else ∅,
       mk (MetricAccumulator.reset <$> accumulators self) (rank self)
          (per_rank_reduce_backends self) (per_rank_no_reduce_backends self)
          (gs + 1) true) in
    match per_rank_reduce_backends self with
    | [] => mkEff [] (Ok result)
    | _ =>
      match reduce_metrics_states now [states] with
      | Ok reduced_metrics =>
        mkEff (per_rank_reduce_backends self ≫= flush_events reduced_metrics gs) (Ok result)
      | Raise e => mkEff [] (Raise e)
      end
    end.
Proof.
  intros Hinit Hsize. unfold flush. rewrite Hinit. cbn [negb].
  rewrite decide_False by done. cbn zeta.
  destruct (per_rank_reduce_backends self) as [|b bs] eqn:Eb; [done|].
  destruct (reduce_metrics_states now _) as [ms|e]; [|done].
  unfold lift. rewrite Eff_bind_Ok.
  rewrite (for_each_emits _ (flush_events ms gs)).
  - cbn [trace outcome app]. rewrite Eff_bind_Ok. cbn. by rewrite app_nil_r.
  - intros backend. unfold flush_events. cbn zeta.
    generalize (List.filter (λ m, negb (bool_decide (Metric.reduction m = SAMPLE))) ms).
    generalize (list_to_map (M:=gmap string PyValue)
                  ((λ m, (Metric.key m, Metric.value m)) <$>
                   List.filter (λ m, bool_decide (Metric.reduction m = SAMPLE)) ms)).
    intros samp scalar. destruct scalar; case_decide; reflexivity.
Qed.

(** C8. On a collector whose backends were never initialised, [push] returns
    without raising for every input, a [Metric] or not, and leaves the
    collector as it was: no accumulator is created or changed, so the
    accumulators of a new collector stay empty; [flush] returns the empty
    dict; each of them does nothing but one call to [log_once] at warning
    level; and so for every sequence of such calls. *)
Theorem uninitialized_collector_drops (self : t) :
  _is_initialized self = false →
  (∀ metric, push self metric = mkEff [log_once_warning push_warning] (Ok self)) ∧
  (∀ now global_step return_state,
     flush now self global_step return_state
     = mkEff [log_once_warning flush_warning] (Ok (∅, self))) ∧
  (∀ calls, ∃ tr,
     collector_calls self calls = mkEff tr (Ok self) ∧
     Forall (λ ev, ∃ msg, ev = log_once_warning msg) tr).
Proof.
  intros Hinit.
  assert (∀ metric, push self metric = mkEff [log_once_warning push_warning] (Ok self))
    as Hpush by (intros metric; unfold push; by rewrite Hinit).
  assert (∀ now gs rs, flush now self gs rs
                       = mkEff [log_once_warning flush_warning] (Ok (∅, self)))
    as Hflush by (intros now gs rs; unfold flush; by rewrite Hinit).
  split_and!; [done|done|].
  intros calls. induction calls as [|c calls (tr & IH & Htr)]; [by exists []|].
  destruct c as [metric|now gs rs]; cbn [collector_calls collector_call].
  - rewrite Hpush, Eff_bind_Ok. cbn beta. rewrite IH. eexists. split; [reflexivity|].
    constructor; eauto.
  - rewrite Hflush, !Eff_bind_Ok. cbn. rewrite IH. eexists. split; [reflexivity|].
    constructor; eauto.
Qed.

Lemma uninitialized_collector_drops_witness :
  accumulators (__init__ 0) = ∅ ∧
  push (__init__ 0) (IsMetric (Metric.mk "loss" (VNum 1) MEAN 0))
  = mkEff [log_once_warning push_warning] (Ok (__init__ 0)).
Proof. split; [reflexivity|]. by apply (uninitialized_collector_drops (__init__ 0)). Defined.

(** C9 (as stated) fails on a collector that was not initialised: [push]
    checks the initialised flag first and returns before it looks at its
    argument. *)
Lemma push_not_metric_uninitialized :
  outcome (push (__init__ 0) (NotMetric "3.14")) = Ok (__init__ 0) ∧
  ¬ ∃ e, outcome (push (__init__ 0) (NotMetric "3.14")) = Raise e.
Proof. split; [reflexivity|]. by intros [e H]. Qed.

(** C9 (as amended). On an initialised collector, [push] of anything that is
    not a [Metric] raises [TypeError], before any backend is called and
    before any accumulator is touched. *)
Theorem push_not_metric_raises (self : t) (repr : string) :
  _is_initialized self = true →
  push self (NotMetric repr)
  = mkEff [] (Raise (TypeError ("Expected Metric object, got " +:+ repr))).
Proof. intros Hinit. unfold push. by rewrite Hinit. Qed.

Lemma push_not_metric_raises_witness :
  push (mk ∅ 0 ["console"] ["wandb"] 3 true) (NotMetric "3.14")
  = mkEff [] (Raise (TypeError "Expected Metric object, got 3.14")).
Proof. by apply (push_not_metric_raises (mk ∅ 0 ["console"] ["wandb"] 3 true) "3.14"). Defined.

(** C1 (as amended). On an initialised collector whose accumulator dict is
    empty, [flush] is a no-op: it returns the empty dict and leaves the
    collector, its step counter included, as it was; no backend is called. *)
Theorem flush_without_accumulators (now : float) (self : t) (global_step : Z)
    (return_state : bool) :
  _is_initialized self = true → accumulators self = ∅ →
  flush now self global_step return_state
  = mkEff [logger_debug "No metrics to flush"] (Ok (∅, self)).
Proof.
  intros Hinit Hacc. unfold flush. rewrite Hinit, Hacc. cbn [negb].
  by rewrite decide_True by apply map_size_empty.
Qed.

Lemma flush_without_accumulators_witness :
  flush 0 (mk ∅ 0 ["console"] [] 3 true) 10 true
  = mkEff [logger_debug "No metrics to flush"] (Ok (∅, mk ∅ 0 ["console"] [] 3 true)).
Proof. by apply (flush_without_accumulators 0 (mk ∅ 0 ["console"] [] 3 true) 10 true). Defined.

(** C1 (as stated) fails once a key has been pushed and flushed: the reset
    accumulator stays in the dict, so the next [flush], although no
    accumulator holds data, returns a state for the key and moves the step
    counter. *)
Lemma flush_after_reset_not_noop :
  ∃ self states self',
    outcome (c ← init_backends (__init__ 0) [("console", "per_rank_reduce")] 0;
             collector_calls c [Push (IsMetric (Metric.mk "loss" (VNum 1) MEAN 0));
                                Flush 0 0 false]) = Ok self ∧
    _is_initialized self = true ∧
    map_Forall (λ _ acc, holds_no_data acc) (accumulators self) ∧
    outcome (flush 0 self 5 true) = Ok (states, self') ∧
    states ≠ ∅ ∧
    global_step self' ≠ global_step self.
Proof.
  exists (mk {[ "loss" := MetricAccumulator.Mean (MeanAccumulator.mk MEAN 0 0) ]}
             0 ["console"] [] 1 true),
         {[ "loss" := MeanState "mean" 0 0 ]},
         (mk {[ "loss" := MetricAccumulator.Mean (MeanAccumulator.mk MEAN 0 0) ]}
             0 ["console"] [] 6 true).
  split_and!.
  - vm_compute. reflexivity.
  - reflexivity.
  - apply map_Forall_singleton. reflexivity.
  - vm_compute. reflexivity.
  - apply insert_non_empty.
  - cbn. lia.
Qed.

(** C5. On an initialised collector with no accumulator yet, pushing the MEAN
    metric ["loss"] with values [1.0] and [3.0] and flushing at step 10 with
    [return_state=True] returns [{"loss": {"reduction_type": "mean", "sum":
    4.0, "count": 2}}], sends to each accumulate-then-flush backend, and to
    nothing else, one batch holding the metric ["loss"] with value [2.0] at
    step 10, and leaves the step counter at 11. *)
Theorem push_push_flush_loss (now t1 t2 : float) (self : t) :
  _is_initialized self = true → accumulators self = ∅ →
  ∃ self1 self2 self3,
    outcome (push self (IsMetric (Metric.mk "loss" (VNum 1) MEAN t1))) = Ok self1 ∧
    outcome (push self1 (IsMetric (Metric.mk "loss" (VNum 3) MEAN t2))) = Ok self2 ∧
    flush now self2 10 true
    = mkEff ((λ backend, log_batch backend [Metric.mk "loss" (VNum 2) MEAN now] 10)
             <$> per_rank_reduce_backends self)
            (Ok ({[ "loss" := MeanState "mean" 4 2 ]}, self3)) ∧
    global_step self3 = 11%Z.
Proof.
  destruct self as [accs rk rb nb step init]. cbn. intros -> ->.
  exists (mk {[ "loss" := MetricAccumulator.Mean (MeanAccumulator.mk MEAN 1 1) ]}
             rk rb nb step true),
         (mk {[ "loss" := MetricAccumulator.Mean (MeanAccumulator.mk MEAN 4 2) ]}
             rk rb nb step true),
         (mk {[ "loss" := MetricAccumulator.Mean (MeanAccumulator.mk MEAN 0 0) ]}
             rk rb nb 11 true).
  split_and!.
  - rewrite push_initialized by done. vm_compute. reflexivity.
  - rewrite push_initialized by done. vm_compute. reflexivity.
  - rewrite flush_initialized; [|done|cbn [accumulators]; by rewrite map_size_singleton].
    cbn [per_rank_reduce_backends accumulators rank per_rank_no_reduce_backends].
    destruct rb as [|b bs]; [vm_compute; reflexivity|].
    replace (reduce_metrics_states now
               [MetricAccumulator.get_state <$>
                ({[ "loss" := MetricAccumulator.Mean (MeanAccumulator.mk MEAN 4 2) ]}
                   : gmap string MetricAccumulator.t)])
      with (Ok [Metric.mk "loss" (VNum 2) MEAN now]) by (vm_compute; reflexivity).
    rewrite <- bind_singleton. reflexivity.
  - reflexivity.
Qed.

Lemma push_push_flush_loss_witness :
  ∃ self1 self2 self3,
    outcome (push (mk ∅ 0 ["console"] [] 3 true)
                  (IsMetric (Metric.mk "loss" (VNum 1) MEAN 100))) = Ok self1 ∧
    outcome (push self1 (IsMetric (Metric.mk "loss" (VNum 3) MEAN 101))) = Ok self2 ∧
    flush 102 self2 10 true
    = mkEff [log_batch "console" [Metric.mk "loss" (VNum 2) MEAN 102] 10]
            (Ok ({[ "loss" := MeanState "mean" 4 2 ]}, self3)) ∧
    global_step self3 = 11%Z.
Proof.
  by apply (push_push_flush_loss 102 100 101 (mk ∅ 0 ["console"] [] 3 true)).
Defined.
End CollectorFacts.

Section FilterScenario.
Import TopBottomKFilter.

Lemma reward_check_all_orders :
  forallb reward_check (permutations [5; 1; 9; 3; 7]%float) = true.
Proof. vm_compute. reflexivity. Qed.

(** C6. Whatever the order in which the samples with rewards 5, 1, 9, 3 and 7
    reach a filter with [top_k=2] and [bottom_k=1], the appends return, the
    bottom heap then holds the sample with reward 1 and the top heap the
    samples with rewards 7 and 9 (the lesser at the root), and [filter_flush]
    returns exactly these three samples, bottom first. *)
Theorem top_bottom_k_any_order (values : list float) :
  values ≡ₚ [5; 1; 9; 3; 7]%float →
  ∃ f, filter_append_all (__init__ 2 1 "reward") (reward_sample <$> values) = Ok f ∧
       snd <$> _bottom_heap f = [reward_sample 1] ∧
       snd <$> _top_heap f = [reward_sample 7; reward_sample 9] ∧
       filter_flush f [] = [reward_sample 1; reward_sample 7; reward_sample 9].
Proof.
  intros Hperm. symmetry in Hperm. apply permutations_Permutation in Hperm.
  pose proof reward_check_all_orders as Hall. rewrite forallb_forall in Hall.
  apply list_elem_of_In, Hall in Hperm. unfold reward_check in Hperm.
  destruct (filter_append_all _ _) as [f|]; [|done].
  apply andb_prop in Hperm as [Hb Ht].
  apply bool_decide_eq_true in Hb, Ht.
  exists f. split_and!; try done.
  unfold filter_flush. by rewrite Hb, Ht.
Qed.

Lemma top_bottom_k_any_order_witness :
  ∃ f, filter_append_all (__init__ 2 1 "reward") (reward_sample <$> [5; 1; 9; 3; 7]%float) = Ok f ∧
       snd <$> _bottom_heap f = [reward_sample 1] ∧
       snd <$> _top_heap f = [reward_sample 7; reward_sample 9] ∧
       filter_flush f [] = [reward_sample 1; reward_sample 7; reward_sample 9].
Proof. apply (top_bottom_k_any_order [5; 1; 9; 3; 7]%float). reflexivity. Defined.
End FilterScenario.

(** * Further properties *)

(** ** heapq: the items and the heap order *)

Lemma parent_lt (i : nat) : (0 < i)%nat → ((i - 1) / 2 < i)%nat.
Proof.
  intros H. pose proof (Nat.Div0.div_le_upper_bound (i - 1) 2 (i - 1)). lia.
Qed.

Lemma parent_child (i pos : nat) :
  (0 < i)%nat → ((i - 1) / 2 = pos ↔ i = 2 * pos + 1 ∨ i = 2 * pos + 1 + 1)%nat.
Proof.
  intros H. pose proof (Nat.div_mod_eq (i - 1) 2) as E.
  pose proof (Nat.mod_upper_bound (i - 1) 2). lia.
Qed.

(** Writing [y] over [x] and then [x] over [y] elsewhere moves items only. *)
Lemma insert_Permutation {A : Type} (l : list A) (j : nat) (y a : A) :
  l !! j = Some y → y :: <[j := a]> l ≡ₚ a :: l.
Proof.
  revert j. induction l as [|b l IH]; intros [|j]; try done; cbn.
  - intros [= ->]. apply perm_swap.
  - intros H. rewrite perm_swap. rewrite (IH j H). apply perm_swap.
Qed.

Lemma insert_insert_Permutation {A : Type} (l : list A) (i j : nat) (x y : A) :
  l !! i = Some x → l !! j = Some y → <[j := x]> (<[i := y]> l) ≡ₚ l.
Proof.
  revert i j. induction l as [|a l IH]; intros [|i] [|j]; try done; cbn.
  - by intros [= ->] [= ->].
  - intros [= ->] H. by apply insert_Permutation.
  - intros H [= ->]. by apply insert_Permutation.
  - intros H1 H2. f_equiv. by apply IH.
Qed.

Section HeapItems.
Context {A : Type} (lt : A → A → Res bool).

Lemma _siftdown_loop_Permutation (fuel : nat) (heap : list A) (startpos pos : nat)
    (newitem : A) (heap' : list A) (pos' : nat) :
  (pos < length heap)%nat →
  heapq._siftdown_loop lt fuel heap startpos pos newitem = Ok (heap', pos') →
  <[pos' := newitem]> heap' ≡ₚ <[pos := newitem]> heap.
Proof.
  revert heap pos. induction fuel as [|fuel IH]; intros heap pos Hpos; hsimpl.
  - by intros [= <- <-].
  - case_decide as Hs; [|by intros [= <- <-]].
    destruct (getitem heap _) as [parent|] eqn:Ep; hsimpl; [|done].
    apply getitem_Ok in Ep.
    destruct (lt newitem parent) as [[]|]; hsimpl; [|by intros [= <- <-]|done].
    pose proof (parent_lt pos ltac:(lia)) as Hlt.
    intros Hr. apply IH in Hr; [|rewrite length_insert; lia].
    rewrite Hr.
    rewrite <- (insert_insert_Permutation (<[pos := newitem]> heap) pos ((pos - 1) / 2)
                  newitem parent).
    + by rewrite list_insert_insert_eq.
    + by apply list_lookup_insert_eq.
    + rewrite list_lookup_insert_ne by lia. done.
Qed.

Lemma _siftdown_Permutation (heap : list A) (startpos pos : nat) (heap' : list A) :
  heapq._siftdown lt heap startpos pos = Ok heap' → heap' ≡ₚ heap.
Proof.
  unfold heapq._siftdown. destruct (getitem heap pos) as [newitem|] eqn:En; hsimpl; [|done].
  apply getitem_Ok in En.
  destruct (heapq._siftdown_loop _ _ _ _ _ _) as [[h p]|] eqn:E; hsimpl; [|done].
  intros [= <-]. apply _siftdown_loop_Permutation in E; [|by eapply lookup_lt_Some].
  rewrite E. by rewrite list_insert_id.
Qed.

Lemma _siftup_child_Ok (heap : list A) (endpos pos childpos : nat) :
  (if decide (2 * pos + 1 + 1 < endpos)%nat
   then l ← getitem heap (2 * pos + 1)%nat;
        r ← getitem heap (2 * pos + 1 + 1)%nat;
        b ← lt l r;
        Ok (if (b : bool) then (2 * pos + 1)%nat else (2 * pos + 1 + 1)%nat)
   else Ok (2 * pos + 1)%nat) = Ok childpos →
  childpos = (2 * pos + 1)%nat ∨
  (childpos = (2 * pos + 1 + 1)%nat ∧ (2 * pos + 1 + 1 < endpos)%nat).
Proof.
  case_decide; [|intros [= <-]; by left].
  destruct (getitem heap (2 * pos + 1)); hsimpl; [|done].
  destruct (getitem heap (2 * pos + 1 + 1)); hsimpl; [|done].
  destruct (lt _ _) as [[]|]; hsimpl; [| |done]; intros [= <-]; auto.
Qed.

Lemma _siftup_loop_Permutation (fuel : nat) (heap : list A) (endpos pos : nat)
    (newitem : A) (heap' : list A) (pos' : nat) :
  (pos < length heap)%nat →
  heapq._siftup_loop lt fuel heap endpos pos = Ok (heap', pos') →
  <[pos' := newitem]> heap' ≡ₚ <[pos := newitem]> heap.
Proof.
  revert heap pos. induction fuel as [|fuel IH]; intros heap pos Hpos; hsimpl.
  - by intros [= <- <-].
  - case_decide as Hs; [|by intros [= <- <-]].
    destruct (if decide _ then _ else _) as [childpos|] eqn:Ec; hsimpl; [|done].
    apply _siftup_child_Ok in Ec.
    destruct (getitem heap childpos) as [c|] eqn:Eg; hsimpl; [|done].
    apply getitem_Ok in Eg. pose proof (lookup_lt_Some _ _ _ Eg) as Hc.
    intros Hr. apply IH in Hr; [|by rewrite length_insert].
    rewrite Hr.
    rewrite <- (insert_insert_Permutation (<[pos := newitem]> heap) pos childpos newitem c).
    + by rewrite list_insert_insert_eq.
    + by apply list_lookup_insert_eq.
    + rewrite list_lookup_insert_ne by lia. done.
Qed.

Lemma _siftup_Permutation (heap : list A) (pos : nat) (heap' : list A) :
  heapq._siftup lt heap pos = Ok heap' → heap' ≡ₚ heap.
Proof.
  unfold heapq._siftup. destruct (getitem heap pos) as [newitem|] eqn:En; hsimpl; [|done].
  apply getitem_Ok in En.
  destruct (heapq._siftup_loop _ _ _ _ _) as [[h p]|] eqn:E; hsimpl; [|done].
  intros Hd. apply _siftdown_Permutation in Hd. rewrite Hd.
  rewrite (_siftup_loop_Permutation _ _ _ _ newitem _ _ (lookup_lt_Some _ _ _ En) E).
  by rewrite list_insert_id.
Qed.

(** [heappush] adds the item and nothing else. *)
Lemma heappush_Permutation (heap : list A) (item : A) (heap' : list A) :
  heapq.heappush lt heap item = Ok heap' → heap' ≡ₚ item :: heap.
Proof.
  unfold heapq.heappush. intros H. apply _siftdown_Permutation in H.
  rewrite H. by rewrite Permutation_app_comm.
Qed.

(** [heappushpop] returns one of the items it was given, the heap's or the new
    one, and keeps the others. *)
Lemma heappushpop_Permutation (heap : list A) (item : A) (heap' : list A) (out : A) :
  heapq.heappushpop lt heap item = Ok (heap', out) → out :: heap' ≡ₚ item :: heap.
Proof.
  unfold heapq.heappushpop. destruct heap as [|top heap]; [by intros [= <- <-]|].
  destruct (lt top item) as [[]|]; hsimpl; [|by intros [= <- <-]|done].
  destruct (heapq._siftup _ _ _) as [h|] eqn:E; hsimpl; [|done].
  intros [= <- <-]. apply _siftup_Permutation in E. rewrite E. cbn. apply perm_swap.
Qed.

End HeapItems.

Section HeapOrder.
Context {A : Type} (lt : A → A → Res bool) (Q : A → Prop) (ltb : A → A → bool).
Hypothesis lt_ltb : ∀ x y, Q x → Q y → lt x y = Ok (ltb x y).
Hypothesis ltb_irrefl : ∀ x, Q x → ltb x x = false.
Hypothesis ltb_asym : ∀ x y, Q x → Q y → ltb x y = true → ltb y x = false.
Hypothesis ltb_negtrans :
  ∀ x y z, Q x → Q y → Q z → ltb y x = false → ltb z y = false → ltb z x = false.

(** The root of an ordered heap is below none of its items. *)
Lemma heap_ordered_root (heap : list A) (root : A) :
  Forall Q heap → heap_ordered ltb heap → heap !! 0%nat = Some root →
  ∀ i x, heap !! i = Some x → ltb x root = false.
Proof.
  intros HQ Hh Hroot i. induction (lt_wf i) as [i _ IH]. intros x Hx.
  destruct (decide (i = 0)%nat) as [->|Hi].
  - rewrite Hroot in Hx. injection Hx as <-. apply ltb_irrefl.
    by eapply Forall_lookup_1.
  - pose proof (parent_lt i ltac:(lia)) as Hlt.
    destruct (lookup_lt_is_Some_2 heap ((i - 1) / 2)) as [p Hp].
    { apply lookup_lt_Some in Hx. lia. }
    apply (ltb_negtrans root p x); try by eapply Forall_lookup_1.
    + by apply (IH ((i - 1) / 2)%nat).
    + apply (Hh i); [lia|done|done].
Qed.

Lemma down_inv_done (heap : list A) (pos : nat) (newitem : A) :
  down_inv ltb heap pos newitem →
  (∀ p, (0 < pos)%nat → heap !! ((pos - 1) / 2)%nat = Some p → ltb newitem p = false) →
  heap_ordered ltb (<[pos := newitem]> heap).
Proof.
  intros (Ha & Hb & Hc) Hp i x p Hi Hx Hpar.
  apply list_lookup_insert_Some in Hx as [(<- & <- & Hlen)|[Hne Hx]].
  - pose proof (parent_lt pos Hi). rewrite list_lookup_insert_ne in Hpar by lia.
    by apply Hp.
  - apply list_lookup_insert_Some in Hpar as [(E & <- & Hlen)|[Hne' Hpar]].
    + by apply (Hb i).
    + by apply (Ha i).
Qed.

Lemma _siftdown_loop_ordered (fuel : nat) (heap : list A) (pos : nat) (newitem : A)
    (heap' : list A) (pos' : nat) :
  (pos ≤ fuel)%nat → Forall Q heap → Q newitem → (pos < length heap)%nat →
  down_inv ltb heap pos newitem →
  heapq._siftdown_loop lt fuel heap 0 pos newitem = Ok (heap', pos') →
  heap_ordered ltb (<[pos' := newitem]> heap').
Proof.
  revert heap pos. induction fuel as [|fuel IH]; intros heap pos Hf HQ Hn Hpos Hinv; hsimpl.
  - intros [= <- <-]. apply down_inv_done; [done|]. intros p Hp. lia.
  - case_decide as Hs; [|intros [= <- <-]; apply down_inv_done; [done|intros; lia]].
    pose proof (parent_lt pos Hs) as Hlt.
    destruct (getitem_Q Q heap ((pos - 1) / 2) HQ ltac:(lia)) as (parent & Ep & Hp).
    rewrite Ep. hsimpl. apply getitem_Ok in Ep.
    rewrite (lt_ltb newitem parent Hn Hp). hsimpl.
    destruct (ltb newitem parent) eqn:Eb.
    2:{ intros [= <- <-]. apply down_inv_done; [done|]. intros p _ Hp'. congruence. }
    destruct Hinv as (Ha & Hb & Hc).
    assert (∀ i x, heap !! i = Some x → Q x) as Hq by (intros; by eapply Forall_lookup_1).
    apply IH.
    + lia.
    + by apply Forall_insert.
    + done.
    + rewrite length_insert. lia.
    + split_and!.
      * intros i x p Hi Hne Hx Hpar.
        apply list_lookup_insert_Some in Hx as [(<- & <- & Hlen)|[Hne1 Hx]].
        -- rewrite list_lookup_insert_ne in Hpar by lia.
           assert (p = parent) as -> by congruence. by apply ltb_irrefl.
        -- apply list_lookup_insert_Some in Hpar as [(E & <- & Hlen)|[Hne' Hpar]].
           ++ apply (Hc i x parent); done.
           ++ by apply (Ha i).
      * intros c x Hc0 Hcp Hx.
        apply list_lookup_insert_Some in Hx as [(<- & <- & Hlen)|[Hne1 Hx]].
        -- by apply ltb_asym.
        -- apply (ltb_negtrans newitem parent x); eauto.
           apply (Ha c); [done| |done|]; [lia|by rewrite Hcp].
      * intros c x g Hc0 Hcp Hpp Hx Hg.
        rewrite list_lookup_insert_ne in Hg
          by (pose proof (parent_lt ((pos - 1) / 2) Hpp); lia).
        assert (ltb parent g = false) as Hpg by (apply (Ha ((pos - 1) / 2)%nat); [done|lia|done|done]).
        apply list_lookup_insert_Some in Hx as [(<- & <- & Hlen)|[Hne1 Hx]]; [done|].
        apply (ltb_negtrans g parent x); eauto.
        apply (Ha c); [done| |done|]; [lia|by rewrite Hcp].
Qed.

Lemma _siftdown_ordered (heap : list A) (pos : nat) (heap' : list A) :
  Forall Q heap →
  (∀ newitem, heap !! pos = Some newitem → down_inv ltb heap pos newitem) →
  heapq._siftdown lt heap 0 pos = Ok heap' → heap_ordered ltb heap'.
Proof.
  intros HQ Hinv. unfold heapq._siftdown.
  destruct (getitem heap pos) as [newitem|] eqn:En; hsimpl; [|done].
  apply getitem_Ok in En.
  destruct (heapq._siftdown_loop _ _ _ _ _ _) as [[h p]|] eqn:E; hsimpl; [|done].
  intros [= <-]. eapply _siftdown_loop_ordered; [| | | | |exact E]; try done.
  - by eapply Forall_lookup_1.
  - by eapply lookup_lt_Some.
  - by apply Hinv.
Qed.

(** [heappush] keeps the heap ordered. *)
Lemma heappush_ordered (heap : list A) (item : A) (heap' : list A) :
  Forall Q heap → Q item → heap_ordered ltb heap →
  heapq.heappush lt heap item = Ok heap' → heap_ordered ltb heap'.
Proof.
  intros HQ Hi Hh. unfold heapq.heappush. apply _siftdown_ordered.
  - apply Forall_app. split; [done|]. by constructor.
  - intros newitem Hn. split_and!.
    + intros i x p H0 Hne Hx Hp.
      assert (i < length heap)%nat as Hlt.
      { apply lookup_lt_Some in Hx. rewrite length_app in Hx. cbn in Hx. lia. }
      pose proof (parent_lt i H0).
      rewrite lookup_app_l in Hx by done. rewrite lookup_app_l in Hp by lia.
      by apply (Hh i).
    + intros c x H0 Hc Hx. apply lookup_lt_Some in Hx. rewrite length_app in Hx. cbn in Hx.
      pose proof (parent_lt c H0). lia.
    + intros c x g H0 Hc _ Hx. apply lookup_lt_Some in Hx. rewrite length_app in Hx. cbn in Hx.
      pose proof (parent_lt c H0). lia.
Qed.

Lemma _siftup_loop_ordered (fuel : nat) (heap : list A) (pos : nat)
    (heap' : list A) (pos' : nat) :
  (length heap - pos ≤ fuel)%nat → Forall Q heap → (pos < length heap)%nat →
  up_inv ltb heap pos →
  heapq._siftup_loop lt fuel heap (length heap) pos = Ok (heap', pos') →
  up_inv ltb heap' pos' ∧ (length heap' ≤ 2 * pos' + 1)%nat ∧ length heap' = length heap.
Proof.
  revert heap pos. induction fuel as [|fuel IH]; intros heap pos Hf HQ Hpos Hinv; hsimpl.
  - lia.
  - case_decide as Hs; [|intros [= <- <-]; split_and!; [done|lia|done]].
    assert (∀ i x, heap !! i = Some x → Q x) as Hq by (intros; by eapply Forall_lookup_1).
    destruct (if decide _ then _ else _) as [childpos|] eqn:Ec; hsimpl; [|done].
    assert ((childpos = 2 * pos + 1 ∨ childpos = 2 * pos + 1 + 1)%nat ∧
            (childpos < length heap)%nat ∧
            ∀ c x y, (0 < c)%nat → ((c - 1) / 2)%nat = pos → heap !! c = Some x →
                     heap !! childpos = Some y → ltb x y = false) as (Hcp & Hclt & Hmin).
    { revert Ec. case_decide as Hr.
      - destruct (getitem heap (2 * pos + 1)) as [l|] eqn:El; hsimpl; [|done].
        destruct (getitem heap (2 * pos + 1 + 1)) as [r|] eqn:Er; hsimpl; [|done].
        apply getitem_Ok in El, Er.
        rewrite (lt_ltb l r) by eauto. hsimpl.
        destruct (ltb l r) eqn:Eb; intros [= <-];
          change (pos + (pos + 0))%nat with (2 * pos)%nat in *.
        + split_and!; [auto|lia|]. intros c x y H0 Hc Hx Hy.
          assert (y = l) as -> by congruence.
          apply parent_child in Hc; [|done]. destruct Hc as [->| ->].
          * assert (x = l) as -> by congruence. eauto.
          * assert (x = r) as -> by congruence. apply ltb_asym; eauto.
        + split_and!; [auto|lia|]. intros c x y H0 Hc Hx Hy.
          assert (y = r) as -> by congruence.
          apply parent_child in Hc; [|done]. destruct Hc as [->| ->].
          * by assert (x = l) as -> by congruence.
          * assert (x = r) as -> by congruence. eauto.
      - intros [= <-]. change (pos + (pos + 0))%nat with (2 * pos)%nat in *.
        split_and!; [auto|lia|]. intros c x y H0 Hc Hx Hy.
        apply parent_child in Hc; [|done]. destruct Hc as [->| ->].
        + assert (x = y) as -> by congruence. eauto.
        + apply lookup_lt_Some in Hx. lia. }
    destruct (getitem heap childpos) as [c|] eqn:Eg; hsimpl; [|done].
    apply getitem_Ok in Eg.
    assert (((childpos - 1) / 2)%nat = pos) as Hpar by (apply parent_child; lia).
    destruct Hinv as (Ha & Hd).
    intros Hr. rewrite <- (length_insert heap pos c) in Hr. apply IH in Hr.
    + rewrite length_insert in Hr. done.
    + rewrite length_insert. lia.
    + by apply Forall_insert; eauto.
    + rewrite length_insert. lia.
    + split.
      * intros i x p H0 Hne Hnp Hx Hp.
        apply list_lookup_insert_Some in Hx as [(<- & <- & Hlen)|[Hne1 Hx]].
        -- pose proof (parent_lt pos H0). rewrite list_lookup_insert_ne in Hp by lia.
           apply (Hd childpos c p); [lia|done|done|done|done].
        -- apply list_lookup_insert_Some in Hp as [(E & <- & Hlen)|[Hne' Hp]].
           ++ by apply (Hmin i).
           ++ by apply (Ha i).
      * intros cc x g H0 Hcc Hc0 Hx Hg.
        rewrite Hpar in Hg. rewrite list_lookup_insert_eq in Hg by lia.
        injection Hg as <-.
        assert (cc ≠ pos).
        { apply parent_child in Hcc; lia. }
        rewrite list_lookup_insert_ne in Hx by done.
        apply (Ha cc); [done|done|lia|done|]. by rewrite Hcc.
Qed.

(** Sifting a new root down restores the order. *)
Lemma _siftup_ordered (heap : list A) (heap' : list A) :
  Forall Q heap → up_inv ltb heap 0 →
  heapq._siftup lt heap 0 = Ok heap' → heap_ordered ltb heap'.
Proof.
  intros HQ Hinv. unfold heapq._siftup.
  destruct (getitem heap 0) as [newitem|] eqn:En; hsimpl; [|done].
  apply getitem_Ok in En. pose proof (lookup_lt_Some _ _ _ En) as Hlen.
  destruct (heapq._siftup_loop _ _ _ _ _) as [[h p]|] eqn:E; hsimpl; [|done].
  pose proof (_siftup_loop_total lt Q ltac:(eauto) (length heap) heap (length heap) 0 HQ
                ltac:(lia) Hlen) as (h0 & p0 & E0 & HQ' & _ & Hp).
  rewrite E in E0. injection E0 as <- <-.
  apply _siftup_loop_ordered in E as ((Ha & Hd) & Hleaf & Hl); [|lia|done|done|done].
  apply _siftdown_ordered.
  - apply Forall_insert; [done|]. exact (Forall_lookup_1 _ _ _ _ HQ En).
  - intros n Hn. rewrite list_lookup_insert_eq in Hn by lia. injection Hn as <-.
    split_and!.
    + intros i x q H0 Hne Hx Hq.
      rewrite list_lookup_insert_ne in Hx by done.
      assert (((i - 1) / 2)%nat ≠ p).
      { intros Hc. apply parent_child in Hc; [|done]. apply lookup_lt_Some in Hx. lia. }
      rewrite list_lookup_insert_ne in Hq by done. by apply (Ha i).
    + intros c x H0 Hc Hx. apply parent_child in Hc; [|done].
      apply lookup_lt_Some in Hx. rewrite length_insert in Hx. lia.
    + intros c x g H0 Hc _ Hx. apply parent_child in Hc; [|done].
      apply lookup_lt_Some in Hx. rewrite length_insert in Hx. lia.
Qed.

(** [heappushpop] keeps the heap ordered and returns an item that none of the
    items it keeps is below. *)
Lemma heappushpop_ordered (heap : list A) (item : A) (heap' : list A) (out : A) :
  Forall Q heap → Q item → heap_ordered ltb heap →
  heapq.heappushpop lt heap item = Ok (heap', out) →
  heap_ordered ltb heap' ∧ Forall (λ x, ltb x out = false) heap'.
Proof.
  intros HQ Hi Hh. unfold heapq.heappushpop. destruct heap as [|top heap].
  { intros [= <- <-]. split; [done|constructor]. }
  assert (Q top) as Ht by (by inversion HQ).
  assert (Forall (λ x, ltb x top = false) (top :: heap)) as Hroot.
  { apply Forall_lookup. intros i x Hx. by apply (heap_ordered_root (top :: heap) top HQ Hh) with i. }
  rewrite (lt_ltb top item Ht Hi). hsimpl. destruct (ltb top item) eqn:Eb.
  - destruct (heapq._siftup _ _ _) as [h|] eqn:E; hsimpl; [|done].
    intros [= <- <-]. split.
    + eapply _siftup_ordered; [| |exact E].
      * apply Forall_insert; done.
      * split.
        -- intros i x p H0 Hne Hnp Hx Hp.
           rewrite list_lookup_insert_ne in Hx by done.
           rewrite list_lookup_insert_ne in Hp by done. by apply (Hh i).
        -- intros; lia.
    + apply _siftup_Permutation in E. rewrite E. cbn. constructor.
      * by apply ltb_asym.
      * by inversion Hroot.
  - intros [= <- <-]. split; [done|].
    eapply Forall_impl; [apply Forall_and; split; [exact Hroot|exact HQ]|].
    cbn. intros x [Hx Hqx]. by apply (ltb_negtrans item top x).
Qed.

End HeapOrder.

(** ** Comparison of floats that are not NaN: a total preorder *)

Lemma SFcompare_Some (x y : spec_float) :
  x ≠ S754_nan → y ≠ S754_nan → ∃ c, SFcompare x y = Some c.
Proof.
  destruct x as [[]|[]| |[] m1 e1], y as [[]|[]| |[] m2 e2]; cbn; try done; eauto.
Qed.

Lemma SFcompare_sym (x y : spec_float) (c : comparison) :
  SFcompare x y = Some c → SFcompare y x = Some (CompOpp c).
Proof.
  unfold SFcompare.
  destruct x as [[]|[]| |[] m1 e1], y as [[]|[]| |[] m2 e2]; try done;
    try (by intros [= <-]); intros H; cmp_cases; try (by injection H as <-).
Qed.

Lemma SFcompare_trans (x y z : spec_float) (c1 c2 : comparison) :
  SFcompare x y = Some c1 → SFcompare y z = Some c2 → c1 ≠ Gt → c2 ≠ Gt →
  SFcompare x z = Some (match c1 with Eq => c2 | _ => Lt end).
Proof.
  unfold SFcompare.
  destruct x as [[]|[]| |[] m1 e1], y as [[]|[]| |[] m2 e2], z as [[]|[]| |[] m3 e3];
    try done; intros H1 H2 N1 N2; try (injection H1 as <-); try (injection H2 as <-);
    try done; cmp_cases.
Qed.

Lemma SFcompare_opp (x y : spec_float) :
  SFcompare (SFopp x) (SFopp y) = SFcompare y x.
Proof.
  unfold SFcompare, SFopp.
  destruct x as [[]|[]| |[] m1 e1], y as [[]|[]| |[] m2 e2]; try done; cbn; cmp_cases.
Qed.

(** ** The order of the heap entries *)

Lemma eqb_compare (a b : float) :
  (a =? b)%float = match SFcompare (Prim2SF a) (Prim2SF b) with Some Eq => true | _ => false end.
Proof. by rewrite FloatAxioms.eqb_spec. Qed.

Lemma ltb_compare (a b : float) :
  (a <? b)%float = match SFcompare (Prim2SF a) (Prim2SF b) with Some Lt => true | _ => false end.
Proof. by rewrite FloatAxioms.ltb_spec. Qed.

Lemma not_nan_opp (a : float) : not_nan a → not_nan (- a)%float.
Proof.
  unfold not_nan. rewrite FloatAxioms.opp_spec. by destruct (Prim2SF a) as [[]|[]| |[] m e].
Qed.

(** Negating both sides turns [<] around. *)
Lemma ltb_opp (a b : float) : (- a <? - b)%float = (b <? a)%float.
Proof. by rewrite !ltb_compare, !FloatAxioms.opp_spec, SFcompare_opp. Qed.

Lemma eqb_ltb_false (a b : float) : (a =? b)%float = true → (a <? b)%float = false.
Proof.
  rewrite eqb_compare, ltb_compare. by destruct (SFcompare _ _) as [[]|].
Qed.

Section EntryOrder.
Import TopBottomKFilter.
Context (l : list entry) (Hl : numbered l).

Lemma entry_ltb_compare (v w : float) (i j : nat) (s s' : Sample) :
  (FNum v, i, s) ∈ l → (FNum w, j, s') ∈ l →
  entry_lt (FNum v, i, s) (FNum w, j, s')
  = Ok (match SFcompare (Prim2SF v) (Prim2SF w) with
        | Some Lt => true
        | Some Eq => (i <? j)%nat
        | _ => false
        end).
Proof.
  intros H1 H2. cbn. rewrite eqb_compare, ltb_compare.
  destruct (SFcompare _ _) as [[]|]; cbn; try done.
  destruct (Nat.eqb_spec i j) as [->|]; cbn; [|done].
  destruct Hl as [_ Hf]. pose proof (Hf _ _ H1 H2 eq_refl) as [= ->].
  rewrite decide_True by done. f_equal. symmetry. apply Nat.ltb_irrefl.
Qed.

Lemma numbered_inv (e : entry) :
  e ∈ l → ∃ v i s, e = (FNum v, i, s) ∧ Prim2SF v ≠ S754_nan.
Proof.
  intros He. destruct Hl as [Hn _]. destruct (Hn e He) as (v & Hv & Hnan).
  destruct e as [[f i] s]. cbn in Hv. subst f. by exists v, i, s.
Qed.

Lemma entry_lt_ltb (x y : entry) : x ∈ l → y ∈ l → entry_lt x y = Ok (entry_ltb x y).
Proof.
  intros Hx Hy.
  destruct (numbered_inv x Hx) as (v & i & s & -> & Hv).
  destruct (numbered_inv y Hy) as (w & j & s' & -> & Hw).
  unfold entry_ltb. by rewrite (entry_ltb_compare v w i j s s').
Qed.

Lemma entry_ltb_irrefl (x : entry) : x ∈ l → entry_ltb x x = false.
Proof.
  intros Hx. destruct (numbered_inv x Hx) as (v & i & s & -> & Hv).
  unfold entry_ltb. rewrite (entry_ltb_compare v v i i s s) by done.
  destruct (SFcompare_Some _ _ Hv Hv) as [c Hc]. rewrite Hc.
  pose proof (SFcompare_sym _ _ _ Hc) as Hs. rewrite Hc in Hs.
  destruct c; try done. apply Nat.ltb_irrefl.
Qed.

Lemma entry_ltb_asym (x y : entry) :
  x ∈ l → y ∈ l → entry_ltb x y = true → entry_ltb y x = false.
Proof.
  intros Hx Hy.
  destruct (numbered_inv x Hx) as (v & i & s & -> & Hv).
  destruct (numbered_inv y Hy) as (w & j & s' & -> & Hw).
  unfold entry_ltb.
  rewrite (entry_ltb_compare v w i j s s'), (entry_ltb_compare w v j i s' s) by done.
  destruct (SFcompare_Some _ _ Hv Hw) as [c Hc]. rewrite Hc.
  rewrite (SFcompare_sym _ _ _ Hc). destruct c; cbn; try done.
  intros H%Nat.ltb_lt. apply Nat.ltb_ge. lia.
Qed.

Lemma entry_ltb_negtrans (x y z : entry) :
  x ∈ l → y ∈ l → z ∈ l →
  entry_ltb y x = false → entry_ltb z y = false → entry_ltb z x = false.
Proof.
  intros Hx Hy Hz.
  destruct (numbered_inv x Hx) as (a & i & s & -> & Ha).
  destruct (numbered_inv y Hy) as (b & j & s' & -> & Hb).
  destruct (numbered_inv z Hz) as (c & k & s'' & -> & Hc).
  unfold entry_ltb.
  rewrite (entry_ltb_compare b a j i s' s), (entry_ltb_compare c b k j s'' s'),
    (entry_ltb_compare c a k i s'' s) by done.
  destruct (SFcompare_Some _ _ Ha Hb) as [c1 H1].
  destruct (SFcompare_Some _ _ Hb Hc) as [c2 H2].
  rewrite (SFcompare_sym _ _ _ H1), (SFcompare_sym _ _ _ H2).
  destruct c1, c2; cbn; try done; intros E1 E2.
  - rewrite (SFcompare_sym _ _ _ (SFcompare_trans _ _ _ _ _ H1 H2 ltac:(done) ltac:(done))).
    cbn. apply Nat.ltb_ge. apply Nat.ltb_ge in E1, E2. lia.
  - by rewrite (SFcompare_sym _ _ _ (SFcompare_trans _ _ _ _ _ H1 H2 ltac:(done) ltac:(done))).
  - by rewrite (SFcompare_sym _ _ _ (SFcompare_trans _ _ _ _ _ H1 H2 ltac:(done) ltac:(done))).
  - by rewrite (SFcompare_sym _ _ _ (SFcompare_trans _ _ _ _ _ H1 H2 ltac:(done) ltac:(done))).
Qed.

End EntryOrder.

(** ** One side of the filter keeps the best items *)

Section KeepSide.
Context {A : Type} (lt : A → A → Res bool) (Q : A → Prop) (ltb : A → A → bool).
Hypothesis lt_ltb : ∀ x y, Q x → Q y → lt x y = Ok (ltb x y).
Hypothesis ltb_irrefl : ∀ x, Q x → ltb x x = false.
Hypothesis ltb_asym : ∀ x y, Q x → Q y → ltb x y = true → ltb y x = false.
Hypothesis ltb_negtrans :
  ∀ x y z, Q x → Q y → Q z → ltb y x = false → ltb z y = false → ltb z x = false.

Lemma heappushpop_cases (heap : list A) (item : A) (heap' : list A) (out : A) :
  Forall Q heap → Q item →
  heapq.heappushpop lt heap item = Ok (heap', out) →
  (heap' = heap ∧ out = item) ∨
  (heap !! 0%nat = Some out ∧ ltb out item = true).
Proof.
  intros HQ Hi. unfold heapq.heappushpop. destruct heap as [|top heap].
  { intros [= <- <-]. by left. }
  assert (Q top) as Ht by (by inversion HQ).
  rewrite (lt_ltb top item Ht Hi). hsimpl. destruct (ltb top item) eqn:Eb.
  - destruct (heapq._siftup _ _ _) as [h|] eqn:E; hsimpl; [|done].
    intros [= <- <-]. by right.
  - intros [= <- <-]. by left.
Qed.

Lemma keep_side_best (k : Z) (seen heap dropped : list A) (item : A) (heap' : list A) :
  Forall Q seen → Q item → heap_ordered ltb heap →
  keeps_best ltb (Z.to_nat k) seen heap dropped →
  (if decide (0 < k)%Z then
     if decide (Z.of_nat (length heap) < k)%Z
     then heapq.heappush lt heap item
     else fst <$> heapq.heappushpop lt heap item
   else Ok heap) = Ok heap' →
  heap_ordered ltb heap' ∧
  ∃ dropped', keeps_best ltb (Z.to_nat k) (seen ++ [item]) heap' dropped'.
Proof.
  intros Hseen Hi Hord (Hperm & Hlen & Hbest).
  assert (Forall Q (heap ++ dropped)) as Hhd by (by rewrite Hperm).
  apply Forall_app in Hhd as [HQ HQd].
  assert (length heap + length dropped = length seen)%nat as Hsum.
  { rewrite <- length_app. by rewrite Hperm. }
  case_decide as Hk.
  2:{ intros [= <-]. split; [done|]. exists (dropped ++ [item]).
      assert (heap = []) as -> by (apply nil_length_inv; lia).
      split_and!.
      - cbn. cbn in Hperm. by rewrite Hperm.
      - cbn. lia.
      - apply Forall_forall. intros; constructor. }
  case_decide as Hlt.
  - intros Hpush. split; [exact (heappush_ordered lt Q ltb lt_ltb ltb_irrefl ltb_asym ltb_negtrans
                     heap item heap' HQ Hi Hord Hpush)|].
    pose proof (heappush_Permutation _ _ _ _ Hpush) as Hp.
    pose proof (heappush_length _ _ _ _ Hpush) as Hl.
    assert (dropped = []) as -> by (apply nil_length_inv; lia).
    exists (@nil A). split_and!.
    + rewrite app_nil_r in *. rewrite Hp, <- Hperm. apply Permutation_cons_append.
    + rewrite length_app. cbn. lia.
    + constructor.
  - destruct (heapq.heappushpop lt heap item) as [[h out]|] eqn:E; hsimpl; [|done].
    intros [= <-].
    pose proof (heappushpop_ordered lt Q ltb lt_ltb ltb_irrefl ltb_asym ltb_negtrans
                  heap item h out HQ Hi Hord E) as [Hord' Hout].
    pose proof (heappushpop_Permutation _ _ _ _ _ E) as Hp.
    pose proof (heappushpop_length _ _ _ _ _ E) as Hl.
    split; [done|]. exists (out :: dropped). split_and!.
    + rewrite <- Permutation_middle, app_comm_cons, Hp. cbn. rewrite Hperm.
      apply Permutation_cons_append.
    + rewrite length_app. cbn. lia.
    + constructor; [done|].
      destruct (heappushpop_cases heap item h out HQ Hi E) as [[-> ->]|[Hroot Hb]]; [done|].
      assert (Q out) as Hqo by exact (Forall_lookup_1 _ _ _ _ HQ Hroot).
      assert (out ∈ heap) as Hin by (by eapply list_elem_of_lookup_2).
      eapply Forall_impl; [apply Forall_and; split; [exact Hbest|exact HQd]|].
      cbn. intros d [Hd Hqd]. apply Forall_forall. intros x Hx.
      assert (x ∈ item :: heap) as Hx'.
      { rewrite <- Hp. by right. }
      rewrite Forall_forall in Hd.
      apply elem_of_cons in Hx' as [->|Hx']; [|by apply Hd].
      apply (ltb_negtrans d out item); try done.
      * by apply Hd.
      * by apply ltb_asym.
Qed.

End KeepSide.

(** ** TopBottomKFilter keeps the best and the worst samples *)

Section FilterBest.
Import TopBottomKFilter.

Lemma top_entries_snoc (pre : list (float * Sample)) (r : float * Sample) :
  top_entries (pre ++ [r]) = top_entries pre ++ [(FNum r.1, length pre, r.2)].
Proof. unfold top_entries. rewrite imap_app. cbn. by rewrite Nat.add_0_r. Qed.

Lemma bottom_entries_snoc (pre : list (float * Sample)) (r : float * Sample) :
  bottom_entries (pre ++ [r]) = bottom_entries pre ++ [(FNum (- r.1)%float, length pre, r.2)].
Proof. unfold bottom_entries. rewrite imap_app. cbn. by rewrite Nat.add_0_r. Qed.

Lemma numbered_top_entries (key : string) (ranked : list (float * Sample)) :
  Forall (ranked_by key) ranked → numbered (top_entries ranked).
Proof.
  intros Hr. split.
  - intros e (i & r & -> & Hi)%elem_of_lookup_imap. exists r.1. split; [done|].
    by apply (Forall_lookup_1 _ _ _ _ Hr Hi).
  - intros e e' (i & r & -> & Hi)%elem_of_lookup_imap (j & r' & -> & Hj)%elem_of_lookup_imap.
    cbn. intros <-. congruence.
Qed.

Lemma numbered_bottom_entries (key : string) (ranked : list (float * Sample)) :
  Forall (ranked_by key) ranked → numbered (bottom_entries ranked).
Proof.
  intros Hr. split.
  - intros e (i & r & -> & Hi)%elem_of_lookup_imap. exists (- r.1)%float. split; [done|].
    apply not_nan_opp. by apply (Forall_lookup_1 _ _ _ _ Hr Hi).
  - intros e e' (i & r & -> & Hi)%elem_of_lookup_imap (j & r' & -> & Hj)%elem_of_lookup_imap.
    cbn. intros <-. congruence.
Qed.

Lemma top_entries_prefix (pre post : list (float * Sample)) :
  Forall (λ e, e ∈ top_entries (pre ++ post)) (top_entries pre).
Proof.
  apply Forall_forall. intros e (i & r & -> & Hi)%elem_of_lookup_imap.
  apply elem_of_lookup_imap. exists i, r. split; [done|]. by apply lookup_app_l_Some.
Qed.

Lemma bottom_entries_prefix (pre post : list (float * Sample)) :
  Forall (λ e, e ∈ bottom_entries (pre ++ post)) (bottom_entries pre).
Proof.
  apply Forall_forall. intros e (i & r & -> & Hi)%elem_of_lookup_imap.
  apply elem_of_lookup_imap. exists i, r. split; [done|]. by apply lookup_app_l_Some.
Qed.

(** One side of [filter_append] on entries ranked by numbers. *)
Lemma numbered_keep_side (all seen heap heap' : list entry) (k : Z) (item : entry) :
  numbered all → Forall (λ e, e ∈ all) seen → item ∈ all →
  side_inv k seen heap →
  (if decide (0 < k)%Z then
     if decide (Z.of_nat (length heap) < k)%Z
     then heapq.heappush entry_lt heap item
     else fst <$> heapq.heappushpop entry_lt heap item
   else Ok heap) = Ok heap' →
  side_inv k (seen ++ [item]) heap'.
Proof.
  intros Hall Hseen Hitem [Hord [dropped Hkeep]] E.
  eapply (keep_side_best entry_lt (λ e, e ∈ all) entry_ltb); try done.
  - apply entry_lt_ltb, Hall.
  - apply entry_ltb_irrefl, Hall.
  - apply entry_ltb_asym, Hall.
  - apply entry_ltb_negtrans, Hall.
Qed.

Lemma filter_append_keeps (skey : string) (pre post : list (float * Sample))
    (r : float * Sample) (self self' : t) (b : bool) :
  Forall (ranked_by skey) (pre ++ r :: post) →
  _counter self = length pre → key self = skey →
  side_inv (top_k self) (top_entries pre) (_top_heap self) →
  side_inv (bottom_k self) (bottom_entries pre) (_bottom_heap self) →
  filter_append self r.2 = Ok (self', b) →
  side_inv (top_k self) (top_entries (pre ++ [r])) (_top_heap self') ∧
  side_inv (bottom_k self) (bottom_entries (pre ++ [r])) (_bottom_heap self').
Proof.
  intros Hr Hc Hk Ht Hb. unfold filter_append.
  assert (ranked_by skey r) as [Hv Hnan].
  { rewrite Forall_app, Forall_cons in Hr. tauto. }
  rewrite Hk, Hv, Hc.
  destruct (if decide (0 < top_k self)%Z then _ else _) as [top|] eqn:Et; cbn; [|done].
  destruct (if decide (0 < bottom_k self)%Z then _ else _) as [bottom|] eqn:Eb; cbn; [|done].
  intros [= <- <-]. cbn. rewrite top_entries_snoc, bottom_entries_snoc. split.
  - eapply (numbered_keep_side (top_entries (pre ++ r :: post))); [ | | |exact Ht|exact Et].
    + by eapply numbered_top_entries.
    + apply top_entries_prefix.
    + apply elem_of_lookup_imap. exists (length pre), r. split; [done|].
      by rewrite list_lookup_middle.
  - eapply (numbered_keep_side (bottom_entries (pre ++ r :: post))); [ | | |exact Hb|].
    + by eapply numbered_bottom_entries.
    + apply bottom_entries_prefix.
    + apply elem_of_lookup_imap. exists (length pre), r. split; [done|].
      by rewrite list_lookup_middle.
    + revert Eb. case_decide; [|done]. done.
Qed.

Lemma filter_append_all_keeps (skey : string) (pre post : list (float * Sample))
    (self self' : t) :
  Forall (ranked_by skey) (pre ++ post) →
  _counter self = length pre → key self = skey →
  side_inv (top_k self) (top_entries pre) (_top_heap self) →
  side_inv (bottom_k self) (bottom_entries pre) (_bottom_heap self) →
  filter_append_all self (post.*2) = Ok self' →
  side_inv (top_k self) (top_entries (pre ++ post)) (_top_heap self') ∧
  side_inv (bottom_k self) (bottom_entries (pre ++ post)) (_bottom_heap self').
Proof.
  revert pre self. induction post as [|r post IH]; intros pre self Hr Hc Hk Ht Hb; cbn.
  - intros [= <-]. by rewrite app_nil_r.
  - destruct (filter_append self r.2) as [[f b]|] eqn:E; cbn; [|done].
    pose proof (filter_append_shape _ _ _ _ E) as (_ & E1 & E2 & E3 & E4 & _).
    destruct (filter_append_keeps skey pre post r self f b Hr Hc Hk Ht Hb E) as [Ht' Hb'].
    intros Hrest.
    replace (pre ++ r :: post) with ((pre ++ [r]) ++ post) in * by (by rewrite <- app_assoc).
    rewrite <- E1, <- E2. apply IH; try done.
    + rewrite E4, Hc, length_app. cbn. lia.
    + congruence.
    + by rewrite E1.
    + by rewrite E2.
Qed.

Lemma side_inv_nil (k : Z) : side_inv k [] [].
Proof.
  split; [by intros i x p _ Hx|]. exists []. split_and!; [done| |constructor].
  cbn. lia.
Qed.

Lemma ranked_numeric (skey : string) (ranked : list (float * Sample)) :
  Forall (ranked_by skey) ranked → Forall (numeric_rank skey) (ranked.*2).
Proof.
  intros H. apply Forall_fmap. eapply Forall_impl; [exact H|].
  intros r [Hv _]. by exists r.1.
Qed.

(** What the invariant of a side says of its entries, in the words of the
    source: [entry_lt] is the comparison the heap makes. *)
Lemma side_inv_best (all heap seen : list entry) (k : Z) :
  numbered all → Forall (λ e, e ∈ all) seen → side_inv k seen heap →
  ∃ dropped,
    heap ++ dropped ≡ₚ seen ∧
    length heap = min (Z.to_nat k) (length seen) ∧
    (∀ kept drop, kept ∈ heap → drop ∈ dropped → entry_lt kept drop = Ok false) ∧
    (∀ root kept, heap !! 0%nat = Some root → kept ∈ heap → entry_lt kept root = Ok false) ∧
    (∀ v i s w j s', (FNum v, i, s) ∈ heap → (FNum w, j, s') ∈ dropped →
       (v <? w)%float = false).
Proof.
  intros Hall Hseen [Hord (dropped & Hperm & Hlen & Hbest)].
  assert (Forall (λ e, e ∈ all) (heap ++ dropped)) as Hin by (by rewrite Hperm).
  apply Forall_app in Hin as [Hh Hd]. rewrite Forall_forall in Hh, Hd.
  assert (∀ kept drop, kept ∈ heap → drop ∈ dropped → entry_lt kept drop = Ok false) as Hlt.
  { intros kept drop Hk Hdr. rewrite (entry_lt_ltb all Hall) by auto.
    rewrite Forall_forall in Hbest. specialize (Hbest drop Hdr).
    rewrite Forall_forall in Hbest. by rewrite Hbest. }
  exists dropped. split_and!; try done.
  - intros root kept Hroot [i Hk]%list_elem_of_lookup_1.
    rewrite (entry_lt_ltb all Hall); [|by apply Hh; eapply list_elem_of_lookup_2|
                                       by apply Hh; eapply list_elem_of_lookup_2].
    f_equal.
    apply (heap_ordered_root (λ e, e ∈ all) entry_ltb
             (entry_ltb_irrefl all Hall) (entry_ltb_negtrans all Hall) heap root) with i;
      try done.
    by apply Forall_forall.
  - intros v i s w j s' Hk Hdr. specialize (Hlt _ _ Hk Hdr). cbn in Hlt.
    destruct (v =? w)%float eqn:Eq; cbn in Hlt.
    + by apply eqb_ltb_false.
    + by injection Hlt.
Qed.

End FilterBest.

Section FilterTheorems.
Import TopBottomKFilter.

(** X1. Appends of samples ranked by numbers other than NaN to a new filter
    return, and the top heap then holds the [top_k] best of them (all of them
    if fewer were appended): the heap and the entries that left it are the
    entries built for the appended samples, no kept entry is below a dropped
    one in the order of the heap (ties on the value are decided by the later
    append), the root of the heap is the least of the kept entries, and no
    kept sample ranks below a dropped one. *)
Theorem filter_keeps_top_k (top_k bottom_k : Z) (skey : string)
    (ranked : list (float * Sample)) :
  Forall (ranked_by skey) ranked →
  ∃ f dropped,
    filter_append_all (__init__ top_k bottom_k skey) (ranked.*2) = Ok f ∧
    _top_heap f ++ dropped ≡ₚ top_entries ranked ∧
    length (_top_heap f) = min (Z.to_nat top_k) (length ranked) ∧
    (∀ kept drop, kept ∈ _top_heap f → drop ∈ dropped → entry_lt kept drop = Ok false) ∧
    (∀ root kept, _top_heap f !! 0%nat = Some root → kept ∈ _top_heap f →
       entry_lt kept root = Ok false) ∧
    (∀ v i s w j s', (FNum v, i, s) ∈ _top_heap f → (FNum w, j, s') ∈ dropped →
       (v <? w)%float = false).
Proof.
  intros Hr.
  destruct (filter_append_all_total [] (ranked.*2) (__init__ top_k bottom_k skey))
    as [f Hf]; try done.
  { by apply ranked_numeric. }
  destruct (filter_append_all_keeps skey [] ranked (__init__ top_k bottom_k skey) f)
    as [Ht _]; try done; try apply side_inv_nil.
  cbn in Ht.
  destruct (side_inv_best (top_entries ranked) (_top_heap f) (top_entries ranked) top_k)
    as (dropped & H1 & H2 & H3 & H4 & H5); try done.
  { by eapply numbered_top_entries. }
  { by apply Forall_forall. }
  exists f, dropped. split_and!; try done.
  by rewrite H2; unfold top_entries; rewrite length_imap.
Qed.

Lemma filter_keeps_top_k_witness :
  ∃ f dropped,
    filter_append_all (__init__ 2 1 "reward")
      [reward_sample 5; reward_sample 1; reward_sample 9] = Ok f ∧
    _top_heap f ++ dropped
    ≡ₚ top_entries [(5%float, reward_sample 5); (1%float, reward_sample 1);
                    (9%float, reward_sample 9)] ∧
    length (_top_heap f) = 2%nat.
Proof.
  destruct (filter_keeps_top_k 2 1 "reward"
              [(5%float, reward_sample 5); (1%float, reward_sample 1);
               (9%float, reward_sample 9)])
    as (f & dropped & H1 & H2 & H3 & _).
  - repeat constructor; cbn; done.
  - exists f, dropped. split_and!; done.
Defined.

(** X2. Likewise the bottom heap holds the [bottom_k] worst of the appended
    samples: its entries carry the negated values, so the heap keeps the
    greatest negations, and no dropped sample ranks below a kept one. *)
Theorem filter_keeps_bottom_k (top_k bottom_k : Z) (skey : string)
    (ranked : list (float * Sample)) :
  Forall (ranked_by skey) ranked →
  ∃ f dropped,
    filter_append_all (__init__ top_k bottom_k skey) (ranked.*2) = Ok f ∧
    _bottom_heap f ++ dropped ≡ₚ bottom_entries ranked ∧
    length (_bottom_heap f) = min (Z.to_nat bottom_k) (length ranked) ∧
    (∀ kept drop, kept ∈ _bottom_heap f → drop ∈ dropped → entry_lt kept drop = Ok false) ∧
    (∀ root kept, _bottom_heap f !! 0%nat = Some root → kept ∈ _bottom_heap f →
       entry_lt kept root = Ok false) ∧
    (∀ v i s w j s',
       (FNum (- v)%float, i, s) ∈ _bottom_heap f → (FNum (- w)%float, j, s') ∈ dropped →
       (w <? v)%float = false).
Proof.
  intros Hr.
  destruct (filter_append_all_total [] (ranked.*2) (__init__ top_k bottom_k skey))
    as [f Hf]; try done.
  { by apply ranked_numeric. }
  destruct (filter_append_all_keeps skey [] ranked (__init__ top_k bottom_k skey) f)
    as [_ Hb]; try done; try apply side_inv_nil.
  cbn in Hb.
  destruct (side_inv_best (bottom_entries ranked) (_bottom_heap f) (bottom_entries ranked)
              bottom_k) as (dropped & H1 & H2 & H3 & H4 & H5); try done.
  { by eapply numbered_bottom_entries. }
  { by apply Forall_forall. }
  exists f, dropped. split_and!; try done.
  - by rewrite H2; unfold bottom_entries; rewrite length_imap.
  - intros v i s w j s' Hk Hd. rewrite <- ltb_opp. by eapply H5.
Qed.

Lemma filter_keeps_bottom_k_witness :
  ∃ f dropped,
    filter_append_all (__init__ 2 1 "reward")
      [reward_sample 5; reward_sample 1; reward_sample 9] = Ok f ∧
    _bottom_heap f ++ dropped
    ≡ₚ bottom_entries [(5%float, reward_sample 5); (1%float, reward_sample 1);
                       (9%float, reward_sample 9)] ∧
    length (_bottom_heap f) = 1%nat.
Proof.
  destruct (filter_keeps_bottom_k 2 1 "reward"
              [(5%float, reward_sample 5); (1%float, reward_sample 1);
               (9%float, reward_sample 9)])
    as (f & dropped & H1 & H2 & H3 & _).
  - repeat constructor; cbn; done.
  - exists f, dropped. split_and!; done.
Defined.

End FilterTheorems.

(** ** The samples a filter holds, whatever they are ranked by *)

Section FilterItems.
Import TopBottomKFilter.

Lemma keep_side_items (k : Z) (n : nat) (heap heap' : list entry) (item : entry) :
  length heap = min (Z.to_nat k) n →
  (if decide (0 < k)%Z then
     if decide (Z.of_nat (length heap) < k)%Z
     then heapq.heappush entry_lt heap item
     else fst <$> heapq.heappushpop entry_lt heap item
   else Ok heap) = Ok heap' →
  length heap' = min (Z.to_nat k) (S n) ∧ heap' ⊆+ item :: heap.
Proof.
  intros Hlen. case_decide as Hk.
  2:{ intros [= <-]. split; [lia|]. by apply submseteq_cons. }
  case_decide as Hlt.
  - intros E. pose proof (heappush_length _ _ _ _ E).
    apply heappush_Permutation in E. split; [lia|]. by rewrite E.
  - destruct (heapq.heappushpop _ _ _) as [[h out]|] eqn:E; cbn; [|done].
    intros [= <-]. pose proof (heappushpop_length _ _ _ _ _ E).
    apply heappushpop_Permutation in E. split; [lia|].
    rewrite <- E. by apply submseteq_cons.
Qed.

Lemma imap_snoc {A B : Type} (g : nat → A → B) (l : list A) (x : A) :
  imap g (l ++ [x]) = imap g l ++ [g (length l) x].
Proof. rewrite imap_app. cbn. by rewrite Nat.add_0_r. Qed.

Lemma filter_append_items (pre : list Sample) (sample : Sample) (self self' : t) (b : bool) :
  _counter self = length pre →
  length (_top_heap self) = min (Z.to_nat (top_k self)) (length pre) →
  length (_bottom_heap self) = min (Z.to_nat (bottom_k self)) (length pre) →
  _top_heap self ⊆+ imap (top_entry (key self)) pre →
  entry_origin <$> _bottom_heap self ⊆+ imap pair pre →
  filter_append self sample = Ok (self', b) →
  length (_top_heap self') = min (Z.to_nat (top_k self)) (length (pre ++ [sample])) ∧
  length (_bottom_heap self') = min (Z.to_nat (bottom_k self)) (length (pre ++ [sample])) ∧
  _top_heap self' ⊆+ imap (top_entry (key self)) (pre ++ [sample]) ∧
  entry_origin <$> _bottom_heap self' ⊆+ imap pair (pre ++ [sample]).
Proof.
  intros Hc Hlt Hlb Ht Hb. unfold filter_append. rewrite Hc.
  destruct (if decide (0 < top_k self)%Z then _ else _) as [top|] eqn:Et; cbn; [|done].
  destruct (if decide (0 < bottom_k self)%Z then _ else _) as [bottom|] eqn:Eb; cbn; [|done].
  intros [= <- <-]. cbn. rewrite length_app, !imap_snoc. cbn [length].
  rewrite Nat.add_1_r.
  apply keep_side_items with (n := length pre) in Et as [Et1 Et2]; [|done].
  split_and!; try done.
  - revert Eb. case_decide as Hk; [|intros [= <-]; lia].
    destruct (field_neg _) as [nval|]; cbn; [|done].
    intros Eb. eapply (keep_side_items (bottom_k self) (length pre)); [done|].
    rewrite decide_True by done. exact Eb.
  - etrans; [exact Et2|]. rewrite <- Permutation_cons_append. by apply submseteq_skip.
  - revert Eb. case_decide as Hk.
    2:{ intros [= <-]. rewrite Hb. by apply submseteq_inserts_r. }
    destruct (field_neg _) as [nval|]; cbn; [|done].
    intros Eb.
    destruct (keep_side_items (bottom_k self) (length pre) (_bottom_heap self) bottom
                (nval, length pre, sample) Hlb) as [_ Eb'].
    { by rewrite decide_True by done. }
    etrans; [apply (fmap_submseteq entry_origin), Eb'|]. cbn.
    rewrite <- Permutation_cons_append. by apply submseteq_skip.
Qed.

Lemma filter_append_all_items_from (pre post : list Sample) (self self' : t) :
  _counter self = length pre →
  length (_top_heap self) = min (Z.to_nat (top_k self)) (length pre) →
  length (_bottom_heap self) = min (Z.to_nat (bottom_k self)) (length pre) →
  _top_heap self ⊆+ imap (top_entry (key self)) pre →
  entry_origin <$> _bottom_heap self ⊆+ imap pair pre →
  filter_append_all self post = Ok self' →
  length (_top_heap self') = min (Z.to_nat (top_k self)) (length (pre ++ post)) ∧
  length (_bottom_heap self') = min (Z.to_nat (bottom_k self)) (length (pre ++ post)) ∧
  _top_heap self' ⊆+ imap (top_entry (key self)) (pre ++ post) ∧
  entry_origin <$> _bottom_heap self' ⊆+ imap pair (pre ++ post).
Proof.
  revert pre self. induction post as [|s post IH]; intros pre self Hc Hlt Hlb Ht Hb; cbn.
  - intros [= <-]. by rewrite app_nil_r.
  - destruct (filter_append self s) as [[f b]|] eqn:E; cbn; [|done].
    pose proof (filter_append_shape _ _ _ _ E) as (_ & E1 & E2 & E3 & E4 & _).
    destruct (filter_append_items pre s self f b Hc Hlt Hlb Ht Hb E) as (H1 & H2 & H3 & H4).
    intros Hrest.
    replace (pre ++ s :: post) with ((pre ++ [s]) ++ post) by (by rewrite <- app_assoc).
    rewrite <- E1, <- E2, <- E3. apply IH; try done.
    + rewrite E4, Hc, length_app. cbn. lia.
    + by rewrite E1.
    + by rewrite E2.
    + by rewrite E3.
Qed.

Lemma fmap_snd_imap {A B : Type} (g : nat → A → B * A) (l : list A) :
  (∀ i x, (g i x).2 = x) → snd <$> imap g l = l.
Proof.
  revert g. induction l as [|x l IH]; intros g Hg; [done|].
  cbn. rewrite Hg. f_equal. apply IH. intros i y. apply Hg.
Qed.

Lemma fmap_snd_top_entries (skey : string) (samples : list Sample) :
  snd <$> imap (top_entry skey) samples = samples.
Proof. by apply fmap_snd_imap. Qed.

Lemma fmap_snd_pairs (samples : list Sample) :
  snd <$> imap pair samples = samples.
Proof. by apply fmap_snd_imap. Qed.

(** X3. Whatever the samples are ranked by (numbers, NaN, text, nothing),
    when the appends to a new filter return, each heap holds as many entries
    as its bound allows, no more and no fewer; the entries of the top heap are
    entries built for the appended samples, each at most once, and so are
    those of the bottom heap up to the negated value; [filter_flush] returns
    that many samples, and only samples that were appended. The appends do
    return when the ranking fields are numbers. *)
Theorem filter_append_all_items (top_k bottom_k : Z) (skey : string)
    (samples : list Sample) :
  (Forall (numeric_rank skey) samples →
   ∃ f, filter_append_all (__init__ top_k bottom_k skey) samples = Ok f) ∧
  (∀ f, filter_append_all (__init__ top_k bottom_k skey) samples = Ok f →
     length (_top_heap f) = min (Z.to_nat top_k) (length samples) ∧
     length (_bottom_heap f) = min (Z.to_nat bottom_k) (length samples) ∧
     _top_heap f ⊆+ imap (top_entry skey) samples ∧
     entry_origin <$> _bottom_heap f ⊆+ imap pair samples ∧
     (∀ l, length (filter_flush f l)
           = (min (Z.to_nat bottom_k) (length samples)
              + min (Z.to_nat top_k) (length samples))%nat ∧
           filter_flush f l ⊆ samples)).
Proof.
  split; [intros Hnum; by apply (filter_append_all_total [] samples)|].
  intros f Hf.
  destruct (filter_append_all_items_from [] samples (__init__ top_k bottom_k skey) f)
    as (H1 & H2 & H3 & H4); try done; try (cbn; lia).
  cbn in H1, H2, H3, H4. split_and!; try done.
  intros l. unfold filter_flush. split.
  - rewrite length_app, !length_fmap. unfold entry in *. lia.
  - intros s [Hs|Hs]%elem_of_app.
    + apply (fmap_submseteq snd) in H4. rewrite <- list_fmap_compose in H4.
      rewrite fmap_snd_pairs in H4. by eapply elem_of_submseteq.
    + apply (fmap_submseteq snd) in H3. rewrite fmap_snd_top_entries in H3.
      by eapply elem_of_submseteq.
Qed.

(** X4. While no more samples were appended than either bound, both heaps
    hold them all, and [filter_flush] returns every sample twice. *)
Theorem filter_flush_returns_twice (top_k bottom_k : Z) (skey : string)
    (samples l : list Sample) (f : t) :
  (Z.of_nat (length samples) ≤ top_k)%Z → (Z.of_nat (length samples) ≤ bottom_k)%Z →
  filter_append_all (__init__ top_k bottom_k skey) samples = Ok f →
  filter_flush f l ≡ₚ samples ++ samples.
Proof.
  intros Ht Hb Hf.
  destruct (filter_append_all_items_from [] samples (__init__ top_k bottom_k skey) f)
    as (H1 & H2 & H3 & H4); try done; try (cbn; lia).
  cbn in H1, H2, H3, H4. unfold filter_flush.
  apply submseteq_length_Permutation in H3; [|rewrite length_imap; lia].
  apply submseteq_length_Permutation in H4; [|rewrite length_fmap, length_imap; lia].
  apply (fmap_Permutation snd) in H3, H4.
  rewrite <- list_fmap_compose in H4.
  rewrite fmap_snd_top_entries in H3. rewrite fmap_snd_pairs in H4.
  change (snd ∘ entry_origin) with (@snd (Field * nat) Sample) in H4.
  by rewrite H3, H4.
Qed.

Lemma filter_flush_returns_twice_witness :
  ∃ f, filter_append_all (__init__ 1 1 "reward") [reward_sample 5] = Ok f ∧
       filter_flush f [] ≡ₚ [reward_sample 5; reward_sample 5].
Proof.
  eexists. split; [vm_compute; reflexivity|].
  apply (filter_flush_returns_twice 1 1 "reward" [reward_sample 5] []); [cbn; lia|cbn; lia|].
  vm_compute. reflexivity.
Defined.

End FilterItems.

(** ** The accumulators on any list of numbers *)

Section AccumulatorFacts.

Lemma nan_Prim2SF (x : float) : Prim2SF x = S754_nan ↔ x = nan.
Proof.
  split; [|by intros ->]. intros H. apply Prim2SF_inj. by rewrite H.
Qed.

Lemma not_nan_nan (x : float) : ¬ not_nan x ↔ x = nan.
Proof.
  rewrite <- nan_Prim2SF. unfold not_nan. split; [|tauto].
  intros H. by destruct (Prim2SF x); try done; destruct H.
Qed.

Lemma ltb_nan (x : float) : (x <? nan)%float = false.
Proof. rewrite ltb_spec. by destruct (Prim2SF x) as [[]|[]| |[] m e]. Qed.

Lemma py_max_nan (a : float) : py_max a nan = a.
Proof. unfold py_max. by rewrite ltb_nan. Qed.

Lemma py_min_nan (a : float) : py_min a nan = a.
Proof. unfold py_min. by rewrite ltb_spec. Qed.

Lemma neg_infinity_least (v : float) :
  not_nan v → (neg_infinity <? v)%float = false → v = neg_infinity.
Proof.
  unfold not_nan. rewrite ltb_spec. intros Hn H. apply Prim2SF_inj.
  by destruct (Prim2SF v) as [[]|[]| |[] m e].
Qed.

Lemma infinity_greatest (v : float) :
  not_nan v → (v <? infinity)%float = false → v = infinity.
Proof.
  unfold not_nan. rewrite ltb_spec. intros Hn H. apply Prim2SF_inj.
  by destruct (Prim2SF v) as [[]|[]| |[] m e].
Qed.

(** The running maximum is one of the numbers seen and below none of them. *)
Lemma fold_py_max_spec (l : list float) (a : float) :
  not_nan a →
  (fold_left py_max l a <? a)%float = false ∧
  (∀ v, v ∈ l → (fold_left py_max l a <? v)%float = false) ∧
  (fold_left py_max l a = a ∨ fold_left py_max l a ∈ l).
Proof.
  revert a. induction l as [|v l IH]; intros a Ha; cbn [fold_left].
  { split_and!; [|by intros v Hv%elem_of_nil|by left].
    rewrite ltb_spec. unfold not_nan in Ha.
    destruct (Prim2SF a) as [[]|[]| |[] m e] eqn:E; try done;
      unfold SFltb, SFcompare; cbn; try done;
      by rewrite ?Z.compare_refl, ?Pos.compare_cont_refl, ?Pos.compare_refl. }
  destruct (IH (py_max a v) (py_max_not_nan a v Ha)) as (H1 & H2 & H3).
  set (r := fold_left py_max l (py_max a v)) in *.
  assert ((r <? a)%float = false ∧ (r <? v)%float = false) as [Hra Hrv].
  { unfold py_max in H1. destruct (a <? v)%float eqn:E.
    - split; [|done]. destruct (r <? a)%float eqn:E'; [|done].
      by rewrite (ltb_trans _ _ _ E' E) in H1.
    - split; [done|]. by apply (ltb_negtrans r a v). }
  split_and!; [done| |].
  - intros w [->|Hw]%elem_of_cons; [done|by apply H2].
  - destruct H3 as [H3|H3]; [|right; by apply elem_of_cons; right].
    rewrite H3. unfold py_max. destruct (a <? v)%float; [right; by left|by left].
Qed.

Lemma fold_py_min_spec (l : list float) (a : float) :
  not_nan a →
  (a <? fold_left py_min l a)%float = false ∧
  (∀ v, v ∈ l → (v <? fold_left py_min l a)%float = false) ∧
  (fold_left py_min l a = a ∨ fold_left py_min l a ∈ l).
Proof.
  revert a. induction l as [|v l IH]; intros a Ha; cbn [fold_left].
  { split_and!; [|by intros v Hv%elem_of_nil|by left].
    rewrite ltb_spec. unfold not_nan in Ha.
    destruct (Prim2SF a) as [[]|[]| |[] m e] eqn:E; try done;
      unfold SFltb, SFcompare; cbn; try done;
      by rewrite ?Z.compare_refl, ?Pos.compare_cont_refl, ?Pos.compare_refl. }
  destruct (IH (py_min a v) (py_min_not_nan a v Ha)) as (H1 & H2 & H3).
  set (r := fold_left py_min l (py_min a v)) in *.
  assert ((a <? r)%float = false ∧ (v <? r)%float = false) as [Hra Hrv].
  { unfold py_min in H1. destruct (v <? a)%float eqn:E.
    - split; [|done]. destruct (a <? r)%float eqn:E'; [|done].
      by rewrite (ltb_trans _ _ _ E E') in H1.
    - split; [done|]. by apply (ltb_negtrans v a r). }
  split_and!; [done| |].
  - intros w [->|Hw]%elem_of_cons; [done|by apply H2].
  - destruct H3 as [H3|H3]; [|right; by apply elem_of_cons; right].
    rewrite H3. unfold py_min. destruct (v <? a)%float; [right; by left|by left].
Qed.

Lemma fold_py_max_all_nan (l : list float) (a : float) :
  Forall (λ v, v = nan) l → fold_left py_max l a = a.
Proof.
  induction 1 as [|v l -> _ IH]; [done|]. cbn. by rewrite py_max_nan.
Qed.

Lemma fold_py_min_all_nan (l : list float) (a : float) :
  Forall (λ v, v = nan) l → fold_left py_min l a = a.
Proof.
  induction 1 as [|v l -> _ IH]; [done|]. cbn. by rewrite py_min_nan.
Qed.

(** X5. Fed any list of numbers, a new MAX accumulator returns and holds a
    value that is not NaN and is below none of the numbers, and a new MIN
    accumulator one that none of the numbers is below; NaN values are passed
    over. The value held is one of the numbers appended as soon as one of
    them is not NaN, and the initial [-inf] (MAX) or [inf] (MIN) when all of
    them are NaN or there is none. *)
Theorem max_min_accumulators (values : list float) :
  ∃ hi lo,
    accumulate MAX values = Ok (MetricAccumulator.Max (MaxAccumulator.mk MAX hi)) ∧
    accumulate MIN values = Ok (MetricAccumulator.Min (MinAccumulator.mk MIN lo)) ∧
    not_nan hi ∧ not_nan lo ∧
    (∀ v, v ∈ values → (hi <? v)%float = false ∧ (v <? lo)%float = false) ∧
    (Forall (λ v, v = nan) values → hi = neg_infinity ∧ lo = infinity) ∧
    (Exists not_nan values → hi ∈ values ∧ lo ∈ values).
Proof.
  exists (fold_left py_max values neg_infinity), (fold_left py_min values infinity).
  destruct (fold_py_max_spec values neg_infinity not_nan_neg_infinity) as (_ & Hx2 & Hx3).
  destruct (fold_py_min_spec values infinity not_nan_infinity) as (_ & Hn2 & Hn3).
  split_and!.
  - apply accumulate_max_from.
  - apply accumulate_min_from.
  - apply fold_py_max_not_nan, not_nan_neg_infinity.
  - apply fold_py_min_not_nan, not_nan_infinity.
  - intros v Hv. split; [by apply Hx2|by apply Hn2].
  - intros Hall. by rewrite fold_py_max_all_nan, fold_py_min_all_nan.
  - intros (v & Hv & Hnan)%Exists_exists. split.
    + destruct Hx3 as [Hx3|]; [|done]. rewrite Hx3 in *.
      by rewrite <- (neg_infinity_least v Hnan (Hx2 v Hv)).
    + destruct Hn3 as [Hn3|]; [|done]. rewrite Hn3 in *.
      by rewrite <- (infinity_greatest v Hnan (Hn2 v Hv)).
Qed.

(** *** [reset] *)

Lemma filter_append_reset (f f' : TopBottomKFilter.t) (sample : Sample) (b : bool) :
  TopBottomKFilter.filter_append f sample = Ok (f', b) →
  TopBottomKFilter.reset f' = TopBottomKFilter.reset f.
Proof.
  intros H. pose proof (filter_append_shape _ _ _ _ H) as (_ & E1 & E2 & E3 & _).
  unfold TopBottomKFilter.reset. by rewrite E1, E2, E3.
Qed.

Lemma acc_call_reset (acc acc' : MetricAccumulator.t) (c : AccCall) :
  acc_call acc c = Ok acc' → MetricAccumulator.reset acc' = MetricAccumulator.reset acc.
Proof.
  destruct c as [value|]; cbn.
  2:{ intros [= <-]. by destruct acc as [a|a|a|a|a|a]. }
  destruct acc as [a|a|a|a|a|a]; cbn;
    [unfold MeanAccumulator.append | unfold SumAccumulator.append
    | unfold MaxAccumulator.append | unfold MinAccumulator.append
    | unfold StdAccumulator.append | unfold SampleAccumulator.append ];
    try (destruct (to_float value); cbn; intros [= <-]; done).
  destruct value as [f|d|l|r]; cbn; try done.
  destruct (TopBottomKFilter.filter_append _ _) as [[f b]|] eqn:E; cbn; [|done].
  intros [= <-]. cbn. unfold SampleAccumulator.reset. cbn.
  by rewrite (filter_append_reset _ _ _ _ E).
Qed.

Lemma acc_calls_reset (acc acc' : MetricAccumulator.t) (cs : list AccCall) :
  acc_calls acc cs = Ok acc' → MetricAccumulator.reset acc' = MetricAccumulator.reset acc.
Proof.
  revert acc. induction cs as [|c cs IH]; intros acc; cbn; [by intros [= <-]|].
  destruct (acc_call acc c) as [acc1|] eqn:E; cbn; [|done].
  intros H. rewrite (IH _ H). by eapply acc_call_reset.
Qed.

(** X6. [reset] brings an accumulator back to the object its class builds:
    whatever calls to [append] and [reset] an accumulator made by
    [accumulator_class] has seen, after [reset] it is equal to a new
    accumulator of the same class and reduction (sums, counts and extrema at
    their initial values, the sample filter with empty heaps, its bounds and
    key kept, and its counter back at zero). *)
Theorem reset_restores_new (cls reduction : Reduce) (calls : list AccCall)
    (acc : MetricAccumulator.t) :
  acc_calls (accumulator_class cls reduction) calls = Ok acc →
  MetricAccumulator.reset acc = accumulator_class cls reduction.
Proof.
  intros H. rewrite (acc_calls_reset _ _ _ H). by destruct cls.
Qed.

Lemma reset_restores_new_witness :
  ∃ acc,
    acc_calls (accumulator_class SAMPLE SAMPLE)
      [Append (VDict (reward_sample 5)); Append (VDict (reward_sample 1))] = Ok acc ∧
    MetricAccumulator.reset acc = accumulator_class SAMPLE SAMPLE.
Proof.
  eexists. split; [vm_compute; reflexivity|].
  apply (reset_restores_new SAMPLE SAMPLE
           [Append (VDict (reward_sample 5)); Append (VDict (reward_sample 1))]).
  vm_compute. reflexivity.
Defined.

(** *** NaN *)

Lemma add_nan_l (x : float) : (nan + x)%float = nan.
Proof. apply Prim2SF_inj. by rewrite add_spec. Qed.

Lemma add_nan_r (x : float) : (x + nan)%float = nan.
Proof.
  apply Prim2SF_inj. rewrite add_spec. by destruct (Prim2SF x) as [[]|[]| |[] m e].
Qed.

Lemma div_nan_l (x : float) : (nan / x)%float = nan.
Proof. apply Prim2SF_inj. by rewrite div_spec. Qed.

Lemma sub_nan_l (x : float) : (nan - x)%float = nan.
Proof. apply Prim2SF_inj. by rewrite sub_spec. Qed.

Lemma mul_nan_l (x : float) : (nan * x)%float = nan.
Proof. apply Prim2SF_inj. by rewrite mul_spec. Qed.

Lemma fold_add_nan (l : list float) : fold_left add l nan = nan.
Proof. induction l as [|v l IH]; [done|]. cbn. by rewrite add_nan_l. Qed.

Lemma fold_add_square_nan (l : list float) : fold_left add_square l nan = nan.
Proof.
  induction l as [|v l IH]; [done|]. cbn [fold_left].
  replace (add_square nan v) with nan; [done|]. unfold add_square. by rewrite add_nan_l.
Qed.

(** Once NaN is added, a running sum is NaN. *)
Lemma fold_add_has_nan (l : list float) (a : float) :
  nan ∈ l → fold_left add l a = nan.
Proof.
  revert a. induction l as [|v l IH]; intros a; [by intros ?%elem_of_nil|].
  intros [<-|H]%elem_of_cons; cbn; [|by apply IH].
  by rewrite add_nan_r, fold_add_nan.
Qed.

Lemma fold_add_square_has_nan (l : list float) (a : float) :
  nan ∈ l → fold_left add_square l a = nan.
Proof.
  revert a. induction l as [|v l IH]; intros a; [by intros ?%elem_of_nil|].
  intros [<-|H]%elem_of_cons; cbn [fold_left]; [|by apply IH].
  replace (add_square a nan) with nan; [apply fold_add_square_nan|].
  unfold add_square. by rewrite mul_nan_l, add_nan_r.
Qed.

Lemma accumulate_sum_from (r : Reduce) (s : float) (values : list float) :
  acc_calls (MetricAccumulator.Sum (SumAccumulator.mk r s)) (Append ∘ VNum <$> values)
  = Ok (MetricAccumulator.Sum (SumAccumulator.mk r (fold_left add values s))).
Proof. revert s. induction values as [|v values IH]; intros s; [done|]. cbn. apply IH. Qed.

Lemma accumulate_std_sums (r : Reduce) (s q : float) (n : Z) (values : list float) :
  acc_calls (MetricAccumulator.Std (StdAccumulator.mk r s q n)) (Append ∘ VNum <$> values)
  = Ok (MetricAccumulator.Std
          (StdAccumulator.mk r (fold_left add values s) (fold_left add_square values q)
             (n + Z.of_nat (length values)))).
Proof.
  revert s q n. induction values as [|v values IH]; intros s q n.
  { cbn. by rewrite Z.add_0_r. }
  cbn [fmap list_fmap acc_calls compose]. cbn -[Z.add Z.of_nat]. rewrite IH.
  do 3 f_equal. cbn [length]. lia.
Qed.

(** X7. A NaN among the numbers appended to a new accumulator: SUM and MEAN
    then read NaN, whatever the other numbers are, while STD reads [0.0] for
    one number and [0.0 ** 0.5] for two or more, not NaN: its guard
    [max(0.0, variance)] keeps [0.0] when the variance is NaN. *)
Theorem nan_in_accumulators (values : list float) :
  nan ∈ values →
  (MetricAccumulator.get_value <$> accumulate SUM values = Ok (VNum nan)) ∧
  (MetricAccumulator.get_value <$> accumulate MEAN values = Ok (VNum nan)) ∧
  (MetricAccumulator.get_value <$> accumulate STD values
   = Ok (VNum (if decide (length values = 1%nat) then 0%float else pow_half 0))).
Proof.
  intros Hnan.
  assert (0 < length values)%nat as Hlen.
  { destruct values; [by apply elem_of_nil in Hnan|cbn; lia]. }
  unfold accumulate. split_and!.
  - cbn [accumulator_class]. unfold SumAccumulator.__init__.
    rewrite accumulate_sum_from. cbn. by rewrite fold_add_has_nan.
  - cbn [accumulator_class]. unfold MeanAccumulator.__init__.
    rewrite accumulate_mean_from. cbn -[Z.add Z.of_nat].
    unfold MeanAccumulator.get_value. cbn -[Z.add Z.of_nat].
    rewrite decide_True by lia. by rewrite fold_add_has_nan, div_nan_l.
  - cbn [accumulator_class]. unfold StdAccumulator.__init__.
    rewrite accumulate_std_sums. cbn -[Z.add Z.of_nat].
    unfold StdAccumulator.get_value, StdAccumulator.std_of. cbn -[Z.add Z.of_nat].
    rewrite decide_False by lia. do 2 f_equal.
    destruct (decide (length values = 1%nat)) as [E|E].
    + rewrite decide_True by lia. done.
    + rewrite decide_False by lia.
      rewrite fold_add_has_nan, fold_add_square_has_nan by done.
      by rewrite !div_nan_l, sub_nan_l, py_max_nan.
Qed.

Lemma nan_in_accumulators_witness :
  MetricAccumulator.get_value <$> accumulate MEAN [1; nan; 3]%float = Ok (VNum nan) ∧
  MetricAccumulator.get_value <$> accumulate STD [1; nan; 3]%float = Ok (VNum (pow_half 0)).
Proof.
  destruct (nan_in_accumulators [1; nan; 3]%float) as (_ & H2 & H3).
  - apply elem_of_cons. right. by left.
  - split; [exact H2|exact H3].
Defined.

End AccumulatorFacts.

(** ** reduce_metrics_states on states that agree *)

Section ReduceFacts.


Lemma check_consistency_Ok (key first : string) (ms : list AccState) :
  Forall (λ s, state_reduction_type s = first) ms → check_consistency key first ms = Ok ().
Proof.
  induction 1 as [|s ms Hs _ IH]; [done|]. cbn. rewrite Hs.
  by rewrite String.eqb_refl.
Qed.

(** The loop body on a key whose states are well formed and of one
    reduction type. *)
Lemma reduce_key_consistent (now : float) (states : list (gmap string AccState))
    (key : string) (first : AccState) (rest : list AccState) :
  metric_states_of key states = first :: rest →
  Forall well_formed (first :: rest) →
  Forall (λ s, state_reduction_type s = state_reduction_type first) (first :: rest) →
  ∃ v, get_reduced_value_from_states (state_class first) (first :: rest) = Ok v ∧
       reduce_key now states key = Ok (Some (Metric.mk key v (state_class first) now)).
Proof.
  intros E Hwf Hsame. unfold reduce_key. rewrite E.
  rewrite (check_consistency_Ok _ _ _ Hsame). cbn.
  assert (state_reduction_type first = Reduce_value (state_class first)) as Hf
    by (by inversion Hwf).
  rewrite Hf, Reduce_of_value_value. cbn.
  destruct (get_reduced_value_from_states_total (state_class first) (first :: rest))
    as [v Hv]; [done| |].
  - apply Forall_forall. intros s Hs. rewrite Forall_forall in Hwf, Hsame.
    apply Reduce_value_inj. rewrite <- (Hwf s Hs), <- Hf. by apply Hsame.
  - exists v. split; [done|]. by rewrite Hv.
Qed.





End ReduceFacts.

(** ** The collector through its calls *)

Section CollectorInvariant.
Import MetricCollector.

Lemma outcome_bind {A B : Type} (m : Eff A) (f : A → Eff B) (b : B) :
  outcome (m ≫= f) = Ok b → ∃ a, outcome m = Ok a ∧ outcome (f a) = Ok b.
Proof.
  unfold mbind, Eff_bind. destruct (outcome m) as [a|e]; cbn; [eauto|done].
Qed.

Lemma acc_inv_new (reduction : Reduce) : acc_inv (accumulator_class reduction reduction).
Proof. split; [by destruct reduction|apply accumulator_class_sums]. Qed.

Lemma acc_call_well_formed (acc acc' : MetricAccumulator.t) (c : AccCall) :
  well_formed (MetricAccumulator.get_state acc) → acc_call acc c = Ok acc' →
  well_formed (MetricAccumulator.get_state acc').
Proof.
  unfold well_formed. destruct c as [value|]; cbn.
  - destruct acc as [a|a|a|a|a|a]; cbn;
      [unfold MeanAccumulator.append | unfold SumAccumulator.append
      | unfold MaxAccumulator.append | unfold MinAccumulator.append
      | unfold StdAccumulator.append | unfold SampleAccumulator.append ];
      try (intros Hwf; destruct (to_float value); cbn; intros [= <-]; done).
    intros Hwf. destruct value; cbn; try done.
    destruct (TopBottomKFilter.filter_append _ _); cbn; intros [= <-]; done.
  - intros Hwf [= <-]. by destruct acc.
Qed.

Lemma acc_inv_call (acc acc' : MetricAccumulator.t) (c : AccCall) :
  acc_inv acc → acc_call acc c = Ok acc' → acc_inv acc'.
Proof.
  intros [H1 H2] H. split; [by eapply acc_call_well_formed|by eapply acc_call_sums].
Qed.

Lemma push_outcome (self self' : t) (metric : PyObject) :
  outcome (push self metric) = Ok self' →
  (_is_initialized self = false ∧ self' = self) ∨
  (∃ m acc, metric = IsMetric m ∧ _is_initialized self = true ∧
     MetricAccumulator.append
       (default (accumulator_class (Metric.reduction m) (Metric.reduction m))
                (accumulators self !! Metric.key m)) (Metric.value m) = Ok acc ∧
     self' = mk (<[Metric.key m := acc]> (accumulators self)) (rank self)
                (per_rank_reduce_backends self) (per_rank_no_reduce_backends self)
                (global_step self) true).
Proof.
  destruct (_is_initialized self) eqn:Hinit.
  - destruct metric as [m|repr].
    + rewrite (push_initialized self m Hinit). cbn [outcome].
      destruct (MetricAccumulator.append _ _) as [acc|] eqn:E; cbn; [|done].
      intros [= <-]. right. by exists m, acc.
    + unfold push. rewrite Hinit. done.
  - unfold push. rewrite Hinit. cbn. intros [= <-]. by left.
Qed.

Lemma flush_outcome (now : float) (self self' : t) (gs : Z) (rs : bool)
    (states : gmap string AccState) :
  outcome (flush now self gs rs) = Ok (states, self') →
  self' = self ∨
  (_is_initialized self = true ∧
   self' = mk (MetricAccumulator.reset <$> accumulators self) (rank self)
              (per_rank_reduce_backends self) (per_rank_no_reduce_backends self)
              (gs + 1) true).
Proof.
  destruct (_is_initialized self) eqn:Hinit.
  2:{ unfold flush. rewrite Hinit. cbn. intros [= _ <-]. by left. }
  destruct (decide (size (accumulators self) = 0%nat)) as [Hs|Hs].
  { unfold flush. rewrite Hinit. cbn [negb]. rewrite decide_True by done.
    cbn. intros [= _ <-]. by left. }
  rewrite (flush_initialized now self gs rs Hinit Hs). cbn zeta.
  destruct (per_rank_reduce_backends self); [cbn; intros [= _ <-]; by right|].
  destruct (reduce_metrics_states _ _); cbn; [intros [= _ <-]; by right|done].
Qed.

Lemma push_inv (self self' : t) (metric : PyObject) :
  collector_inv self → outcome (push self metric) = Ok self' → collector_inv self'.
Proof.
  intros Hinv [[_ ->]|(m & acc & -> & Hinit & Happ & ->)]%push_outcome; [done|].
  unfold collector_inv. cbn. apply map_Forall_insert_2; [|done].
  apply (acc_inv_call _ _ (Append (Metric.value m))) in Happ; [done|].
  destruct (accumulators self !! Metric.key m) as [acc0|] eqn:E; cbn.
  - by apply (Hinv _ _ E).
  - apply acc_inv_new.
Qed.

Lemma flush_inv (now : float) (self self' : t) (gs : Z) (rs : bool)
    (states : gmap string AccState) :
  collector_inv self → outcome (flush now self gs rs) = Ok (states, self') →
  collector_inv self'.
Proof.
  intros Hinv [->|[_ ->]]%flush_outcome; [done|].
  unfold collector_inv. cbn. apply map_Forall_fmap.
  intros k acc Hk. cbn. apply (acc_inv_call acc _ Reset); [|done]. by apply (Hinv k).
Qed.

Lemma collector_call_outcome (self self' : t) (c : CollectorCall) :
  outcome (collector_call self c) = Ok self' →
  match c with
  | Push metric => outcome (push self metric) = Ok self'
  | Flush now gs rs => ∃ states, outcome (flush now self gs rs) = Ok (states, self')
  end.
Proof.
  destruct c as [metric|now gs rs]; cbn [collector_call]; [done|].
  intros ([states c'] & H1 & H2)%outcome_bind. cbn in H2. injection H2 as <-. eauto.
Qed.

Lemma collector_calls_ind (P : t → Prop) (self self' : t) (calls : list CollectorCall) :
  (∀ c c' metric, P c → outcome (push c metric) = Ok c' → P c') →
  (∀ c c' now gs rs states, P c → outcome (flush now c gs rs) = Ok (states, c') → P c') →
  P self → outcome (collector_calls self calls) = Ok self' → P self'.
Proof.
  intros Hpush Hflush. revert self.
  induction calls as [|c calls IH]; intros self HP; cbn [collector_calls].
  { cbn. by intros [= <-]. }
  intros (c1 & H1 & H2)%outcome_bind. apply (IH c1); [|done].
  apply collector_call_outcome in H1. destruct c as [metric|now gs rs].
  - by eapply Hpush.
  - destruct H1 as [states H1]. by eapply Hflush.
Qed.

Lemma init_backends_outcome (self c : t) (config : list (string * string)) (gs : Z) :
  outcome (init_backends self config gs) = Ok c →
  accumulators c = accumulators self ∧ rank c = rank self ∧ _is_initialized c = true.
Proof.
  unfold init_backends. destruct (_is_initialized self) eqn:Hinit.
  - cbn. by intros [= <-].
  - intros (backends & _ & H)%outcome_bind. cbn in H. by injection H as <-.
Qed.

Lemma push_keeps_initialized (self self' : t) (metric : PyObject) :
  _is_initialized self = true → outcome (push self metric) = Ok self' →
  _is_initialized self' = true.
Proof. by intros Hinit [[_ ->]|(m & acc & -> & _ & _ & ->)]%push_outcome. Qed.

Lemma flush_keeps_initialized (now : float) (self self' : t) (gs : Z) (rs : bool)
    (states : gmap string AccState) :
  _is_initialized self = true → outcome (flush now self gs rs) = Ok (states, self') →
  _is_initialized self' = true.
Proof. by intros Hinit [->|[_ ->]]%flush_outcome. Qed.

(** A collector set up by [init_backends] and used through [push] and [flush]
    is initialised and keeps its accumulators as [push] builds them. *)
Lemma collector_built (rank0 : Z) (config : list (string * string)) (gs0 : Z)
    (calls : list CollectorCall) (self : t) :
  outcome (c ← init_backends (__init__ rank0) config gs0; collector_calls c calls) = Ok self →
  _is_initialized self = true ∧ collector_inv self.
Proof.
  intros (c0 & H0 & H)%outcome_bind.
  apply init_backends_outcome in H0 as (Ha & _ & Hinit).
  apply (collector_calls_ind (λ c, _is_initialized c = true ∧ collector_inv c) c0 self calls);
    try done.
  - intros c c' metric [H1 H2] Hp. split; [by eapply push_keeps_initialized|by eapply push_inv].
  - intros c c' now gs rs states [H1 H2] Hf.
    split; [by eapply flush_keeps_initialized|by eapply flush_inv].
  - split; [done|]. unfold collector_inv. rewrite Ha. cbn. apply map_Forall_empty.
Qed.

(** *** What [flush] reduces *)

Lemma metric_states_of_single (accs : gmap string MetricAccumulator.t) (key : string) :
  metric_states_of key [MetricAccumulator.get_state <$> accs]
  = match accs !! key with
    | Some acc => [MetricAccumulator.get_state acc]
    | None => []
    end.
Proof.
  unfold metric_states_of. cbn. rewrite lookup_fmap. by destruct (accs !! key).
Qed.

Lemma state_class_get_state (acc : MetricAccumulator.t) :
  state_class (MetricAccumulator.get_state acc) = class_of acc.
Proof. by destruct acc. Qed.

Lemma reduce_key_local (now : float) (accs : gmap string MetricAccumulator.t)
    (key : string) (acc : MetricAccumulator.t) :
  acc_inv acc → accs !! key = Some acc →
  reduce_key now [MetricAccumulator.get_state <$> accs] key
  = Ok (Some (local_metric now key acc)).
Proof.
  intros [Hwf Hsums] Hk.
  destruct (reduce_key_consistent now [MetricAccumulator.get_state <$> accs] key
              (MetricAccumulator.get_state acc) []) as (v & Hv & ->).
  - by rewrite metric_states_of_single, Hk.
  - by constructor.
  - by constructor.
  - rewrite state_class_get_state in *. rewrite (merge_own_state acc Hsums) in Hv.
    injection Hv as <-. done.
Qed.

Lemma reduce_keys_local (now : float) (accs : gmap string MetricAccumulator.t)
    (keys : list string) :
  map_Forall (λ _ acc, acc_inv acc) accs → (∀ k, k ∈ keys → is_Some (accs !! k)) →
  ∃ metrics,
    reduce_keys now [MetricAccumulator.get_state <$> accs] keys = Ok metrics ∧
    Forall2 (λ k m, ∃ acc, accs !! k = Some acc ∧ m = local_metric now k acc) keys metrics.
Proof.
  intros Hinv. induction keys as [|key keys IH]; intros Hkeys.
  { exists []. split; [done|constructor]. }
  destruct IH as (metrics & H1 & H2); [intros k Hk; apply Hkeys; by right|].
  destruct (Hkeys key ltac:(by left)) as [acc Hacc].
  exists (local_metric now key acc :: metrics). cbn [reduce_keys].
  rewrite (reduce_key_local now accs key acc (Hinv _ _ Hacc) Hacc), H1. cbn.
  split; [done|]. constructor; [eauto|done].
Qed.

Lemma all_keys_single (accs : gmap string MetricAccumulator.t) :
  all_keys [MetricAccumulator.get_state <$> accs] = dom accs.
Proof. unfold all_keys. cbn. by rewrite dom_fmap_L, (right_id_L ∅ (∪)). Qed.

(** Merging the one state dict of a collector gives, for every key, the value
    its accumulator reads locally. *)
Lemma reduce_metrics_states_local (now : float) (accs : gmap string MetricAccumulator.t) :
  map_Forall (λ _ acc, acc_inv acc) accs →
  ∃ metrics,
    reduce_metrics_states now [MetricAccumulator.get_state <$> accs] = Ok metrics ∧
    NoDup (Metric.key <$> metrics) ∧
    ∀ m, m ∈ metrics ↔ ∃ k acc, accs !! k = Some acc ∧ m = local_metric now k acc.
Proof.
  intros Hinv. unfold reduce_metrics_states. rewrite all_keys_single.
  destruct (reduce_keys_local now accs (elements (dom accs)) Hinv) as (metrics & H1 & H2).
  { intros k Hk%elem_of_elements. by apply elem_of_dom. }
  exists metrics. split; [done|].
  assert (Metric.key <$> metrics = elements (dom accs)) as Hkeys.
  { clear H1. induction H2 as [|k m ks ms (acc & _ & ->) _ IH]; [done|]. cbn. by rewrite IH. }
  split; [rewrite Hkeys; apply NoDup_elements|].
  intros m. split.
  - intros [i Hi]%list_elem_of_lookup_1.
    destruct (Forall2_lookup_r _ _ _ _ _ H2 Hi) as (k & _ & acc & Hacc & ->). eauto.
  - intros (k & acc & Hacc & ->).
    assert (k ∈ elements (dom accs)) as [i Hi]%list_elem_of_lookup_1.
    { apply elem_of_elements, elem_of_dom. eauto. }
    destruct (Forall2_lookup_l _ _ _ _ _ H2 Hi) as (m & Hm & acc' & Hacc' & ->).
    assert (acc' = acc) as -> by congruence. by eapply list_elem_of_lookup_2.
Qed.

(** X9. [flush] on a collector set up by [init_backends] and used through any
    calls to [push] and [flush] that returned raises nothing of its own: the
    merge of its states cannot fail. With at least one accumulator it hands
    every accumulate-then-flush backend the metrics
    reduced from its own accumulators alone, one per key, each carrying the
    value [get_value] of the accumulator of its key and the class of that
    accumulator as reduction; it returns the states of all accumulators when
    asked to, resets every accumulator while keeping its key, and sets the
    step to [global_step + 1]. *)
Theorem flush_reduces_locally (rank0 : Z) (config : list (string * string)) (gs0 : Z)
    (calls : list CollectorCall) (self : t) (now : float) (gs : Z) (rs : bool) :
  outcome (c ← init_backends (__init__ rank0) config gs0; collector_calls c calls) = Ok self →
  accumulators self ≠ ∅ →
  ∃ metrics,
    flush now self gs rs
    = mkEff (per_rank_reduce_backends self ≫= flush_events metrics gs)
        (Ok (if rs then MetricAccumulator.get_state <$> accumulators self else ∅,
             mk (MetricAccumulator.reset <$> accumulators self) (rank self)
                (per_rank_reduce_backends self) (per_rank_no_reduce_backends self)
                (gs + 1) true)) ∧
    NoDup (Metric.key <$> metrics) ∧
    (∀ m, m ∈ metrics ↔
          ∃ k acc, accumulators self !! k = Some acc ∧ m = local_metric now k acc) ∧
    map_Forall (λ _ acc, holds_no_data acc) (MetricAccumulator.reset <$> accumulators self).
Proof.
  intros [Hinit Hinv]%collector_built Hne.
  destruct (reduce_metrics_states_local now (accumulators self) Hinv) as (metrics & H1 & H2 & H3).
  exists metrics. split_and!; try done.
  - rewrite (flush_initialized now self gs rs Hinit).
    2:{ intros Hs. by apply map_size_empty_iff in Hs. }
    cbn zeta. rewrite H1. by destruct (per_rank_reduce_backends self).
  - apply map_Forall_fmap. intros k acc _. cbn. unfold holds_no_data.
    by destruct acc.
Qed.

Lemma flush_reduces_locally_witness :
  ∃ metrics,
    outcome (c ← init_backends (__init__ 0) [("console", "per_rank_reduce")] 0;
             collector_calls c [Push (IsMetric (Metric.mk "loss" (VNum 1) MEAN 0));
                                Push (IsMetric (Metric.mk "loss" (VNum 3) MEAN 0))])
    = Ok (mk {[ "loss" := MetricAccumulator.Mean (MeanAccumulator.mk MEAN 4 2) ]}
             0 ["console"] [] 0 true) ∧
    outcome (flush 7 (mk {[ "loss" := MetricAccumulator.Mean (MeanAccumulator.mk MEAN 4 2) ]}
                         0 ["console"] [] 0 true) 10 true)
    = Ok ({[ "loss" := MeanState "mean" 4 2 ]},
          mk {[ "loss" := MetricAccumulator.Mean (MeanAccumulator.mk MEAN 0 0) ]}
             0 ["console"] [] 11 true) ∧
    NoDup (Metric.key <$> metrics).
Proof.
  destruct (flush_reduces_locally 0 [("console", "per_rank_reduce")] 0
              [Push (IsMetric (Metric.mk "loss" (VNum 1) MEAN 0));
               Push (IsMetric (Metric.mk "loss" (VNum 3) MEAN 0))]
              (mk {[ "loss" := MetricAccumulator.Mean (MeanAccumulator.mk MEAN 4 2) ]}
                  0 ["console"] [] 0 true) 7 10 true)
    as (metrics & H1 & H2 & _).
  - vm_compute. reflexivity.
  - intros H. apply (f_equal (λ m : gmap string MetricAccumulator.t, m !! "loss")) in H.
    vm_compute in H. discriminate H.
  - exists metrics. split_and!; [vm_compute; reflexivity| |done].
    rewrite H1. cbn [outcome]. f_equal.
Defined.

(** *** The class of a key *)



End CollectorInvariant.

(** ** Pushes under one key, and the backends of a collector *)

Section CollectorBackends.
Import MetricCollector.

Lemma stream_events_same (self self' : t) (metric : Metric.t) :
  per_rank_no_reduce_backends self' = per_rank_no_reduce_backends self →
  global_step self' = global_step self →
  stream_events self' metric = stream_events self metric.
Proof. unfold stream_events. by intros -> ->. Qed.




(** *** [init_backends] and [shutdown] *)

Lemma LoggingMode_of_value_Ok (s : string) (mode : LoggingMode) :
  LoggingMode_of_value s = Ok mode →
  s = match mode with
      | GLOBAL_REDUCE => "global_reduce"
      | PER_RANK_REDUCE => "per_rank_reduce"
      | PER_RANK_NO_REDUCE => "per_rank_no_reduce"
      end.
Proof.
  unfold LoggingMode_of_value.
  destruct (String.eqb_spec s "global_reduce") as [->|]; [by intros [= <-]|].
  destruct (String.eqb_spec s "per_rank_reduce") as [->|]; [by intros [= <-]|].
  destruct (String.eqb_spec s "per_rank_no_reduce") as [->|]; [by intros [= <-]|].
  done.
Qed.

Lemma get_logger_backend_class_Ok (cls_name : string) (backend : LoggerBackend) :
  get_logger_backend_class cls_name = Ok backend → backend = cls_name.
Proof.
  unfold get_logger_backend_class.
  destruct (String.eqb cls_name "console"); [by intros [= <-]|].
  destruct (String.eqb cls_name "wandb"); [by intros [= <-]|done].
Qed.

Lemma init_backends_loop_returns (config : list (string * string))
    (reduce no_reduce : list LoggerBackend) (tr : list Event)
    (r nr : list LoggerBackend) :
  init_backends_loop config reduce no_reduce = mkEff tr (Ok (r, nr)) →
  r = reduce ++ backends_of_mode "per_rank_reduce" config ∧
  nr = no_reduce ++ backends_of_mode "per_rank_no_reduce" config ∧
  tr = (λ backend, backend_init backend "local") <$> local_backends config.
Proof.
  unfold backends_of_mode, local_backends.
  revert reduce no_reduce tr. induction config as [|[name smode] config IH];
    intros reduce no_reduce tr; cbn [init_backends_loop].
  { cbn. intros [= <- <- <-]. by rewrite !app_nil_r. }
  destruct (LoggingMode_of_value smode) as [mode|] eqn:Em; [|done].
  apply LoggingMode_of_value_Ok in Em. unfold lift. rewrite Eff_bind_Ok. cbn [app].
  rewrite !filter_cons. cbn [snd].
  destruct (decide (mode = GLOBAL_REDUCE)) as [->|Hg].
  { subst smode. intros H. destruct (init_backends_loop config reduce no_reduce) as [tr' o] eqn:El.
    cbn in H. injection H as <- ->. apply IH in El.
    repeat case_decide; try done. }
  destruct (get_logger_backend_class name) as [backend|] eqn:Eb; [|done].
  apply get_logger_backend_class_Ok in Eb as ->.
  rewrite Eff_bind_Ok. unfold emit. rewrite Eff_bind_Ok. cbn [app trace outcome].
  destruct mode; [done| |].
  - subst smode. rewrite decide_False by done.
    destruct (init_backends_loop config (reduce ++ [name]) no_reduce) as [tr' o] eqn:El.
    cbn. intros [= <- ->]. apply IH in El as (-> & -> & ->).
    repeat case_decide; try done. cbn. by rewrite <- app_assoc.
  - subst smode. rewrite decide_True by done.
    destruct (init_backends_loop config reduce (no_reduce ++ [name])) as [tr' o] eqn:El.
    cbn. intros [= <- ->]. apply IH in El as (-> & -> & ->).
    repeat case_decide; try done. cbn. by rewrite <- app_assoc.
Qed.

Lemma init_backends_loop_modes (config : list (string * string))
    (reduce no_reduce : list LoggerBackend) (tr : list Event)
    (r nr : list LoggerBackend) :
  init_backends_loop config reduce no_reduce = mkEff tr (Ok (r, nr)) →
  Forall (λ e, ∃ mode, LoggingMode_of_value e.2 = Ok mode) config.
Proof.
  revert reduce no_reduce tr. induction config as [|[name smode] config IH];
    intros reduce no_reduce tr; cbn [init_backends_loop]; [constructor|].
  destruct (LoggingMode_of_value smode) as [mode|] eqn:Em; [|done].
  unfold lift. rewrite Eff_bind_Ok. cbn [app]. intros H.
  constructor; [by exists mode|]. revert H.
  destruct (decide (mode = GLOBAL_REDUCE)) as [->|Hg].
  { destruct (init_backends_loop config reduce no_reduce) as [tr' o] eqn:El.
    cbn. intros [= <- ->]. by eapply IH. }
  destruct (get_logger_backend_class name) as [backend|] eqn:Eb; [|done].
  rewrite Eff_bind_Ok. unfold emit. rewrite Eff_bind_Ok. cbn [app trace outcome].
  case_decide.
  - destruct (init_backends_loop config reduce _) as [tr' o] eqn:El.
    cbn. intros [= <- ->]. by eapply IH.
  - destruct (init_backends_loop config _ no_reduce) as [tr' o] eqn:El.
    cbn. intros [= <- ->]. by eapply IH.
Qed.

(** Every backend that is not reduced globally falls in one of the two
    lists. *)
Lemma backends_of_modes_Permutation (config : list (string * string)) :
  Forall (λ e, ∃ mode, LoggingMode_of_value e.2 = Ok mode) config →
  backends_of_mode "per_rank_reduce" config ++ backends_of_mode "per_rank_no_reduce" config
  ≡ₚ local_backends config.
Proof.
  unfold backends_of_mode, local_backends.
  induction 1 as [|[name smode] config [mode Hm%LoggingMode_of_value_Ok] _ IH]; [done|].
  rewrite !filter_cons. cbn [snd] in *. subst smode.
  destruct mode; repeat case_decide; try done; cbn.
  - by rewrite IH.
  - rewrite <- Permutation_middle. by rewrite IH.
Qed.

(** X12. [init_backends] on a collector that is not initialised, when it
    returns: the collector is initialised at the given step with its
    accumulators and rank untouched; the accumulate-then-flush backends are
    those of the entries in mode ["per_rank_reduce"] and the
    stream-immediately backends those in mode ["per_rank_no_reduce"], each in
    the order of the configuration; an entry in mode ["global_reduce"] gets
    no backend and no call; every other backend has been initialised once,
    with the local role. A later call, whatever its configuration and step,
    changes nothing and only logs at debug level. *)
Theorem init_backends_buckets (self c : t) (config : list (string * string)) (gs : Z)
    (tr : list Event) :
  _is_initialized self = false →
  init_backends self config gs = mkEff tr (Ok c) →
  c = mk (accumulators self) (rank self)
         (backends_of_mode "per_rank_reduce" config)
         (backends_of_mode "per_rank_no_reduce" config) gs true ∧
  tr = (λ backend, backend_init backend "local") <$> local_backends config ∧
  (∀ config' gs',
     init_backends c config' gs'
     = mkEff [logger_debug "MetricCollector already initialized"] (Ok c)).
Proof.
  intros Hinit. unfold init_backends at 1. rewrite Hinit.
  destruct (init_backends_loop config [] []) as [tr' [[r nr]|]] eqn:El; [|done].
  destruct (init_backends_loop_returns _ _ _ _ _ _ El) as (-> & -> & ->).
  cbn. rewrite app_nil_r. intros [= <- <-]. split_and!; done.
Qed.

Lemma init_backends_buckets_witness :
  init_backends (__init__ 4)
    [("wandb", "per_rank_no_reduce"); ("console", "global_reduce");
     ("console", "per_rank_reduce")] 7
  = mkEff [backend_init "wandb" "local"; backend_init "console" "local"]
          (Ok (mk ∅ 4 ["console"] ["wandb"] 7 true)) ∧
  mk ∅ 4 ["console"] ["wandb"] 7 true
  = mk ∅ 4 (backends_of_mode "per_rank_reduce"
              [("wandb", "per_rank_no_reduce"); ("console", "global_reduce");
               ("console", "per_rank_reduce")])
       (backends_of_mode "per_rank_no_reduce"
              [("wandb", "per_rank_no_reduce"); ("console", "global_reduce");
               ("console", "per_rank_reduce")]) 7 true.
Proof.
  split; [vm_compute; reflexivity|].
  apply (init_backends_buckets (__init__ 4) (mk ∅ 4 ["console"] ["wandb"] 7 true)
           [("wandb", "per_rank_no_reduce"); ("console", "global_reduce");
            ("console", "per_rank_reduce")] 7
           [backend_init "wandb" "local"; backend_init "console" "local"]).
  - reflexivity.
  - vm_compute. reflexivity.
Defined.

(** X13. [shutdown] after [init_backends]: the backends it finishes are
    exactly those [init_backends] built and initialised, each of them once
    (the accumulate-then-flush ones first), and nothing else is called;
    before [init_backends] it finishes nothing. *)
Theorem shutdown_finishes_initialised (self c : t) (config : list (string * string))
    (gs : Z) (tr : list Event) :
  _is_initialized self = false →
  init_backends self config gs = mkEff tr (Ok c) →
  shutdown self = mkEff [logger_debug "Collector not initialized. Skipping shutdown"] (Ok ()) ∧
  ∃ initialised finished,
    tr = (λ backend, backend_init backend "local") <$> initialised ∧
    shutdown c = mkEff (finish <$> finished) (Ok ()) ∧
    finished ≡ₚ initialised ∧
    finished = per_rank_reduce_backends c ++ per_rank_no_reduce_backends c.
Proof.
  intros Hinit H. split; [unfold shutdown; by rewrite Hinit|].
  unfold init_backends in H. rewrite Hinit in H.
  destruct (init_backends_loop config [] []) as [tr' [[r nr]|]] eqn:El; [|done].
  pose proof (init_backends_loop_modes _ _ _ _ _ _ El) as Hmodes.
  destruct (init_backends_loop_returns _ _ _ _ _ _ El) as (-> & -> & ->).
  cbn in H. rewrite app_nil_r in H. injection H as <- <-.
  exists (local_backends config),
    (backends_of_mode "per_rank_reduce" config ++ backends_of_mode "per_rank_no_reduce" config).
  split_and!; [done| |by apply backends_of_modes_Permutation|done].
  unfold shutdown. cbn [_is_initialized negb per_rank_reduce_backends per_rank_no_reduce_backends].
  rewrite (for_each_emits _ (λ backend, [finish backend])) by done.
  f_equal; try apply (bind_singleton finish).
Qed.

Lemma shutdown_finishes_initialised_witness :
  shutdown (mk ∅ 4 ["console"] ["wandb"] 7 true)
  = mkEff [finish "console"; finish "wandb"] (Ok ()).
Proof.
  destruct (shutdown_finishes_initialised (__init__ 4) (mk ∅ 4 ["console"] ["wandb"] 7 true)
              [("wandb", "per_rank_no_reduce"); ("console", "global_reduce");
               ("console", "per_rank_reduce")] 7
              [backend_init "wandb" "local"; backend_init "console" "local"])
    as (_ & initialised & finished & _ & H2 & _ & ->).
  - reflexivity.
  - vm_compute. reflexivity.
  - exact H2.
Defined.

End CollectorBackends.

(** ** What a sample accumulator returns *)

Section SampleValue.
Import TopBottomKFilter.

Lemma eqb_sym (a b : float) : (a =? b)%float = (b =? a)%float.
Proof.
  rewrite !eqb_compare.
  destruct (SFcompare (Prim2SF a) (Prim2SF b)) as [c|] eqn:E1.
  - rewrite (SFcompare_sym _ _ _ E1). by destruct c.
  - destruct (SFcompare (Prim2SF b) (Prim2SF a)) as [c|] eqn:E2; [|done].
    apply SFcompare_sym in E2. congruence.
Qed.

Lemma eqb_opp (a b : float) : (- a =? - b)%float = (b =? a)%float.
Proof. by rewrite !eqb_compare, !FloatAxioms.opp_spec, SFcompare_opp. Qed.

(** What the comparison of two entries says of their values and positions
    when the first is not below the second. *)
Lemma entry_not_below (a b : float) (i k : nat) :
  not_nan a → not_nan b →
  match SFcompare (Prim2SF a) (Prim2SF b) with
  | Some Lt => true
  | Some Eq => (i <? k)%nat
  | _ => false
  end = false →
  (a <? b)%float = false ∧ ((b =? a)%float = true → (k ≤ i)%nat).
Proof.
  intros Ha Hb. rewrite ltb_compare, (eqb_sym b a), eqb_compare.
  destruct (SFcompare_Some _ _ Ha Hb) as [c ->].
  destruct c; try done. intros H%Nat.ltb_ge. done.
Qed.

(** A side with bound one holds the greatest of the entries it has seen. *)
Lemma side_inv_single (all heap : list entry) :
  numbered all → all ≠ [] → side_inv 1 all heap →
  ∃ e, heap = [e] ∧ e ∈ all ∧ ∀ e', e' ∈ all → entry_lt e e' = Ok false.
Proof.
  intros Hall Hne Hside.
  destruct (side_inv_best all heap all 1 Hall) as (dropped & Hp & Hlen & Hlt & _); [|done|].
  { by apply Forall_forall. }
  destruct heap as [|e [|e2 heap]].
  - destruct all; [done|]. cbn in Hlen. lia.
  - exists e. split; [done|].
    assert (e ∈ all) as He by (rewrite <- Hp; by left).
    split; [done|]. intros e' He'. rewrite <- Hp in He'.
    apply elem_of_cons in He' as [->|Hd].
    + rewrite (entry_lt_ltb all Hall) by done. f_equal. by apply (entry_ltb_irrefl all Hall).
    + apply Hlt; [by left|done].
  - cbn in Hlen. lia.
Qed.

(** X14. A new sample accumulator fed samples whose rewards are numbers other
    than NaN returns, and [get_value] is then a list of two samples: first
    one of the least reward, then one of the greatest reward, and where
    several samples tie it is the one appended last. (A single sample
    appended is returned twice.) *)
Theorem sample_accumulator_worst_best (reduction : Reduce)
    (ranked : list (float * Sample)) :
  ranked ≠ [] → Forall (ranked_by "reward") ranked →
  ∃ acc i j lo hi,
    acc_calls (accumulator_class SAMPLE reduction) (Append ∘ VDict <$> ranked.*2) = Ok acc ∧
    MetricAccumulator.get_value acc = VList [lo.2; hi.2] ∧
    ranked !! i = Some lo ∧ ranked !! j = Some hi ∧
    ∀ k r, ranked !! k = Some r →
      (r.1 <? lo.1)%float = false ∧ (hi.1 <? r.1)%float = false ∧
      ((r.1 =? lo.1)%float = true → (k ≤ i)%nat) ∧
      ((r.1 =? hi.1)%float = true → (k ≤ j)%nat).
Proof.
  intros Hne Hr.
  destruct (filter_append_all_total [] (ranked.*2) (__init__ 1 1 "reward"))
    as [f Hf]; try done.
  { by apply ranked_numeric. }
  destruct (filter_append_all_keeps "reward" [] ranked (__init__ 1 1 "reward") f)
    as [Ht Hb]; try done; try apply side_inv_nil.
  cbn in Ht, Hb.
  pose proof (numbered_top_entries "reward" ranked Hr) as Hnt.
  pose proof (numbered_bottom_entries "reward" ranked Hr) as Hnb.
  destruct (side_inv_single (top_entries ranked) (_top_heap f) Hnt)
    as (et & Het & Hint & Htop); [by destruct ranked|done|].
  destruct (side_inv_single (bottom_entries ranked) (_bottom_heap f) Hnb)
    as (eb & Heb & Hinb & Hbot); [by destruct ranked|done|].
  apply elem_of_lookup_imap in Hint as (j & hi & -> & Hj).
  apply elem_of_lookup_imap in Hinb as (i & lo & -> & Hi).
  exists (MetricAccumulator.Sample (SampleAccumulator.mk reduction [] f)), i, j, lo, hi.
  split_and!; try done.
  - cbn [accumulator_class]. unfold SampleAccumulator.__init__.
    rewrite acc_calls_append_samples, Hf. done.
  - cbn. unfold SampleAccumulator.get_value, filter_flush. cbn. by rewrite Het, Heb.
  - intros k r Hk.
    assert (ranked_by "reward" r) as [_ Hnr] by (by eapply Forall_lookup_1).
    assert (ranked_by "reward" lo) as [_ Hnlo] by (by eapply Forall_lookup_1).
    assert (ranked_by "reward" hi) as [_ Hnhi] by (by eapply Forall_lookup_1).
    assert ((FNum hi.1, j, hi.2) ∈ top_entries ranked) as Hej
      by (apply elem_of_lookup_imap; eauto).
    assert ((FNum r.1, k, r.2) ∈ top_entries ranked) as Hek
      by (apply elem_of_lookup_imap; eauto).
    assert ((FNum (- lo.1)%float, i, lo.2) ∈ bottom_entries ranked) as Hbi
      by (apply elem_of_lookup_imap; eauto).
    assert ((FNum (- r.1)%float, k, r.2) ∈ bottom_entries ranked) as Hbk
      by (apply elem_of_lookup_imap; eauto).
    pose proof (Htop _ Hek) as Hcmp.
    rewrite (entry_ltb_compare _ Hnt _ _ _ _ _ _ Hej Hek) in Hcmp. injection Hcmp as Hcmp.
    apply entry_not_below in Hcmp as [Ht1 Ht2]; [|done|done].
    pose proof (Hbot _ Hbk) as Hcmp.
    rewrite (entry_ltb_compare _ Hnb _ _ _ _ _ _ Hbi Hbk) in Hcmp. injection Hcmp as Hcmp.
    apply entry_not_below in Hcmp as [Hb1 Hb2]; [|by apply not_nan_opp|by apply not_nan_opp].
    rewrite ltb_opp in Hb1. rewrite eqb_opp, eqb_sym in Hb2.
    split_and!; done.
Qed.

Lemma sample_accumulator_worst_best_witness :
  ∃ acc lo hi,
    acc_calls (accumulator_class SAMPLE SAMPLE)
      (Append ∘ VDict <$> [reward_sample 5; reward_sample 1; reward_sample 9]) = Ok acc ∧
    MetricAccumulator.get_value acc = VList [lo; hi].
Proof.
  destruct (sample_accumulator_worst_best SAMPLE
              [(5%float, reward_sample 5); (1%float, reward_sample 1);
               (9%float, reward_sample 9)])
    as (acc & i & j & lo & hi & H1 & H2 & _).
  - done.
  - repeat constructor; cbn; done.
  - exists acc, lo.2, hi.2. split; done.
Defined.

End SampleValue.

(** ** [record_metric] and the singleton *)

Section RecordMetric.
Import MetricCollector.

Lemma ascii_lower_t (c : ascii) : ascii_lower c = "t"%char ↔ (c = "t" ∨ c = "T")%char.
Proof.
  destruct c as [[] [] [] [] [] [] [] []]; vm_compute; split;
    try (intros [H|H]; discriminate H); try discriminate; auto.
Qed.

Lemma ascii_lower_r (c : ascii) : ascii_lower c = "r"%char ↔ (c = "r" ∨ c = "R")%char.
Proof.
  destruct c as [[] [] [] [] [] [] [] []]; vm_compute; split;
    try (intros [H|H]; discriminate H); try discriminate; auto.
Qed.

Lemma ascii_lower_u (c : ascii) : ascii_lower c = "u"%char ↔ (c = "u" ∨ c = "U")%char.
Proof.
  destruct c as [[] [] [] [] [] [] [] []]; vm_compute; split;
    try (intros [H|H]; discriminate H); try discriminate; auto.
Qed.

Lemma ascii_lower_e (c : ascii) : ascii_lower c = "e"%char ↔ (c = "e" ∨ c = "E")%char.
Proof.
  destruct c as [[] [] [] [] [] [] [] []]; vm_compute; split;
    try (intros [H|H]; discriminate H); try discriminate; auto.
Qed.

Lemma lower_true (v : string) : lower v = "true" ↔ spelled_true v.
Proof.
  destruct v as [|c1 [|c2 [|c3 [|c4 [|c5 v]]]]]; cbn [lower spelled_true]; try (split; done).
  rewrite <- ascii_lower_t, <- ascii_lower_r, <- ascii_lower_u, <- ascii_lower_e.
  split; [intros [= -> -> -> ->]; done|]. by intros (-> & -> & -> & ->).
Qed.

(** X15. The switch of [record_metric]: when [FORGE_DISABLE_METRICS] reads
    ["true"] in any case of its four letters, [record_metric] does nothing at
    all (no collector is made, nothing is logged, nothing raised); with any
    other value (["1"], ["yes"], [" true"], the empty string, ...) it does
    what it does when the variable is not set. *)
Theorem record_metric_disable_switch (v : string) (rank : Z) (now : float)
    (_instances : gmap Z Singleton.Instance) (key : string) (value : PyValue)
    (reduction : Reduce) :
  (spelled_true v →
   record_metric (Some v) rank now _instances key value reduction
   = mkEff [] (Ok _instances)) ∧
  (¬ spelled_true v →
   record_metric (Some v) rank now _instances key value reduction
   = record_metric None rank now _instances key value reduction).
Proof.
  unfold record_metric. cbn [default from_option id]. split.
  - intros H%lower_true. by rewrite H.
  - intros H. destruct (String.eqb_spec (lower v) "true") as [E%lower_true|E]; done.
Qed.

Lemma registry_inv_insert (_instances : gmap Z Singleton.Instance) (rank : Z)
    (collector : MetricCollector.t) :
  registry_inv _instances →
  registry_inv (<[rank := Singleton.mkInstance rank (Some collector)]> _instances).
Proof.
  intros Hinv r inst [[<- <-]|[_ H]]%lookup_insert_Some; [by eauto|by apply Hinv].
Qed.

Lemma Singleton_call (_instances : gmap Z Singleton.Instance) (rank : Z) :
  registry_inv _instances →
  Singleton.__call__ rank _instances
  = Ok (<[rank := Singleton.mkInstance rank (Some (collector_of _instances rank))]> _instances,
        collector_of _instances rank).
Proof.
  intros Hinv. unfold Singleton.__call__, Singleton.__new__, collector_of.
  destruct (_instances !! rank) as [inst|] eqn:E; cbn.
  - destruct (Hinv _ _ E) as [Hr [c Hc]]. rewrite decide_False by (intros H; by apply H).
    cbn. unfold Singleton.__init__, Singleton.set_attributes. rewrite Hc, Hr. done.
  - by rewrite insert_insert_eq.
Qed.

(** X16. Calls of [record_metric] on one rank reach one collector: with the
    switch off and [_instances] as calls of [MetricCollector()] leave it,
    [record_metric] is [push] on the collector stored for the rank, or on a
    new one if the rank has none, and the collector that [push] leaves is the
    one stored for the rank afterwards; the entries of the other ranks are
    untouched, and the [ValueError] of [__new__] is never raised. On a rank
    seen for the first time the metric is dropped with the warning of an
    uninitialised collector, which is stored. *)
Theorem record_metric_singleton (rank : Z) (now : float)
    (_instances : gmap Z Singleton.Instance) (key : string) (value : PyValue)
    (reduction : Reduce) :
  registry_inv _instances →
  record_metric None rank now _instances key value reduction
  = (collector ← push (collector_of _instances rank)
                      (IsMetric (Metric.mk key value reduction now));
     mret (<[rank := Singleton.mkInstance rank (Some collector)]> _instances)) ∧
  (∀ _instances',
     outcome (record_metric None rank now _instances key value reduction) = Ok _instances' →
     registry_inv _instances' ∧
     dom _instances' = {[rank]} ∪ dom _instances ∧
     ∀ r, r ≠ rank → _instances' !! r = _instances !! r) ∧
  (_instances !! rank = None →
   record_metric None rank now _instances key value reduction
   = mkEff [log_once_warning push_warning]
       (Ok (<[rank := Singleton.mkInstance rank (Some (__init__ rank))]> _instances))).
Proof.
  intros Hinv.
  assert (record_metric None rank now _instances key value reduction
          = (collector ← push (collector_of _instances rank)
                              (IsMetric (Metric.mk key value reduction now));
             mret (<[rank := Singleton.mkInstance rank (Some collector)]> _instances))) as Heq.
  { change (record_metric None rank now _instances key value reduction)
      with (ic ← lift (Singleton.__call__ rank _instances);
            collector ← push ic.2 (IsMetric (Metric.mk key value reduction now));
            mret (alter (Singleton.set_attributes collector) rank ic.1)).
    rewrite (Singleton_call _ _ Hinv). unfold lift. rewrite Eff_bind_Ok. cbn [fst snd app].
    destruct (push _ _) as [tr [c|e]]; cbn; [|done].
    by rewrite alter_insert_eq. }
  split_and!; [done| |].
  - intros insts'. rewrite Heq. intros (c & _ & H)%outcome_bind. cbn in H. injection H as <-.
    split_and!.
    + by apply registry_inv_insert.
    + by rewrite dom_insert_L.
    + intros r Hr. by rewrite lookup_insert_ne.
  - intros Hnone. rewrite Heq. unfold collector_of. rewrite Hnone. cbn.
    unfold push. cbn. done.
Qed.

Lemma record_metric_singleton_witness :
  record_metric None 3 0 ∅ "loss" (VNum 1) MEAN
  = mkEff [log_once_warning push_warning]
      (Ok {[ 3%Z := Singleton.mkInstance 3 (Some (__init__ 3)) ]}).
Proof.
  destruct (record_metric_singleton 3 0 ∅ "loss" (VNum 1) MEAN) as (_ & _ & H).
  - intros r inst Hr. by rewrite lookup_empty in Hr.
  - by apply H.
Defined.

End RecordMetric.

(** ** [record_episode_sample] *)

Section EpisodeSample.

(** X17. The sample [record_episode_sample] builds: the attributes
    [advantage], [request_len], [response_len] and [pad_id] of the episode
    are stored under these names whatever the reward breakdown holds; an
    entry of the reward breakdown under any other name is stored as it is,
    also under ["episode_id"], ["policy_version"], ["prompt"], ["response"]
    or ["target"], where it replaces the attribute of the episode; these
    five hold the attributes of the episode otherwise. The sample has no
    other entry, and the sample filter ranks it by the ["reward"] entry of
    the breakdown, or by [0.0] when the breakdown is missing or has none. *)
Theorem episode_sample_entries (episode : Episode.t) :
  let breakdown := default ∅ (Episode.reward_breakdown episode) in
  let sample := episode_sample episode in
  sample !! "advantage" = Some (Episode.advantage episode) ∧
  sample !! "request_len" = Some (Episode.request_len episode) ∧
  sample !! "response_len" = Some (Episode.response_len episode) ∧
  sample !! "pad_id" = Some (Episode.pad_id episode) ∧
  (∀ k v, breakdown !! k = Some v →
     k ∉ ["advantage"; "request_len"; "response_len"; "pad_id"] → sample !! k = Some v) ∧
  (breakdown !! "episode_id" = None →
     sample !! "episode_id" = Some (Episode.episode_id episode)) ∧
  (breakdown !! "policy_version" = None →
     sample !! "policy_version" = Some (Episode.policy_version episode)) ∧
  (breakdown !! "prompt" = None → sample !! "prompt" = Some (Episode.request episode)) ∧
  (breakdown !! "response" = None → sample !! "response" = Some (Episode.response episode)) ∧
  (breakdown !! "target" = None → sample !! "target" = Some (FText (Episode.target episode))) ∧
  dom sample
  = dom breakdown ∪ list_to_set ["episode_id"; "policy_version"; "prompt"; "response";
                                 "target"; "advantage"; "request_len"; "response_len";
                                 "pad_id"] ∧
  default (FNum 0) (sample !! "reward") = default (FNum 0) (breakdown !! "reward").
Proof.
  intros breakdown sample. unfold sample, episode_sample, dict_update. cbn zeta.
  fold breakdown.
  split_and!.
  - by rewrite !lookup_insert_ne, lookup_insert_eq by done.
  - by rewrite !lookup_insert_ne, lookup_insert_eq by done.
  - by rewrite !lookup_insert_ne, lookup_insert_eq by done.
  - by rewrite lookup_insert_eq.
  - intros k v Hk Hn. rewrite !not_elem_of_cons in Hn. destruct Hn as (? & ? & ? & ? & _).
    rewrite !lookup_insert_ne by done. by rewrite lookup_union_l'.
  - intros Hn. rewrite !lookup_insert_ne by done. rewrite lookup_union_r by done.
    by rewrite !lookup_insert_ne, lookup_insert_eq by done.
  - intros Hn. rewrite !lookup_insert_ne by done. rewrite lookup_union_r by done.
    by rewrite !lookup_insert_ne, lookup_insert_eq by done.
  - intros Hn. rewrite !lookup_insert_ne by done. rewrite lookup_union_r by done.
    by rewrite !lookup_insert_ne, lookup_insert_eq by done.
  - intros Hn. rewrite !lookup_insert_ne by done. rewrite lookup_union_r by done.
    by rewrite !lookup_insert_ne, lookup_insert_eq by done.
  - intros Hn. rewrite !lookup_insert_ne by done. rewrite lookup_union_r by done.
    by rewrite lookup_insert_eq.
  - rewrite !dom_insert_L, dom_union_L, !dom_insert_L, dom_empty_L. cbn. apply set_eq. intros x. set_unfold. tauto.
  - rewrite !lookup_insert_ne by done. rewrite lookup_union.
    rewrite !lookup_insert_ne, lookup_empty by done.
    by destruct (breakdown !! "reward").
Qed.

End EpisodeSample.

(** ** WandbBackend *)

Section WandbFacts.
Import WandbBackend.

(** X18. The shared run of the per-rank modes. A backend in a per-rank mode
    with [per_rank_share_run] set, initialised with the global role, starts
    one run as primary; the metadata it then hands out for the other ranks
    holds the id of that run; a backend of the same configuration initialised
    with the local role and this metadata clears the service token and joins
    the run of that very id as a secondary labelled with its actor name,
    without raising. With metadata that has no ["shared_run_id"], or none at
    all, the local initialisation raises before any call to wandb. *)
Theorem shared_run_handshake (self : t) (primary_run secondary_run : WandbRun.t)
    (controller_name actor_name : string) :
  logging_mode self ≠ GLOBAL_REDUCE → truthy (per_rank_share_run self) = true →
  ∃ primary secondary,
    init primary_run controller_name self "global" None
    = mkWandbEff [wandb_init None (project self) (group self) None
                    (Some (Settings.mk "shared" true (Some "controller_primary")))]
                 (Ok primary) ∧
    run primary = Some primary_run ∧
    get_metadata_for_secondary_ranks primary
    = {[ "shared_run_id" := WandbRun.id primary_run ]} ∧
    init secondary_run actor_name self "local"
         (Some (get_metadata_for_secondary_ranks primary))
    = mkWandbEff [clear_service_in_env;
                  wandb_init (Some (WandbRun.id primary_run)) (project self) (group self) None
                    (Some (Settings.mk "shared" false (Some actor_name)))]
                 (Ok secondary) ∧
    run secondary = Some secondary_run ∧
    (∀ metadata, default ∅ metadata !! "shared_run_id" = None →
       ∃ e, init secondary_run actor_name self "local" metadata = mkWandbEff [] (Raise e)).
Proof.
  intros Hmode Hshare.
  exists (mk (project self) (group self) (Some "Controller") (Some primary_run)
             (logging_mode self) (per_rank_share_run self)),
         (mk (project self) (group self) (Some actor_name) (Some secondary_run)
             (logging_mode self) (per_rank_share_run self)).
  assert (get_metadata_for_secondary_ranks
            (mk (project self) (group self) (Some "Controller") (Some primary_run)
                (logging_mode self) (per_rank_share_run self))
          = {[ "shared_run_id" := WandbRun.id primary_run ]}) as Hmeta.
  { unfold get_metadata_for_secondary_ranks. cbn. by rewrite Hshare. }
  split_and!.
  - unfold init. cbn. rewrite decide_False by done. by rewrite Hshare.
  - done.
  - done.
  - rewrite Hmeta. unfold init. cbn. rewrite decide_False by done. rewrite Hshare.
    unfold _init_shared_local. cbn. by rewrite lookup_singleton_eq.
  - done.
  - intros metadata Hnone. unfold init. cbn. rewrite decide_False by done. rewrite Hshare.
    unfold _init_shared_local. cbn. rewrite Hnone. eauto.
Qed.

Lemma shared_run_handshake_witness :
  ∃ primary,
    init (WandbRun.mk "abc123") "Controller"
         (mk (CText "my_proj") (CText "experiment_group") None None PER_RANK_NO_REDUCE
             (CBool true)) "global" None
    = mkWandbEff [wandb_init None (CText "my_proj") (CText "experiment_group") None
                    (Some (Settings.mk "shared" true (Some "controller_primary")))]
                 (Ok primary) ∧
    get_metadata_for_secondary_ranks primary = {[ "shared_run_id" := "abc123" ]}.
Proof.
  destruct (shared_run_handshake
              (mk (CText "my_proj") (CText "experiment_group") None None PER_RANK_NO_REDUCE
                  (CBool true))
              (WandbRun.mk "abc123") (WandbRun.mk "abc123") "Controller" "Trainer_r0")
    as (primary & secondary & H1 & _ & H3 & _); [done|done|].
  exists primary. split; [exact H1|exact H3].
Defined.

(** X19. A backend that starts no run stays silent. A new backend initialised
    with the local role in mode GLOBAL_REDUCE, or with the global role in a
    per-rank mode without a shared run, returns without a call to wandb and
    has no run; after that it makes no call to wandb in [log_batch] or
    [log_stream], whatever it is given, and hands out empty metadata. *)
Theorem no_run_no_logging (config : gmap string ConfigValue) (self : t)
    (new_run : WandbRun.t) (actor_name role : string)
    (metadata : option (gmap string string)) :
  __init__ config = Ok self →
  (logging_mode self = GLOBAL_REDUCE ∧ role = "local") ∨
  (logging_mode self ≠ GLOBAL_REDUCE ∧ role = "global" ∧
   truthy (per_rank_share_run self) = false) →
  ∃ tr self',
    init new_run actor_name self role metadata = mkWandbEff tr (Ok self') ∧
    Forall (λ c, ¬ reaches_wandb c) tr ∧
    run self' = None ∧
    (∀ metrics global_step,
       Forall (λ c, ¬ reaches_wandb c) (calls (log_batch self' metrics global_step)) ∧
       returned (log_batch self' metrics global_step) = Ok ()) ∧
    (∀ metric global_step, log_stream self' metric global_step = mkWandbEff [] (Ok ())) ∧
    get_metadata_for_secondary_ranks self' = ∅.
Proof.
  intros Hnew Hcase.
  assert (run self = None) as Hrun.
  { unfold __init__ in Hnew.
    destruct (config !! "project"); [|done].
    destruct (config !! "logging_mode") as [m|]; [|done].
    destruct (LoggingMode_of_config m); cbn in Hnew; [|done]. by injection Hnew as <-. }
  destruct Hcase as [[Hm ->]|(Hm & -> & Hs)].
  - eexists _, _. split; [unfold init; cbn; rewrite decide_True by done; reflexivity|].
    split_and!.
    + repeat constructor. by intros [].
    + done.
    + intros metrics gs. unfold log_batch. cbn. rewrite Hrun.
      split; [|done]. repeat constructor. by intros [].
    + intros metric gs. unfold log_stream. cbn. by rewrite Hrun.
    + unfold get_metadata_for_secondary_ranks. cbn. by rewrite Hrun.
  - eexists _, _. split.
    { unfold init. cbn. rewrite decide_False by done. rewrite Hs. reflexivity. }
    split_and!.
    + constructor.
    + done.
    + intros metrics gs. unfold log_batch. cbn. rewrite Hrun.
      split; [|done]. repeat constructor. by intros [].
    + intros metric gs. unfold log_stream. cbn. by rewrite Hrun.
    + unfold get_metadata_for_secondary_ranks. cbn. by rewrite Hrun.
Qed.

Lemma no_run_no_logging_witness :
  ∃ self',
    init (WandbRun.mk "abc123") "Trainer_r0"
         (mk (CText "my_proj") (CText "experiment_group") None None GLOBAL_REDUCE (CBool false))
         "local" None
    = mkWandbEff [warning_skipped_init "local"] (Ok self') ∧
    run self' = None.
Proof.
  destruct (no_run_no_logging
              {[ "project" := CText "my_proj"; "logging_mode" := CText "global_reduce" ]}
              (mk (CText "my_proj") (CText "experiment_group") None None GLOBAL_REDUCE
                  (CBool false))
              (WandbRun.mk "abc123") "Trainer_r0" "local" None)
    as (tr & self' & H1 & _ & H3 & _).
  - vm_compute. reflexivity.
  - left. done.
  - exists self'. split; [|exact H3]. rewrite H1. f_equal.
    unfold init in H1. cbn in H1. by injection H1 as <- _.
Defined.

(** The dict of [log_batch] after the loop over the metrics. *)
Lemma log_data_fold (metrics : list Metric.t) (log_data : gmap string LogValue) :
  let result :=
    fold_left (λ log_data metric,
                 <[Metric.key metric := LValue (Metric.value metric)]> log_data)
              metrics log_data in
  dom result = dom log_data ∪ list_to_set (Metric.key <$> metrics) ∧
  (∀ k, k ∉ Metric.key <$> metrics → result !! k = log_data !! k) ∧
  (∀ pre m post, metrics = pre ++ m :: post → Metric.key m ∉ Metric.key <$> post →
     result !! Metric.key m = Some (LValue (Metric.value m))).
Proof.
  revert log_data. induction metrics as [|metric metrics IH]; intros log_data; cbn zeta.
  { cbn. split_and!; [apply set_eq; intros x; set_unfold; tauto|done|].
    intros pre m post H. by destruct pre. }
  cbn [fold_left]. destruct (IH (<[Metric.key metric := LValue (Metric.value metric)]> log_data))
    as (H1 & H2 & H3).
  split_and!.
  - rewrite H1, dom_insert_L. cbn. apply set_eq. intros x. set_unfold. tauto.
  - intros k Hk. cbn in Hk. apply not_elem_of_cons in Hk as [Hk1 Hk2].
    rewrite H2 by done. by rewrite lookup_insert_ne.
  - intros pre m post E Hm. destruct pre as [|p pre]; cbn in E; injection E as -> ->.
    + rewrite H2 by done. by rewrite lookup_insert_eq.
    + by apply (H3 pre m post).
Qed.

(** X20. What a backend with a run logs. [log_batch] logs one dict: it has
    the entry ["step"] and one entry per metric key, a key that occurs
    several times holds the value of its last metric, and ["step"] holds the
    step unless a metric is named ["step"], whose value then takes its
    place. [log_stream] logs one dict in which ["global_step"] is the step
    and ["_timestamp"] the timestamp of the metric, also for a metric of one
    of these two names, whose value is then not logged; the value of any
    other metric is logged under its key. *)
Theorem wandb_log_data (self : t) (r : WandbRun.t) (global_step : Z) :
  run self = Some r →
  (∀ metrics, ∃ data,
     log_batch self metrics global_step
     = mkWandbEff [run_log r data; info_logged (length metrics) global_step] (Ok ()) ∧
     dom data = {["step"]} ∪ list_to_set (Metric.key <$> metrics) ∧
     ("step" ∉ Metric.key <$> metrics → data !! "step" = Some (LInt global_step)) ∧
     (∀ pre m post, metrics = pre ++ m :: post → Metric.key m ∉ Metric.key <$> post →
        data !! Metric.key m = Some (LValue (Metric.value m)))) ∧
  (∀ metric, ∃ data,
     log_stream self metric global_step = mkWandbEff [run_log r data] (Ok ()) ∧
     data !! "global_step" = Some (LInt global_step) ∧
     data !! "_timestamp" = Some (LFloat (Metric.timestamp metric)) ∧
     dom data = {[Metric.key metric; "global_step"; "_timestamp"]} ∧
     (Metric.key metric ≠ "global_step" → Metric.key metric ≠ "_timestamp" →
      data !! Metric.key metric = Some (LValue (Metric.value metric)))).
Proof.
  intros Hrun. split.
  - intros metrics. unfold log_batch. rewrite Hrun. cbn zeta.
    destruct (log_data_fold metrics {[ "step" := LInt global_step ]}) as (H1 & H2 & H3).
    eexists. split; [reflexivity|]. split_and!.
    + by rewrite H1, dom_singleton_L.
    + intros Hn. rewrite H2 by done. by rewrite lookup_singleton_eq.
    + exact H3.
  - intros metric. unfold log_stream. rewrite Hrun. cbn zeta.
    eexists. split; [reflexivity|]. split_and!.
    + by rewrite lookup_insert_ne, lookup_insert_eq by done.
    + by rewrite lookup_insert_eq.
    + rewrite !dom_insert_L, dom_empty_L. apply set_eq. intros x. set_unfold. tauto.
    + intros N1 N2. by rewrite !lookup_insert_ne, lookup_insert_eq by done.
Qed.

Lemma wandb_log_data_witness :
  ∃ data,
    log_stream (mk (CText "my_proj") (CText "experiment_group") (Some "Trainer_r0")
                   (Some (WandbRun.mk "abc123")) PER_RANK_NO_REDUCE (CBool false))
               (Metric.mk "global_step" (VNum 7) MEAN 100) 3
    = mkWandbEff [run_log (WandbRun.mk "abc123") data] (Ok ()) ∧
    data !! "global_step" = Some (LInt 3).
Proof.
  destruct (wandb_log_data
              (mk (CText "my_proj") (CText "experiment_group") (Some "Trainer_r0")
                  (Some (WandbRun.mk "abc123")) PER_RANK_NO_REDUCE (CBool false))
              (WandbRun.mk "abc123") 3 eq_refl) as [_ H].
  destruct (H (Metric.mk "global_step" (VNum 7) MEAN 100)) as (data & H1 & H2 & _).
  exists data. split; [exact H1|exact H2].
Defined.

End WandbFacts.

(** ** Merging the samples of several ranks *)

Section SampleMerge.
Import TopBottomKFilter.

Lemma fold_left_extend {A B : Type} (g : B → list A) (l : list B) (acc : list A) :
  fold_left (λ merged s, merged ++ g s) l acc = acc ++ concat (g <$> l).
Proof.
  revert acc. induction l as [|x l IH]; intros acc; cbn; [by rewrite app_nil_r|].
  by rewrite IH, app_assoc.
Qed.

(** A sample accumulator fed at least one sample with a numeric reward holds
    two samples, both among those appended. *)
Lemma sample_accumulator_pair (reduction : Reduce) (samples : list Sample) :
  samples ≠ [] → Forall (numeric_rank "reward") samples →
  ∃ acc a b,
    acc_calls (accumulator_class SAMPLE reduction) (Append ∘ VDict <$> samples) = Ok acc ∧
    MetricAccumulator.get_state acc = SampleState (Reduce_value reduction) [a; b] ∧
    a ∈ samples ∧ b ∈ samples.
Proof.
  intros Hne Hnum.
  destruct (filter_append_all_total [] samples (__init__ 1 1 "reward")) as [f Hf]; try done.
  destruct (filter_append_all_items_from [] samples (__init__ 1 1 "reward") f)
    as (H1 & H2 & H3 & H4); try done.
  cbn [top_k bottom_k key __init__ app] in H1, H2, H3, H4.
  assert (length (_top_heap f) = 1%nat ∧ length (_bottom_heap f) = 1%nat) as [L1 L2].
  { destruct samples; [done|]. cbn [length] in H1, H2. lia. }
  clear H1 H2.
  destruct (_top_heap f) as [|et [|? ?]] eqn:Et; try done.
  destruct (_bottom_heap f) as [|eb [|? ?]] eqn:Eb; try done.
  exists (MetricAccumulator.Sample (SampleAccumulator.mk reduction [] f)), eb.2, et.2.
  split_and!.
  - cbn [accumulator_class]. unfold SampleAccumulator.__init__.
    by rewrite acc_calls_append_samples, Hf.
  - cbn. unfold SampleAccumulator.get_state, SampleAccumulator.get_value, filter_flush.
    cbn. by rewrite Et, Eb.
  - apply (fmap_submseteq snd) in H4. rewrite <- list_fmap_compose in H4.
    rewrite fmap_snd_pairs in H4. eapply elem_of_submseteq; [|exact H4]. cbn. by left.
  - apply (fmap_submseteq snd) in H3. rewrite fmap_snd_top_entries in H3.
    eapply elem_of_submseteq; [|exact H3]. cbn. by left.
Qed.

(** X21. Merging the states of sample accumulators is a concatenation, not a
    new selection: when each of several ranks has appended at least one
    sample with a numeric reward to a new sample accumulator, the value
    reduced from their states is the list of the samples of the first rank,
    then those of the second, and so on: two samples for every rank, each one
    a sample that rank appended. No sample is dropped at the merge, so the
    result is not the best and the worst sample over all ranks. *)
Theorem sample_states_merge (reduction : Reduce) (parts : list (list Sample)) :
  Forall (λ samples, samples ≠ [] ∧ Forall (numeric_rank "reward") samples) parts →
  ∃ accs merged,
    res_map (λ samples, acc_calls (accumulator_class SAMPLE reduction)
                          (Append ∘ VDict <$> samples)) parts = Ok accs ∧
    get_reduced_value_from_states SAMPLE (MetricAccumulator.get_state <$> accs)
    = Ok (VList merged) ∧
    merged = concat ((λ acc, state_samples (MetricAccumulator.get_state acc)) <$> accs) ∧
    length merged = (2 * length parts)%nat ∧
    Forall2 (λ samples acc, ∀ s, s ∈ state_samples (MetricAccumulator.get_state acc) →
                                 s ∈ samples) parts accs.
Proof.
  intros Hparts.
  assert (∃ accs,
            res_map (λ samples, acc_calls (accumulator_class SAMPLE reduction)
                                  (Append ∘ VDict <$> samples)) parts = Ok accs ∧
            Forall2 (λ samples acc, ∃ a b,
                       MetricAccumulator.get_state acc
                       = SampleState (Reduce_value reduction) [a; b] ∧
                       a ∈ samples ∧ b ∈ samples) parts accs) as (accs & Hmap & Hall).
  { induction Hparts as [|samples parts [Hne Hnum] _ (accs & IH1 & IH2)].
    - exists []. split; [done|constructor].
    - destruct (sample_accumulator_pair reduction samples Hne Hnum)
        as (acc & a & b & Hacc & Hst & Ha & Hb).
      exists (acc :: accs). cbn [res_map]. rewrite Hacc, IH1. cbn.
      split; [done|]. constructor; [|done]. by exists a, b. }
  exists accs, (concat ((λ acc, state_samples (MetricAccumulator.get_state acc)) <$> accs)).
  split_and!; [done| |done| |].
  - cbn. unfold SampleAccumulator.get_reduced_value_from_states.
    rewrite (fold_left_extend state_samples). cbn. by rewrite <- list_fmap_compose.
  - clear Hmap Hparts. induction Hall as [|samples acc parts accs (a & b & Hst & _) _ IH]; [done|].
    cbn [fmap list_fmap concat length]. rewrite length_app, IH, Hst. cbn. lia.
  - eapply Forall2_impl; [exact Hall|]. intros samples acc (a & b & Hst & Ha & Hb) s.
    rewrite Hst. cbn. intros [->|[->|?%elem_of_nil]%elem_of_cons]%elem_of_cons; done.
Qed.

Lemma sample_states_merge_witness :
  ∃ accs merged,
    res_map (λ samples, acc_calls (accumulator_class SAMPLE SAMPLE)
                          (Append ∘ VDict <$> samples))
            [[reward_sample 5; reward_sample 1]; [reward_sample 9]] = Ok accs ∧
    get_reduced_value_from_states SAMPLE (MetricAccumulator.get_state <$> accs)
    = Ok (VList merged) ∧
    length merged = 4%nat.
Proof.
  destruct (sample_states_merge SAMPLE [[reward_sample 5; reward_sample 1]; [reward_sample 9]])
    as (accs & merged & H1 & H2 & _ & H4 & _).
  - repeat constructor; try done; by eexists.
  - exists accs, merged. split_and!; done.
Defined.

End SampleMerge.
